(** * The ingestion pipeline of the Arabic-literature results pages

    A shallow embedding of the CSV normalisation and aggregation code of
    the site's page scripts:

    - [Data]      the DATA page script (genre and century counts);
    - [Results]   the results page script with the continuous scatter
                  (the first and the third copy of results.js are the same
                  code up to comments);
    - [Results2]  the results page script with the token-extracting
                  [coerceNumber] and the 1..15 window.

    Conventions of the embedding.

    - A cell is a [string] whose characters stand for UTF-16 code units
      below 256.  White space follows ECMAScript on that range; letter
      case follows it on the ASCII range, where the genre codes and the
      letter map live, and leaves the other code units as they are.
    - A finite JavaScript number is the rational [Q] it denotes.  String to
      number conversion rounds to the nearest binary64 value
      ([roundToDouble]); the operations the pipeline applies afterwards
      (comparisons, [Math.round], [Math.floor] of [(v-1)/100] for
      [50 <= v <= 2000], [Math.min]/[Math.max], the arithmetic of the hash,
      which stays below [2^39]) are exact on such values.  The one
      operation that is not, the running sum inside [d3.mean], is a
      parameter of the aggregator, instantiated both by the exact mean and
      by the binary64 one.
    - [null] and [undefined] are [None]. *)

From Stdlib Require Import Ascii String ZArith QArith Qround Qabs Floats Uint63 Permutation Lia Lqa.
From stdpp Require Import gmap strings list.

Set Warnings "-inexact-float".

(** ** Strings *)

Module JS.

Definition charCode (c : ascii) : Z := Z.of_N (N_of_ascii c).

Fixpoint charCodes (s : string) : list Z :=
  match s with
  | EmptyString => []
  | String c s' => charCode c :: charCodes s'
  end.

(** TAB, LF, VT, FF, CR, SPACE and NO-BREAK SPACE. *)
Definition isWhiteSpace (c : ascii) : bool :=
  ((9 <=? charCode c) && (charCode c <=? 13)
   || (charCode c =? 32) || (charCode c =? 160))%Z.

Definition isDigit (c : ascii) : bool :=
  ((48 <=? charCode c) && (charCode c <=? 57))%Z.

Definition upperChar (c : ascii) : ascii :=
  if ((97 <=? charCode c) && (charCode c <=? 122))%Z
  then ascii_of_N (N_of_ascii c - 32) else c.

Definition lowerChar (c : ascii) : ascii :=
  if ((65 <=? charCode c) && (charCode c <=? 90))%Z
  then ascii_of_N (N_of_ascii c + 32) else c.

Fixpoint mapChars (f : ascii -> ascii) (s : string) : string :=
  match s with
  | EmptyString => EmptyString
  | String c s' => String (f c) (mapChars f s')
  end.

Definition toUpperCase : string -> string := mapChars upperChar.
Definition toLowerCase : string -> string := mapChars lowerChar.

Fixpoint trimStart (s : string) : string :=
  match s with
  | EmptyString => EmptyString
  | String c s' => if isWhiteSpace c then trimStart s' else s
  end.

Fixpoint trimEnd (s : string) : string :=
  match s with
  | EmptyString => EmptyString
  | String c s' =>
      match trimEnd s' with
      | EmptyString => if isWhiteSpace c then EmptyString else String c EmptyString
      | t => String c t
      end
  end.

Definition trim (s : string) : string := trimEnd (trimStart s).

(** [s.startsWith(p)] *)
Definition startsWith (s p : string) : bool := String.prefix p s.

(** [s.includes(t)] *)
Fixpoint includes (s t : string) : bool :=
  String.prefix t s ||
  match s with
  | EmptyString => false
  | String _ s' => includes s' t
  end.

(** [s.replace(",", ".")]: a string pattern replaces the first occurrence
    only. *)
Fixpoint replaceComma (s : string) : string :=
  match s with
  | EmptyString => EmptyString
  | String c s' =>
      if Ascii.eqb c "," then String "." s' else String c (replaceComma s')
  end.

(** [String(x ?? "")] for a cell that is a string or [undefined]. *)
Definition String_ (x : option string) : string := default EmptyString x.

(** [a || b] on strings: the empty string is falsy. *)
Definition orElse (a b : string) : string :=
  if String.eqb a EmptyString then b else a.

(** ** Numbers *)

Inductive number :=
  | Finite (q : Q)
  | Infinite (negative : bool)
  | NaN.

(** Nearest integer, ties to even. *)
Definition roundHalfEven (q : Q) : Z :=
  let f := Qfloor q in
  match Qcompare (q - inject_Z f) (1 # 2) with
  | Lt => f
  | Gt => (f + 1)%Z
  | Eq => if Z.even f then f else (f + 1)%Z
  end.

(** [binade q] is the [e] with [2^e <= q < 2^(e+1)], for [q > 0]. *)
Definition binade (q : Q) : Z :=
  let e := (Z.log2 (Qnum q) - Z.log2 (Zpos (Qden q)))%Z in
  if Qle_bool (Qpower 2 e) q then e else (e - 1)%Z.

(** Round to nearest binary64, ties to even: 53 bits of precision, the
    least exponent of a normal number is -1022, and a result of [2^1024] or
    more is infinite. *)
Definition roundToDouble (q : Q) : number :=
  if Qeq_bool q 0 then Finite 0
  else
    let a := Qabs q in
    let e := Z.max (binade a) (-1022) in
    let ulp := Qpower 2 (e - 52) in
    let r := (inject_Z (roundHalfEven (a / ulp)) * ulp)%Q in
    let neg := negb (Qle_bool 0 q) in
    if Qle_bool (Qpower 2 1024) r then Infinite neg
    else Finite (Qred (if neg then - r else r)).

(** [Math.floor], [Math.round] (halves go up), [Math.min], [Math.max] on
    finite numbers. *)
Definition Math_floor (v : Q) : Z := Qfloor v.
Definition Math_round (v : Q) : Z := Qfloor (v + (1 # 2)).
Definition Math_min (a b : Q) : Q := if Qle_bool a b then a else b.
Definition Math_max (a b : Q) : Q := if Qle_bool a b then b else a.

(** *** String to number (the unary [+] on a string) *)

Fixpoint spanDigits (s : string) : string * string :=
  match s with
  | EmptyString => (EmptyString, EmptyString)
  | String c s' =>
      if isDigit c
      then let (d, r) := spanDigits s' in (String c d, r)
      else (EmptyString, s)
  end.

Definition digitValue (c : ascii) : Z :=
  let n := charCode c in
  if isDigit c then (n - 48)%Z
  else if ((97 <=? n) && (n <=? 102))%Z then (n - 87)%Z
  else if ((65 <=? n) && (n <=? 70))%Z then (n - 55)%Z
  else 16%Z.

(** The value of a string of digits in a base; [None] when the string is
    empty or holds a character that is no digit of the base. *)
Fixpoint digitsIn (base : Z) (acc : Z) (s : string) : option Z :=
  match s with
  | EmptyString => Some acc
  | String c s' =>
      if (digitValue c <? base)%Z
      then digitsIn base (base * acc + digitValue c)%Z s'
      else None
  end.

Definition numeral (base : Z) (s : string) : option Z :=
  match s with
  | EmptyString => None
  | _ => digitsIn base 0 s
  end.

Definition decimalValue (s : string) : Z := default 0%Z (digitsIn 10 0 s).

(** [ExponentPart] up to the end of the literal: nothing, or [e]/[E], an
    optional sign and at least one digit. *)
Definition exponentPart (s : string) : option Z :=
  match s with
  | EmptyString => Some 0%Z
  | String c r =>
      if Ascii.eqb c "e" || Ascii.eqb c "E" then
        let '(sign, r') :=
          match r with
          | String "+" r1 => (1%Z, r1)
          | String "-" r1 => ((-1)%Z, r1)
          | _ => (1%Z, r)
          end in
        let (d, rest) := spanDigits r' in
        match d, rest with
        | String _ _, EmptyString => Some (sign * decimalValue d)%Z
        | _, _ => None
        end
      else None
  end.

Definition scaled (ip fp : string) (e : Z) : Q :=
  (inject_Z (decimalValue (String.append ip fp))
   * Qpower 10 (e - Z.of_nat (String.length fp)))%Q.

(** [StrUnsignedDecimalLiteral]: [Infinity], digits with an optional
    fraction and exponent, or a fraction that starts with the point. *)
Definition unsignedDecimal (s : string) : option (option Q) :=
  if String.eqb s "Infinity" then Some None
  else
    let (ip, r) := spanDigits s in
    match r with
    | String "." r1 =>
        let (fp, r2) := spanDigits r1 in
        match ip, fp with
        | EmptyString, EmptyString => None
        | _, _ => (fun e => Some (scaled ip fp e)) <$> exponentPart r2
        end
    | _ =>
        match ip with
        | EmptyString => None
        | _ => (fun e => Some (scaled ip EmptyString e)) <$> exponentPart r
        end
    end.

(** [0x], [0o] and [0b] literals, which take no sign. *)
Definition nonDecimal (s : string) : option Z :=
  match s with
  | String "0" (String p ds) =>
      if Ascii.eqb p "x" || Ascii.eqb p "X" then numeral 16 ds
      else if Ascii.eqb p "o" || Ascii.eqb p "O" then numeral 8 ds
      else if Ascii.eqb p "b" || Ascii.eqb p "B" then numeral 2 ds
      else None
  | _ => None
  end.

Definition signed (neg : bool) (v : option (option Q)) : number :=
  match v with
  | None => NaN
  | Some None => Infinite neg
  | Some (Some q) =>
      match roundToDouble q with
      | Finite r => Finite (if neg then Qred (- r) else r)
      | Infinite _ => Infinite neg
      | NaN => NaN
      end
  end.

(** [StringToNumber]: white space around the literal is skipped, and the
    empty literal is 0. *)
Definition StringToNumber (s : string) : number :=
  let t := trim s in
  match t with
  | EmptyString => Finite 0
  | String c r =>
      if Ascii.eqb c "+" then signed false (unsignedDecimal r)
      else if Ascii.eqb c "-" then signed true (unsignedDecimal r)
      else
        match nonDecimal t with
        | Some n => roundToDouble (inject_Z n)
        | None => signed false (unsignedDecimal t)
        end
  end.

(** [Number.isFinite(n) ? n : null] *)
Definition finiteOrNull (n : number) : option Q :=
  match n with
  | Finite q => Some q
  | _ => None
  end.

(** *** The match of [/-?\d+(\.\d+)?/] *)

(** The digits and the optional fraction, anchored at the head of [s]. *)
Definition matchUnsigned (s : string) : option string :=
  let (d, r) := spanDigits s in
  match d with
  | EmptyString => None
  | _ =>
      match r with
      | String "." r1 =>
          let (f, _) := spanDigits r1 in
          match f with
          | EmptyString => Some d
          | _ => Some (String.append d (String "." f))
          end
      | _ => Some d
      end
  end.

(** The whole pattern anchored at the head of [s]: the sign is taken when
    digits follow it. *)
Definition matchHere (s : string) : option string :=
  match s with
  | String "-" r =>
      match matchUnsigned r with
      | Some t => Some (String "-" t)
      | None => None
      end
  | _ => matchUnsigned s
  end.

(** [s.match(re)] without the [g] flag: the leftmost match, [m[0]]. *)
Fixpoint matchNumber (s : string) : option string :=
  match matchHere s with
  | Some t => Some t
  | None =>
      match s with
      | EmptyString => None
      | String _ s' => matchNumber s'
      end
  end.

(** ** Objects *)

(** What a property read can yield in the pipeline: a string, or one of
    the functions and objects every object literal inherits from
    [Object.prototype]. *)
Inductive value :=
  | Str (s : string)
  | Inherited (name : string).

#[global] Instance value_eq_dec : EqDecision value.
Proof. solve_decision. Defined.

(** The property names of [Object.prototype]. *)
Definition objectPrototypeKeys : list string :=
  [ "constructor"; "__defineGetter__"; "__defineSetter__"; "hasOwnProperty";
    "__lookupGetter__"; "__lookupSetter__"; "isPrototypeOf";
    "propertyIsEnumerable"; "toString"; "valueOf"; "__proto__";
    "toLocaleString" ]%string.

(** [o[k]] on an object literal whose own properties are [own]: an own
    property first, then the prototype. *)
Definition getProperty (own : gmap string string) (k : string) : option value :=
  match own !! k with
  | Some v => Some (Str v)
  | None =>
      if bool_decide (k ∈ objectPrototypeKeys) then Some (Inherited k) else None
  end.

(** Truthiness of a property read: [undefined] and the empty string are
    falsy, functions and objects are truthy. *)
Definition truthy (v : option value) : option value :=
  match v with
  | Some (Str EmptyString) => None
  | _ => v
  end.

(** A detected column name under [!col] or [col ? .. : ..]: [null] and the
    empty name are falsy. *)
Definition detected (col : option string) : option string :=
  match col with
  | Some EmptyString => None
  | _ => col
  end.

(** [d3.range(a, b)]: the integers from [a] up to [b], [b] left out. *)
Definition d3_range (a b : Z) : list Z :=
  (fun i => (a + Z.of_nat i)%Z) <$> seq 0 (Z.to_nat (b - a)).

End JS.

Import JS.

(** A row of [d3.csv]: an object from column names to cells. *)
Abbreviation RawRow := (gmap string string).

(** ** The aggregates of the results pages *)

(** [pooled] and [byGenre] read three fields of a row, and call [d3.mean],
    which is not part of the repository.  The section takes the row type
    with its three fields and the mean as parameters. *)
Section Aggregates.
Context {R num : Type}.
Variable genre : R -> value.
Variable century : R -> Z.
Variable love : R -> num.
Variable d3_mean : list num -> option num.
Variable GENRES : list string.

Record bucket := Bucket { b_century : Z; b_mean : option num; b_n : nat }.

(** [{ century: c, mean: vals.length ? d3.mean(vals) : null, n: vals.length }] *)
Definition summary (c : Z) (vals : list num) : bucket :=
  {| b_century := c;
     b_mean := match vals with [] => None | _ => d3_mean vals end;
     b_n := length vals |}.

(** [centuries.map(..).filter((d) => d.mean != null)] *)
Definition pooled (centuries : list Z) (rows : list R) : list bucket :=
  filter (fun d => is_Some (b_mean d))
    ((fun c => summary c (love <$> filter (fun r => century r = c) rows))
       <$> centuries).

Definition genreSeries (centuries : list Z) (rows : list R) (g : string)
  : list bucket :=
  filter (fun d => is_Some (b_mean d))
    ((fun c =>
        summary c
          (love <$> filter (fun r => genre r = Str g /\ century r = c) rows))
       <$> centuries).

Definition byGenre (centuries : list Z) (rows : list R)
  : list (string * list bucket) :=
  (fun g => (g, genreSeries centuries rows g)) <$> GENRES.
End Aggregates.

Arguments bucket : clear implicits.
Arguments Bucket {num}.
Arguments b_century {num}.
Arguments b_mean {num}.
Arguments b_n {num}.

(** The sum of the values, added one by one in their order. *)
Definition sumQ (vals : list Q) : Q := foldl Qplus 0%Q vals.

(** Modelled from the spec: [d3.mean], a function of the d3 library, which
    is not part of the repository.  The spec takes it for the arithmetic
    mean of the values; there is none ([undefined]) for no value. *)
Definition mean_exact (vals : list Q) : option Q :=
  match vals with
  | [] => None
  | _ => Some (Qred (sumQ vals / inject_Z (Z.of_nat (length vals))))
  end.

(** [d3.mean] as d3-array computes it on the numbers of JavaScript: the
    values are added one by one in their order, every addition rounding to
    binary64, a NaN is skipped (the test [(value = +value) >= value]), and
    the sum is divided by the count. *)
Definition mean_double (vals : list float) : option float :=
  let counted := filter (fun v => PrimFloat.leb v v = true) vals in
  match counted with
  | [] => None
  | _ =>
      Some (PrimFloat.div (foldl PrimFloat.add 0%float counted)
              (PrimFloat.of_uint63 (Uint63.of_Z (Z.of_nat (length counted)))))
  end.

(** ** The DATA page script *)

Module Data.

Definition GENRES : list string := ["BIO"; "DEV"; "PHI"; "POE"; "RHE"; "THE"]%string.

(** [String(s || "").trim()] *)
Definition norm (s : option string) : string := trim (String_ s).

Definition coerceNumber (x : option string) : option Q :=
  finiteOrNull (StringToNumber (trim (replaceComma (String_ x)))).

Definition toCenturyFromYear (y : Q) : Z :=
  (Math_floor ((y - 1) / 100) + 1)%Z.

(** The test of [GENRES.find] in [inferGenreValue]: the value is the code,
    starts with it, or holds it after or before a space. *)
Definition matches (upper g : string) : bool :=
  String.eqb upper g
  || startsWith upper g
  || includes upper (String " " g)
  || includes upper (String.append g " ").

Definition inferGenreValue (row : RawRow) (genreCol : string) : option string :=
  let v := norm (row !! genreCol) in
  if String.eqb v EmptyString then None
  else
    let upper := toUpperCase v in
    let found := List.find (matches upper) GENRES in
    match found with
    | Some g => Some g
    | None => if bool_decide (upper ∈ GENRES) then Some upper else None
    end.

Definition inferCenturyValue (row : RawRow) (centuryCol : option string)
  : option Z :=
  match detected centuryCol with
  | None => None
  | Some col =>
      match coerceNumber (row !! col) with
      | None => None
      | Some v =>
          if Qeq_bool v 0 then None
          else if Qle_bool 2 v && Qle_bool v 20 then Some (Math_round v)
          else if Qle_bool 50 v && Qle_bool v 2000 then
            let c := toCenturyFromYear v in
            if ((1 <=? c) && (c <=? 30))%Z then Some c else None
          else None
      end
  end.

Record row := Row { genre : string; century : Z }.

Section Page.
Variable genreCol : string.
Variables centuryCol yearCol : option string.

(** One turn of the loop over the raw rows: [None] is [continue]. *)
Definition buildRow (r : RawRow) : option row :=
  match inferGenreValue r genreCol with
  | None => None
  | Some g =>
      let c :=
        match inferCenturyValue r centuryCol, detected yearCol with
        | None, Some ycol =>
            match coerceNumber (r !! ycol) with
            | Some y =>
                if Qeq_bool y 0 then None
                else
                  let cy := toCenturyFromYear y in
                  if (cy =? 0)%Z then None else Some cy
            | None => None
            end
        | c, _ => c
        end in
      match c with
      | None => None
      | Some c =>
          if ((c <? 2) || (15 <? c))%Z then None
          else Some {| genre := g; century := c |}
      end
  end.

Definition rows (raw : list RawRow) : list row := omap buildRow raw.

(** One more text of genre [g] in a table of counts:
    [m.set(g, (m.get(g) || 0) + 1)] and [obj[g] += 1]. *)
Definition bump (g : string) (m : gmap string nat) : gmap string nat :=
  <[g := S (default O (m !! g))]> m.

Definition zeroCounts : gmap string nat :=
  list_to_map ((fun g => (g, O)) <$> GENRES).

(** [countsByGenre]: a [Map] from every genre to 0, then one more per row. *)
Definition countsByGenre (rs : list row) : gmap string nat :=
  foldl (fun m r => bump (genre r) m) zeroCounts rs.

Definition centuries : list Z := d3_range 2 16.

(** [dataByCentury]: one object per century of the window, a count of 0
    for every genre, then one more in the century and genre of each row;
    [idx] maps a century to its position. *)
Definition idx : gmap Z nat :=
  list_to_map (zip centuries (seq 0 (length centuries))).

Definition addRow (data : list (Z * gmap string nat)) (r : row)
  : list (Z * gmap string nat) :=
  match idx !! century r with
  | None => data
  | Some i => alter (fun '(c, obj) => (c, bump (genre r) obj)) i data
  end.

Definition dataByCentury (rs : list row) : list (Z * gmap string nat) :=
  foldl addRow ((fun c => (c, zeroCounts)) <$> centuries) rs.

Inductive outcome :=
  | NotEnoughPoints
  | Charts (series : list (Z * gmap string nat)) (counts : gmap string nat).

(** The script after the columns are detected: [rows.length < 10] shows
    the message and returns. *)
Definition page (raw : list RawRow) : outcome :=
  let rs := rows raw in
  if (length rs <? 10)%nat then NotEnoughPoints
  else Charts (dataByCentury rs) (countsByGenre rs).
End Page.

End Data.

(** ** The results page script (continuous scatter) *)

Module Results.

Definition GENRES : list string := ["BIO"; "DEV"; "PHI"; "POE"; "RHE"; "THE"]%string.

Definition GENRE_MAP : gmap string string :=
  {[ "b" := "BIO"; "d" := "DEV"; "n" := "PHI";
     "p" := "POE"; "r" := "RHE"; "k" := "THE" ]}%string.

(** [String(s ?? "").trim()] *)
Definition norm (s : option string) : string := trim (String_ s).

Definition coerceNumber (x : option string) : option Q :=
  finiteOrNull (StringToNumber (trim (replaceComma (String_ x)))).

(** *** The hash *)

Definition ToUint32 (x : Z) : Z := (x mod 2 ^ 32)%Z.

Definition ToInt32 (x : Z) : Z :=
  let m := (x mod 2 ^ 32)%Z in
  if (m <? 2 ^ 31)%Z then m else (m - 2 ^ 32)%Z.

(** [a ^ b] and [Math.imul(a, b)]: both operands go through [ToInt32], and
    the result is a signed 32-bit integer. *)
Definition xor (a b : Z) : Z := ToInt32 (Z.lxor (ToInt32 a) (ToInt32 b)).
Definition imul (a b : Z) : Z := ToInt32 (ToUint32 a * ToUint32 b)%Z.

(** The loop of [hashToUnit] over the code units of the string. *)
Fixpoint hashLoop (h : Z) (units : list Z) : Z :=
  match units with
  | [] => h
  | c :: rest => hashLoop (imul (xor h c) 16777619%Z) rest
  end.

(** [(h >>> 0) / 4294967296] *)
Definition hashUnits (units : list Z) : Q :=
  ToUint32 (hashLoop 2166136261%Z units) # 4294967296.

Definition hashToUnit (str : string) : Q := hashUnits (charCodes str).

(** *** Genre and century *)

Definition normalizeGenre (raw : option string) : option value :=
  match raw with
  | None | Some EmptyString => None
  | Some _ =>
      let s := norm raw in
      let up := toUpperCase s in
      if bool_decide (up ∈ GENRES) then Some (Str up)
      else
        let k := toLowerCase s in
        match truthy (getProperty GENRE_MAP k) with
        | Some v => Some v
        | None => Str <$> List.find (fun g => startsWith up g) GENRES
        end
  end.

Definition inferCenturyFromDate (v : option string) : option Z :=
  match coerceNumber v with
  | None => None
  | Some n =>
      if Qle_bool 1 n && Qle_bool n 30 then Some (Math_round n)
      else if Qle_bool 50 n && Qle_bool n 2000 then
        let c := (Math_floor ((n - 1) / 100) + 1)%Z in
        if ((1 <=? c) && (c <=? 30))%Z then Some c else None
      else None
  end.

(** *** Rows *)

Record row {num : Type} := Row {
  genre : value;
  century : Z;
  year : Z;
  love : num;
  title : string;
  author : string;
  uri : string
}.
Arguments row : clear implicits.

Definition loveClamped (love : Q) : Q := Math_max 0 (Math_min 2 love).

Definition yearApprox (century : Z) (seed : string) : Z :=
  let baseYear := ((century - 1) * 100)%Z in
  let jitter := Math_floor (hashToUnit seed * 100) in
  (baseYear + jitter + 1)%Z.

Definition MIN_C : Z := 2%Z.
Definition MAX_C : Z := 15%Z.
Definition centuries : list Z := d3_range MIN_C (MAX_C + 1).

Section Page.
Variables genreCol dateCol loveCol : string.
Variables titleCol authorCol uriCol : option string.

(** [col ? norm(r[col]) : ""] *)
Definition field (col : option string) (r : RawRow) : string :=
  match detected col with
  | Some c => norm (r !! c)
  | None => EmptyString
  end.

(** One turn of the loop over the raw rows: [None] is [continue]. *)
Definition buildRow (r : RawRow) : option (row Q) :=
  let genre :=
    match normalizeGenre (r !! genreCol) with
    | Some g => Some g
    | None => normalizeGenre (r !! "GenreLabel"%string)
    end in
  match genre with
  | None => None
  | Some genre =>
      match inferCenturyFromDate (r !! dateCol) with
      | None => None
      | Some century =>
          if (century =? 0)%Z then None
          else
            match coerceNumber (r !! loveCol) with
            | None => None
            | Some love =>
                let title := field titleCol r in
                let author := field authorCol r in
                let uri := field uriCol r in
                Some {| genre := genre;
                        century := century;
                        year := yearApprox century (orElse uri (orElse title author));
                        love := loveClamped love;
                        title := title;
                        author := author;
                        uri := uri |}
            end
      end
  end.

Definition rows (raw : list RawRow) : list (row Q) := omap buildRow raw.

Variable d3_mean : list Q -> option Q.

Inductive outcome :=
  | TooFewRows (count : nat)
  | Rendered (rows : list (row Q))
             (pooled : list (bucket Q))
             (byGenre : list (string * list (bucket Q))).

(** The script after the columns are detected: [rows.length < 20] shows
    the error and returns; otherwise the rows and the aggregates go to
    the charts. *)
Definition page (raw : list RawRow) : outcome :=
  let rs := rows raw in
  if (length rs <? 20)%nat then TooFewRows (length rs)
  else Rendered rs
         (pooled century love d3_mean centuries rs)
         (byGenre genre century love d3_mean GENRES centuries rs).
End Page.

End Results.

(** ** The results page script (token-extracting coercion, window 1..15) *)

Module Results2.

Definition GENRES : list string := ["BIO"; "DEV"; "PHI"; "POE"; "RHE"; "THE"]%string.

Definition GENRE_MAP : gmap string string :=
  {[ "b" := "BIO"; "d" := "DEV"; "n" := "PHI";
     "p" := "POE"; "r" := "RHE"; "k" := "THE" ]}%string.

(** The file-level [normalizeGenre]: the six codes, else the letter map. *)
Definition normalizeGenre (raw : option string) : option value :=
  match raw with
  | None | Some EmptyString => None
  | Some raw =>
      let s := trim raw in
      if bool_decide (toUpperCase s ∈ GENRES) then Some (Str (toUpperCase s))
      else getProperty GENRE_MAP (toLowerCase s)
  end.

Definition norm (s : option string) : string := trim (String_ s).

(** [String(x ?? "").replace(",", ".").match(/-?\d+(\.\d+)?/)], then
    [+m[0]], or [NaN] when there is no match. *)
Definition coerceNumber (x : option string) : option Q :=
  match matchNumber (replaceComma (String_ x)) with
  | Some m0 => finiteOrNull (StringToNumber m0)
  | None => None
  end.

Definition toCenturyFromYear (y : Q) : Z :=
  (Math_floor ((y - 1) / 100) + 1)%Z.

Definition inferCenturyFromValue (v : option Q) : option Z :=
  match v with
  | None => None
  | Some v =>
      if Qle_bool 1 v && Qle_bool v 30 then Some (Math_round v)
      else if Qle_bool 50 v && Qle_bool v 2000 then
        let c := toCenturyFromYear v in
        if ((1 <=? c) && (c <=? 30))%Z then Some c else None
      else None
  end.

Definition inferGenre (row : RawRow) (genreCol : string) : option value :=
  let v := norm (row !! genreCol) in
  if String.eqb v EmptyString then None
  else
    let u := toUpperCase v in
    if bool_decide (u ∈ GENRES) then Some (Str u)
    else
      match truthy (normalizeGenre (Some v)) with
      | Some mapped => Some mapped
      | None => Str <$> List.find (fun g => includes u g) GENRES
      end.

Record row := Row {
  genre : value;
  century : Z;
  love : Q;
  title : string;
  author : string;
  uri : string
}.

Definition loveClamped (love : Q) : Q := Math_max 0 (Math_min 2 love).

Definition centuries : list Z := d3_range 1 16.

Section Page.
Variables genreCol dateCol loveCol : string.
Variables titleCol authorCol uriCol : option string.

Definition field (col : option string) (r : RawRow) : string :=
  match detected col with
  | Some c => norm (r !! c)
  | None => EmptyString
  end.

(** One turn of the loop over the raw rows: [None] is [continue]. *)
Definition buildRow (r : RawRow) : option row :=
  match inferGenre r genreCol with
  | None => None
  | Some genre =>
      match inferCenturyFromValue (coerceNumber (r !! dateCol)) with
      | None => None
      | Some century =>
          if (century =? 0)%Z then None
          else if ((century <? 1) || (15 <? century))%Z then None
          else
            match coerceNumber (r !! loveCol) with
            | None => None
            | Some love =>
                Some {| genre := genre;
                        century := century;
                        love := loveClamped love;
                        title := field titleCol r;
                        author := field authorCol r;
                        uri := field uriCol r |}
            end
      end
  end.

Definition rows (raw : list RawRow) : list row := omap buildRow raw.

Variable d3_mean : list Q -> option Q.

Inductive outcome :=
  | TooFewRows (count : nat)
  | Rendered (rows : list row)
             (pooled : list (bucket Q))
             (byGenre : list (string * list (bucket Q))).

Definition page (raw : list RawRow) : outcome :=
  let rs := rows raw in
  if (length rs <? 20)%nat then TooFewRows (length rs)
  else Rendered rs
         (pooled century love d3_mean centuries rs)
         (byGenre genre century love d3_mean GENRES centuries rs).
End Page.

End Results2.

(** ** Notions used to state the properties *)

(** [c] is the nearest integer to [v], the upper one of two nearest. *)
Definition nearestInteger (v : Q) (c : Z) : Prop :=
  (inject_Z c - (1 # 2) <= v < inject_Z c + (1 # 2))%Q.

(** The rule of era resolution with the direct range [lo .. hi]: a value
    of the range is rounded, a year of [50 .. 2000] is converted, and
    anything else is absent. *)
Definition eraRule (lo hi : Q) (v : Q) (result : option Z) : Prop :=
  ((lo <= v <= hi)%Q -> result = Some (Math_round v))
  /\ ((50 <= v <= 2000)%Q ->
      result = Some (Math_floor ((v - 1) / 100) + 1)%Z
      /\ (1 <= Math_floor ((v - 1) / 100) + 1 <= 30)%Z)
  /\ (~ (lo <= v <= hi)%Q -> ~ (50 <= v <= 2000)%Q -> result = None).

(** The 32-bit FNV-1a hash as it is written on unsigned words, here over
    code units: offset basis 2166136261, prime 16777619, and for every
    unit an exclusive or followed by a multiplication modulo [2^32]. *)
Fixpoint fnv1a32_from (h : Z) (units : list Z) : Z :=
  match units with
  | [] => h
  | c :: rest => fnv1a32_from ((Z.lxor h c * 16777619) mod 2 ^ 32)%Z rest
  end.

Definition fnv1a32 (units : list Z) : Z := fnv1a32_from 2166136261%Z units.

(** Code units are 16-bit. *)
Definition codeUnits (units : list Z) : Prop :=
  Forall (fun c => (0 <= c < 65536)%Z) units.

(** A dataset of nine usable rows for the DATA page. *)
Definition nineRows : list RawRow :=
  replicate 9 {[ "genre" := "POE"; "century" := "3" ]}%string.

(** [series] holds one bucket for every century of [lo .. hi] that has a
    value, and no other; the bucket counts the values of its century and
    carries their arithmetic mean.  [vals c] are the scores of the records
    that fall in century [c]. *)
Definition seriesOf (lo hi : Z) (vals : Z -> list Q) (series : list (bucket Q))
  : Prop :=
  NoDup (b_century <$> series)
  /\ (forall c : Z,
         c ∈ (b_century <$> series) <-> (lo <= c <= hi)%Z /\ vals c <> [])
  /\ (forall b : bucket Q,
         b ∈ series ->
         b_n b = length (vals (b_century b))
         /\ (0 < b_n b)%nat
         /\ exists m : Q,
              b_mean b = Some m
              /\ (m == sumQ (vals (b_century b)) / inject_Z (Z.of_nat (b_n b)))%Q).

(** The records [(BIO,3,1.0)], [(BIO,3,0.5)], [(DEV,3,2.0)], with exact and
    with binary64 scores. *)
Definition record {num : Type} (g : string) (c : Z) (l : num) : Results.row num :=
  {| Results.genre := Str g;
     Results.century := c;
     Results.year := Results.yearApprox c EmptyString;
     Results.love := l;
     Results.title := EmptyString;
     Results.author := EmptyString;
     Results.uri := EmptyString |}.

Definition threeRecords : list (Results.row Q) :=
  [ record "BIO" 3 1%Q; record "BIO" 3 0.5%Q; record "DEV" 3 2%Q ].

Definition threeRecordsDouble : list (Results.row float) :=
  [ record "BIO" 3 1%float; record "BIO" 3 0.5%float; record "DEV" 3 2%float ].

(** Three records of one century whose scores are the binary64 values
    nearest to 0.1, 0.2 and 0.3. *)
Definition tenths : list (Results.row float) :=
  [ record "POE" 3 0.1%float; record "POE" 3 0.2%float; record "POE" 3 0.3%float ].

(** Twenty rows of the first century. *)
Definition firstCenturyRows : list RawRow :=
  replicate 20 {[ "GenreCode" := "p"; "date" := "1"; "BoC_final_0_2" := "1" ]}%string.

(** *** Shapes of strings *)

Fixpoint allChars (p : ascii -> bool) (s : string) : bool :=
  match s with
  | EmptyString => true
  | String c s' => p c && allChars p s'
  end.

Definition digitFree : string -> bool := allChars (fun c => negb (isDigit c)).
Definition digits : string -> bool := allChars isDigit.
Definition commaFree : string -> bool := allChars (fun c => negb (Ascii.eqb c ",")).

Definition startsWithDigit (s : string) : bool :=
  match s with
  | String c _ => isDigit c
  | EmptyString => false
  end.

(** A point followed by a digit. *)
Definition startsWithFraction (s : string) : bool :=
  match s with
  | String "." r => startsWithDigit r
  | _ => false
  end.

Fixpoint endsWithMinus (s : string) : bool :=
  match s with
  | EmptyString => false
  | String c EmptyString => Ascii.eqb c "-"
  | String _ s' => endsWithMinus s'
  end.

(** [s] is [pre ++ sign ++ d ++ frac ++ post] where [sign ++ d ++ frac] is
    the first numeric token of [s]: no digit comes before it, the sign is a
    minus or nothing (and then no minus stands right before the digits),
    [d] is a run of digits, [frac] is a point with a run of digits or
    nothing, and the token extends no further. *)
Definition firstToken (s pre sign d frac post : string) : Prop :=
  s = pre +:+ sign +:+ d +:+ frac +:+ post
  /\ digitFree pre = true
  /\ (sign = "-"%string \/ sign = EmptyString /\ endsWithMinus pre = false)
  /\ digits d = true /\ d <> EmptyString
  /\ (frac = EmptyString /\ startsWithFraction post = false
      \/ exists f, frac = String "." f /\ digits f = true /\ f <> EmptyString)
  /\ startsWithDigit post = false.

(** [x] is the first element of [l] that passes the test [f]. *)
Definition firstWith {A : Type} (f : A -> bool) (l : list A) (x : A) : Prop :=
  exists before after : list A,
    l = before ++ x :: after
    /\ f x = true
    /\ Forall (fun y => f y = false) before.

(** The rational a finite binary64 value denotes. *)
Definition doubleValue (f : float) : option Q :=
  match Prim2SF f with
  | S754_zero _ => Some 0%Q
  | S754_finite s m e =>
      Some (Qred ((if s then -1 else 1) * inject_Z (Zpos m) * Qpower 2 e)%Q)
  | _ => None
  end.

From Stdlib Require Import Sorted.
From stdpp Require sorting.

(** * The rest of the page scripts *)

(** ** The column resolver *)

Module Columns.

(** [norm(s).toLowerCase()] on a header. *)
Definition lower (s : string) : string := toLowerCase (trim s).

(** [columns.map((c) => ({ raw: c, low: lower(c) }))] *)
Definition cols (columns : list string) : list (string * string) :=
  (fun c => (c, lower c)) <$> columns.

Fixpoint findColumn (columns candidates : list string) : option string :=
  match candidates with
  | [] => None
  | cand :: rest =>
      match List.find (fun c => String.eqb (snd c) (toLowerCase cand))
                      (cols columns) with
      | Some hit => Some (fst hit)
      | None => findColumn columns rest
      end
  end.

Fixpoint findColumnFuzzy (columns includesAny : list string) : option string :=
  match includesAny with
  | [] => None
  | inc :: rest =>
      match List.find (fun c => includes (snd c) (toLowerCase inc))
                      (cols columns) with
      | Some hit => Some (fst hit)
      | None => findColumnFuzzy columns rest
      end
  end.

(** [a || b] on column names: [null] and the empty name are falsy. *)
Definition orColumn (a b : option string) : option string :=
  match detected a with
  | Some x => Some x
  | None => b
  end.

(** [findColumn(columns, exact) || findColumnFuzzy(columns, fuzzy)] *)
Definition resolve (columns exact fuzzy : list string) : option string :=
  orColumn (findColumn columns exact) (findColumnFuzzy columns fuzzy).

End Columns.

(** ** The DATA page script, from the header row on *)

Module DataScript.

Definition genreCol (columns : list string) : option string :=
  Columns.resolve columns
    [ "genre"; "Genre"; "GenreLabel"; "genrelabel"; "GenreCode"; "genre_code";
      "genre_abbr" ]%string
    [ "genre" ]%string.

Definition centuryCol (columns : list string) : option string :=
  Columns.resolve columns
    [ "century"; "Century"; "century_ah"; "Century_AH"; "ah_century";
      "centuryAH"; "century_hijri" ]%string
    [ "century" ]%string.

Definition yearCol (columns : list string) : option string :=
  Columns.resolve columns
    [ "year"; "Year"; "date"; "Date"; "year_ah"; "ah_year"; "hijri_year" ]%string
    [ "year"; "date"; "hijri"; "ah" ]%string.

Inductive outcome :=
  | NoGenreColumn
  | Built (page : Data.outcome).

(** [if (!genreCol)] shows the message and returns; else the rows are
    built. *)
Definition script (columns : list string) (raw : list RawRow) : outcome :=
  match detected (genreCol columns) with
  | None => NoGenreColumn
  | Some g => Built (Data.page g (centuryCol columns) (yearCol columns) raw)
  end.

(** *** The pie *)

(** [GENRES.map((k) => ({ key: k, value: countsMap.get(k) || 0 }))
      .filter((d) => d.value > 0)] *)
Definition entries (countsMap : gmap string nat) : list (string * nat) :=
  filter (fun d => (0 < snd d)%nat)
    ((fun k => (k, default O (countsMap !! k))) <$> Data.GENRES).

(** [d3.sum(entries, (d) => d.value) || 1]; the values are counts, whose
    sum is exact. *)
Definition total (es : list (string * nat)) : nat :=
  match sum_list (snd <$> es) with
  | O => 1%nat
  | s => s
  end.

(** *** The legend of the line chart *)

(** [Object.fromEntries(genres.map((gg) => [gg, true]))] *)
Definition allVisible (genres : list string) : gmap string bool :=
  list_to_map ((fun gg => (gg, true)) <$> genres).

(** The truth of [visible[k]]; a missing key is [undefined]. *)
Definition isVisible (visible : gmap string bool) (k : string) : bool :=
  default false (visible !! k).

(** The click handler of the legend row of [k]:
    [visible[k] = !visible[k]]. *)
Definition click (k : string) (visible : gmap string bool) : gmap string bool :=
  <[k := negb (isVisible visible k)]> visible.

(** [genres.every((gg) => (gg === k ? visible[gg] : !visible[gg]))] *)
Definition currentlySolo (genres : list string) (k : string)
    (visible : gmap string bool) : bool :=
  forallb
    (fun gg =>
       if String.eqb gg k then isVisible visible gg
       else negb (isVisible visible gg))
    genres.

(** The double-click handler of the legend row of [k]. *)
Definition dblclick (genres : list string) (k : string)
    (visible : gmap string bool) : gmap string bool :=
  if currentlySolo genres k visible
  then foldl (fun m gg => <[gg := true]> m) visible genres
  else foldl (fun m gg => <[gg := String.eqb gg k]> m) visible genres.

(** *** The ticks of the logarithmic scale *)

Definition tickBase : list Z :=
  [ 1; 2; 5; 10; 20; 50; 100; 200; 500; 1000; 2000; 5000 ]%Z.

(** [base.filter((t) => t <= maxVal)] *)
Definition niceLogTicks (maxVal : Z) : list Z :=
  filter (fun t => (t <= maxVal)%Z) tickBase.

(** [d3.max(series, (d) => d3.max(genres, (k) => d[k])) || 1]: the
    greatest count of the series, and 1 when there is no count or when it
    is 0. *)
Definition maxVal (series : list (Z * gmap string nat)) (genres : list string)
  : nat :=
  match max_list
          ((fun d => max_list ((fun k => default O (snd d !! k)) <$> genres))
             <$> series) with
  | O => 1%nat
  | m => m
  end.

End DataScript.

(** ** The results page script, from the header row on *)

Module ResultsScript.

Definition genreCol (columns : list string) : option string :=
  Columns.resolve columns
    [ "GenreCode"; "genrecode"; "genre_code"; "genre" ]%string
    [ "genre" ]%string.

Definition dateCol (columns : list string) : option string :=
  Columns.resolve columns
    [ "date"; "Date"; "century"; "Century"; "century_ah" ]%string
    [ "date"; "century" ]%string.

Definition loveCol (columns : list string) : option string :=
  Columns.resolve columns
    [ "BoC_final_0_2"; "boc_final_0_2" ]%string
    [ "boc_final_0_2"; "boc_final" ]%string.

Definition titleCol (columns : list string) : option string :=
  Columns.resolve columns [ "title_lat"; "title"; "Title" ]%string [ "title" ]%string.

Definition authorCol (columns : list string) : option string :=
  Columns.resolve columns [ "author_lat"; "author"; "Author" ]%string [ "author" ]%string.

Definition uriCol (columns : list string) : option string :=
  Columns.resolve columns
    [ "version_uri"; "uri"; "URI"; "id"; "ID" ]%string
    [ "uri"; "id" ]%string.

Inductive outcome :=
  | MissingColumns (genre love date : option string)
  | Parsed (page : Results.outcome).

(** [if (!genreCol || !loveCol || !dateCol)] shows the error and returns;
    else the rows are built. *)
Definition script (d3_mean : list Q -> option Q) (columns : list string)
    (raw : list RawRow) : outcome :=
  match detected (genreCol columns), detected (loveCol columns),
        detected (dateCol columns) with
  | Some g, Some l, Some d =>
      Parsed (Results.page g d l (titleCol columns) (authorCol columns)
                (uriCol columns) d3_mean raw)
  | _, _, _ =>
      MissingColumns (detected (genreCol columns)) (detected (loveCol columns))
        (detected (dateCol columns))
  end.

(** *** The scatter and the spotlights *)

Definition SCATTER_X_MAX : Z := 1500%Z.

(** [rowsAll.filter(d => Number.isFinite(d.year) && d.year >= 1 && d.year <= 1500)]
    in [drawScatter]; a year is always finite. *)
Definition scatterRows (rowsAll : list (Results.row Q)) : list (Results.row Q) :=
  filter (fun d => (1 <= Results.year d)%Z /\ (Results.year d <= 1500)%Z) rowsAll.

(** [rowsAll.filter((d) => d.year >= 1 && d.year <= xMaxFixed)] in
    [renderSpotlights]. *)
Definition spotlightRows (xMaxFixed : Z) (rowsAll : list (Results.row Q))
  : list (Results.row Q) :=
  filter (fun d => (1 <= Results.year d)%Z /\ (Results.year d <= xMaxFixed)%Z)
         rowsAll.

(** *** The legend of the scatter *)

(** [if (hidden.has(genre)) hidden.delete(genre); else hidden.add(genre);] *)
Definition toggle (genre : string) (hidden : gset string) : gset string :=
  if decide (genre ∈ hidden) then hidden ∖ {[ genre ]} else hidden ∪ {[ genre ]}.

(** [hidden.has(d.genre)]: the set holds genre codes only. *)
Definition isHidden (hidden : gset string) (genre : value) : Prop :=
  match genre with
  | Str g => g ∈ hidden
  | Inherited _ => False
  end.

#[global] Instance isHidden_dec (hidden : gset string) (genre : value) :
  Decision (isHidden hidden genre).
Proof. destruct genre; cbn; apply _. Defined.

(** The dots that are displayed:
    [dots.attr("display", d => (hidden.has(d.genre) ? "none" : null))]. *)
Definition displayed {num : Type} (hidden : gset string)
    (rows : list (Results.row num)) : list (Results.row num) :=
  filter (fun d => ~ isHidden hidden (Results.genre d)) rows.

End ResultsScript.

(** ** The results page script with the window 1..15, from the header row on *)

Module Results2Script.

Definition genreCodeCol (columns : list string) : option string :=
  Columns.resolve columns [ "GenreCode" ]%string [ "genrecode" ]%string.

Definition genreLabelCol (columns : list string) : option string :=
  Columns.resolve columns [ "GenreLabel" ]%string [ "genrelabel" ]%string.

Definition dateCol (columns : list string) : option string :=
  Columns.resolve columns [ "date"; "Date" ]%string [ "date" ]%string.

Definition loveCol (columns : list string) : option string :=
  Columns.orColumn
    (Columns.orColumn
       (Columns.findColumn columns [ "BoC_final_0_2" ]%string)
       (Columns.findColumn columns
          [ "boc_final_0_2"; "loveindex"; "LoveIndex"; "love_index" ]%string))
    (Columns.findColumnFuzzy columns [ "boc_final"; "love"; "index" ]%string).

Definition titleCol (columns : list string) : option string :=
  Columns.resolve columns
    [ "title_lat"; "title"; "Title"; "book_title"; "work_title" ]%string
    [ "title" ]%string.

Definition authorCol (columns : list string) : option string :=
  Columns.resolve columns
    [ "author_lat"; "author"; "Author"; "author_name" ]%string
    [ "author" ]%string.

Definition uriCol (columns : list string) : option string :=
  Columns.resolve columns
    [ "version_uri"; "uri"; "URI"; "work_id"; "id"; "ID" ]%string
    [ "version_uri"; "uri"; "id" ]%string.

(** [genreCodeCol || genreLabelCol] *)
Definition genreCol (columns : list string) : option string :=
  Columns.orColumn (genreCodeCol columns) (genreLabelCol columns).

Inductive outcome :=
  | MissingColumns (genre date love : option string)
  | Parsed (page : Results2.outcome).

Definition script (d3_mean : list Q -> option Q) (columns : list string)
    (raw : list RawRow) : outcome :=
  match detected (genreCol columns), detected (loveCol columns),
        detected (dateCol columns) with
  | Some g, Some l, Some d =>
      Parsed (Results2.page g d l (titleCol columns) (authorCol columns)
                (uriCol columns) d3_mean raw)
  | _, _, _ =>
      MissingColumns (detected (genreCol columns)) (detected (dateCol columns))
        (detected (loveCol columns))
  end.

End Results2Script.

(** ** The methods page: the accordion *)

Module Methods.

(** The [toggle] listener of panel [i], on the [open] flags of the panels:
    when the panel is open, every other panel is closed. *)
Definition onToggle (i : nat) (details : list bool) : list bool :=
  match details !! i with
  | Some true => imap (fun j o => if decide (j = i) then o else false) details
  | _ => details
  end.

End Methods.

(** ** Sorting the spotlights *)

Module Spotlights.

(** [Array.prototype.sort] with a comparator is a stable sort: the result
    is in the order of the comparator, and rows that compare equal keep
    their order.  [before x y] says that [cmp(x, y) <= 0]. *)
Section Sort.
Context {A : Type}.
Variable before : A -> A -> bool.

Fixpoint insert (x : A) (l : list A) : list A :=
  match l with
  | [] => [x]
  | y :: l' => if before x y then x :: l else y :: insert x l'
  end.

Fixpoint sort (l : list A) : list A :=
  match l with
  | [] => []
  | x :: l' => insert x (sort l')
  end.
End Sort.

Section Lists.
Context {A : Type}.
Variable love : A -> Q.

(** The comparator [(a, b) => b.love - a.love] is not positive when
    [b.love <= a.love]. *)
Definition byLoveDescending (a b : A) : bool := Qle_bool (love b) (love a).

(** [[...rows].sort((a, b) => b.love - a.love)] *)
Definition sorted (rows : list A) : list A := sort byLoveDescending rows.

(** [sorted.slice(0, 5)] *)
Definition top (rows : list A) : list A := take 5 (sorted rows).

(** [sorted.slice(-5).reverse()] *)
Definition bottom (rows : list A) : list A :=
  reverse (drop (length (sorted rows) - 5) (sorted rows)).
End Lists.

End Spotlights.

(** ** Notions used to state the further properties *)

(** The number of rows whose key is [k]. *)
Definition countOf {A K : Type} `{EqDecision K} (key : A -> K) (k : K)
    (rows : list A) : nat :=
  length (filter (fun r => key r = k) rows).

(** White space only. *)
Definition blank : string -> bool := allChars isWhiteSpace.

(** No white space at either end. *)
Definition trimmed (s : string) : Prop := trim s = s.

(** [h] is the header a resolver returns, where [test low cand] is its
    test of a normalised header against a candidate: the candidates are
    tried in their order, and the first one that some header passes
    decides; of the headers that pass it, the first one is returned. *)
Definition resolved (test : string -> string -> bool)
    (columns candidates : list string) (h : string) : Prop :=
  exists cand : string,
    firstWith (fun cand => existsb (fun h => test (Columns.lower h) cand) columns)
              candidates cand
    /\ firstWith (fun h => test (Columns.lower h) cand) columns h.

(** Some header contains, once normalised, one of the strings. *)
Definition mentions (columns incs : list string) : bool :=
  existsb
    (fun h => existsb (fun inc => includes (Columns.lower h) (toLowerCase inc)) incs)
    columns.

(** A row with a genre and a century whose love index is a space. *)
Definition blankLoveRow : RawRow :=
  {[ "GenreCode" := "p"; "date" := "3"; "BoC_final_0_2" := " " ]}%string.

(** The count that a series shows at century [c]: 0 when it has no bucket
    there. *)
Definition nAt {num : Type} (series : list (bucket num)) (c : Z) : nat :=
  sum_list (b_n <$> filter (fun d => b_century d = c) series).

(** The means of the buckets of a series lie in [lo, hi]. *)
Definition meansWithin (lo hi : Q) (series : list (bucket Q)) : Prop :=
  Forall (fun b => forall m, b_mean b = Some m -> (lo <= m <= hi)%Q) series.

(** A row of the DATA page with a year and no century. *)
Definition yearOnlyRow : RawRow := {[ "genre" := "POE"; "year" := "150" ]}%string.


(** * Properties *)

(** ** Conversion to binary64 *)

(** [roundToDouble] agrees with the binary64 literals of the kernel. *)
Example roundToDouble_literals :
  Some (roundToDouble 0.1) = Finite <$> doubleValue 0.1%float
  /\ Some (roundToDouble 3.7) = Finite <$> doubleValue 3.7%float
  /\ Some (roundToDouble 1.2) = Finite <$> doubleValue 1.2%float
  /\ Some (roundToDouble (1 # 3)) = Finite <$> doubleValue (1 / 3)%float
  /\ Some (roundToDouble (1 * Qpower 10 (-310))) = Finite <$> doubleValue 1e-310%float
  /\ roundToDouble (1 * Qpower 10 400) = Infinite false.
Proof. repeat split; vm_compute; reflexivity. Qed.

Example StringToNumber_literals :
  StringToNumber "400" = Finite 400
  /\ StringToNumber " 400 " = Finite 400
  /\ StringToNumber "" = Finite 0
  /\ StringToNumber "400 AH" = NaN
  /\ StringToNumber "-.5e1" = Finite (-5)
  /\ StringToNumber "0x1F" = Finite 31
  /\ StringToNumber "1e400" = Infinite false
  /\ StringToNumber "0.99999999999999999" = Finite 1.
Proof. repeat split; vm_compute; reflexivity. Qed.

(** The conversion of a year is exact in binary64 at the century
    boundaries: for every century [k] of 1 .. 20, the year [100 k + 1]
    gives [(y - 1) / 100 = k], and the binary64 value just below it gives a
    quotient below [k], so that [Math.floor] yields the same century on the
    binary64 quotient as on the exact one. *)
Example year_boundaries_binary64 :
  forallb
    (fun k =>
       let y := PrimFloat.add (PrimFloat.mul 100 k) 1 in
       PrimFloat.eqb (PrimFloat.div (PrimFloat.sub y 1) 100) k
       && PrimFloat.ltb
            (PrimFloat.div (PrimFloat.sub (PrimFloat.next_down y) 1) 100) k
       && PrimFloat.leb (PrimFloat.sub k 1)
            (PrimFloat.div (PrimFloat.sub (PrimFloat.next_down y) 1) 100))
    [1; 2; 3; 4; 5; 6; 7; 8; 9; 10; 11; 12; 13; 14; 15; 16; 17; 18; 19; 20]%float
  = true.
Proof. vm_compute. reflexivity. Qed.



(** ** Era resolution *)

Section Era.
Local Open Scope Q_scope.

Lemma between_true (a b v : Q) :
  Qle_bool a v && Qle_bool v b = true <-> a <= v <= b.
Proof. rewrite andb_true_iff, !Qle_bool_iff. tauto. Qed.

Lemma between_false (a b v : Q) :
  Qle_bool a v && Qle_bool v b = false <-> ~ (a <= v <= b).
Proof. rewrite <- between_true. destruct (Qle_bool a v && Qle_bool v b); intuition congruence. Qed.

(** [Math.round] gives the nearest integer, and the upper one of two
    nearest. *)
Lemma Math_round_nearest (v : Q) :
  inject_Z (Math_round v) - (1 # 2) <= v < inject_Z (Math_round v) + (1 # 2).
Proof.
  unfold Math_round.
  pose proof (Qfloor_le (v + (1 # 2))) as Hl.
  pose proof (Qlt_floor (v + (1 # 2))) as Hu.
  rewrite inject_Z_plus in Hu. change (inject_Z 1) with 1 in Hu. split; lra.
Qed.

Lemma Math_round_unique (v : Q) (c : Z) :
  inject_Z c - (1 # 2) <= v < inject_Z c + (1 # 2) -> Math_round v = c.
Proof.
  intros [Hl Hu]. unfold Math_round.
  assert (Hc : (c <= Qfloor (v + (1 # 2)))%Z).
  { rewrite <- (Qfloor_Z c). apply Qfloor_resp_le. lra. }
  assert (Hd : (Qfloor (v + (1 # 2)) < c + 1)%Z).
  { apply Z.lt_nge. intros Hge.
    assert (inject_Z (c + 1) <= v + (1 # 2)).
    { eapply Qle_trans; [ | apply Qfloor_le ]. rewrite <- Zle_Qle. exact Hge. }
    rewrite inject_Z_plus in H. change (inject_Z 1) with 1 in H. lra. }
  lia.
Qed.

Lemma Math_round_integer (k : Z) : Math_round (inject_Z k) = k.
Proof. apply Math_round_unique. lra. Qed.

Lemma year_century_range (v : Q) :
  50 <= v <= 2000 -> (1 <= Qfloor ((v - 1) / 100) + 1 <= 20)%Z.
Proof.
  intros [Hl Hu].
  assert (H0 : (Qfloor (49 # 100) <= Qfloor ((v - 1) / 100))%Z).
  { apply Qfloor_resp_le. apply Qle_shift_div_l; lra. }
  assert (H1 : (Qfloor ((v - 1) / 100) <= Qfloor (1999 # 100))%Z).
  { apply Qfloor_resp_le. apply Qle_shift_div_r; lra. }
  change (Qfloor (49 # 100)) with 0%Z in H0.
  change (Qfloor (1999 # 100)) with 19%Z in H1. lia.
Qed.
End Era.

Lemma inferCenturyFromValue_rule (v : Q) :
  eraRule 1 30 v (Results2.inferCenturyFromValue (Some v)).
Proof.
  unfold eraRule, Results2.inferCenturyFromValue, Results2.toCenturyFromYear.
  repeat split.
  - intros H. apply between_true in H. now rewrite H.
  - assert (Hn : Qle_bool 1 v && Qle_bool v 30 = false)
      by (apply between_false; lra).
    pose proof (year_century_range v H) as Hc. unfold Math_floor.
    rewrite Hn. apply between_true in H. rewrite H.
    replace ((1 <=? Qfloor ((v - 1) / 100) + 1)%Z
             && (Qfloor ((v - 1) / 100) + 1 <=? 30)%Z) with true; [ reflexivity | ].
    symmetry. apply andb_true_iff. split; apply Z.leb_le; lia.
  - pose proof (year_century_range v H). unfold Math_floor. lia.
  - pose proof (year_century_range v H). unfold Math_floor. lia.
  - intros H1 H2. apply between_false in H1, H2. now rewrite H1, H2.
Qed.

Lemma inferCenturyFromDate_unfold (x : option string) :
  Results.inferCenturyFromDate x
  = Results2.inferCenturyFromValue (Results.coerceNumber x).
Proof. reflexivity. Qed.

Lemma inferCenturyValue_rule (row : RawRow) (col : option string) (c : string) (v : Q) :
  detected col = Some c ->
  Data.coerceNumber (row !! c) = Some v ->
  eraRule 2 20 v (Data.inferCenturyValue row col).
Proof.
  intros Hc Hv. unfold eraRule, Data.inferCenturyValue, Data.toCenturyFromYear.
  rewrite Hc, Hv.
  assert (Hz : (2 <= v <= 20)%Q \/ (50 <= v <= 2000)%Q -> Qeq_bool v 0 = false).
  { intros H. destruct (Qeq_bool v 0) eqn:E; [ | reflexivity ].
    apply Qeq_bool_iff in E. lra. }
  repeat split.
  - intros H. rewrite Hz by tauto. apply between_true in H. now rewrite H.
  - assert (Hn : Qle_bool 2 v && Qle_bool v 20 = false)
      by (apply between_false; lra).
    pose proof (year_century_range v H) as Hr. unfold Math_floor.
    rewrite Hz by tauto. rewrite Hn. apply between_true in H. rewrite H.
    replace ((1 <=? Qfloor ((v - 1) / 100) + 1)%Z
             && (Qfloor ((v - 1) / 100) + 1 <=? 30)%Z) with true; [ reflexivity | ].
    symmetry. apply andb_true_iff. split; apply Z.leb_le; lia.
  - pose proof (year_century_range v H). unfold Math_floor. lia.
  - pose proof (year_century_range v H). unfold Math_floor. lia.
  - intros H1 H2. apply between_false in H1, H2. rewrite H1, H2.
    now destruct (Qeq_bool v 0).
Qed.

(** C1 (as stated, refuted): a value of [1 .. 30] is not returned directly.
    7.5 resolves to 8, on the number and on the cell; and on the DATA page
    the direct range starts at 2, so that 1 resolves to nothing there. *)
Lemma era_resolution_not_direct :
  Results2.inferCenturyFromValue (Some (15 # 2)) = Some 8%Z
  /\ ~ (inject_Z 8 == 15 # 2)%Q
  /\ Results.inferCenturyFromDate (Some "7.5"%string) = Some 8%Z
  /\ Data.inferCenturyValue {[ "century"%string := "1"%string ]}
       (Some "century"%string) = None.
Proof. repeat split; try reflexivity. intros H. discriminate H. Qed.

(** C1 (amended): given a coerced number [v], era resolution on the results
    pages returns [Math.round v] when [1 <= v <= 30], which is [v] itself
    when [v] is an integer (so 7 resolves to 7); else
    [floor((v-1)/100)+1] when [50 <= v <= 2000], a result that always lies
    in [1 .. 30]; and it is absent for every other [v], so for every [v]
    strictly between 30 and 50.  On the DATA page the rule is the same with
    the direct range [2 .. 20]. *)
Theorem era_resolution :
  (forall v : Q, eraRule 1 30 v (Results2.inferCenturyFromValue (Some v)))
  /\ (forall x : option string,
         Results.inferCenturyFromDate x
         = Results2.inferCenturyFromValue (Results.coerceNumber x))
  /\ (forall (row : RawRow) (col : option string) (c : string) (v : Q),
         detected col = Some c ->
         Data.coerceNumber (row !! c) = Some v ->
         eraRule 2 20 v (Data.inferCenturyValue row col))
  /\ (forall k : Z, Math_round (inject_Z k) = k)
  /\ Results2.inferCenturyFromValue (Some 7%Q) = Some 7%Z
  /\ (forall v : Q, (30 < v < 50)%Q ->
         Results2.inferCenturyFromValue (Some v) = None).
Proof.
  split; [ exact inferCenturyFromValue_rule | ].
  split; [ exact inferCenturyFromDate_unfold | ].
  split; [ exact inferCenturyValue_rule | ].
  split; [ exact Math_round_integer | ].
  split; [ reflexivity | ].
  intros v Hv. apply (inferCenturyFromValue_rule v); lra.
Qed.

(** The year 400 resolves to century 4, and 40 to nothing. *)
Lemma era_resolution_witness :
  Results2.inferCenturyFromValue (Some 400%Q) = Some 4%Z
  /\ Results2.inferCenturyFromValue (Some 40%Q) = None.
Proof.
  split.
  - apply (proj1 (proj2 (proj1 era_resolution 400%Q))).
    split; unfold Qle; simpl; lia.
  - apply (proj2 (proj2 (proj2 (proj2 (proj2 era_resolution)))) 40%Q).
    split; unfold Qlt; simpl; lia.
Defined.

(** C10 (as stated, refuted on the DATA page): the era value 1 lies in
    [1 .. 30] and resolves to nothing there, the direct range being
    [2 .. 20]. *)
Lemma era_rounding_not_on_data_page :
  Data.coerceNumber (Some "1"%string) = Some 1%Q
  /\ Data.inferCenturyValue {[ "century"%string := "1"%string ]}
       (Some "century"%string) = None
  /\ Data.inferCenturyValue {[ "century"%string := "25"%string ]}
       (Some "century"%string) = None.
Proof. repeat split; reflexivity. Qed.

(** C10 (amended): for every numeric era value [v] with [1 <= v <= 30] on
    the results pages, and with [2 <= v <= 20] on the DATA page, era
    resolution returns the nearest integer to [v], the upper one when two
    are nearest: 7.4 resolves to 7 and 7.6 to 8.  The century is an integer
    even when the cell carries a fraction. *)
Theorem era_resolution_rounds :
  (forall v : Q, (1 <= v <= 30)%Q ->
      exists c : Z,
        Results2.inferCenturyFromValue (Some v) = Some c /\ nearestInteger v c)
  /\ (forall (x : option string) (v : Q),
         Results.coerceNumber x = Some v -> (1 <= v <= 30)%Q ->
         exists c : Z,
           Results.inferCenturyFromDate x = Some c /\ nearestInteger v c)
  /\ (forall (row : RawRow) (col : option string) (k : string) (v : Q),
         detected col = Some k ->
         Data.coerceNumber (row !! k) = Some v -> (2 <= v <= 20)%Q ->
         exists c : Z,
           Data.inferCenturyValue row col = Some c /\ nearestInteger v c)
  /\ Results.inferCenturyFromDate (Some "7.4"%string) = Some 7%Z
  /\ Results.inferCenturyFromDate (Some "7.6"%string) = Some 8%Z.
Proof.
  split; [ | split; [ | split; [ | split; reflexivity ] ] ].
  - intros v Hv. exists (Math_round v). split.
    + now apply (inferCenturyFromValue_rule v).
    + apply Math_round_nearest.
  - intros x v Hx Hv. exists (Math_round v). split.
    + rewrite inferCenturyFromDate_unfold, Hx.
      now apply (inferCenturyFromValue_rule v).
    + apply Math_round_nearest.
  - intros row col k v Hk Hx Hv. exists (Math_round v). split.
    + now apply (inferCenturyValue_rule row col k v).
    + apply Math_round_nearest.
Qed.

(** 7.4 resolves to its nearest integer. *)
Lemma era_resolution_rounds_witness :
  exists c : Z,
    Results2.inferCenturyFromValue (Some (37 # 5)) = Some c
    /\ nearestInteger (37 # 5) c.
Proof.
  apply (proj1 era_resolution_rounds (37 # 5)).
  split; unfold Qle; simpl; lia.
Defined.

(** ** The deterministic position *)

Section Hash.
Local Open Scope Z_scope.

Lemma lxor_mod_pow2 (a b n : Z) :
  0 <= n -> Z.lxor a b mod 2 ^ n = Z.lxor (a mod 2 ^ n) (b mod 2 ^ n).
Proof.
  intros Hn. rewrite <- !Z.land_ones by assumption.
  apply Z.bits_inj'. intros i Hi.
  rewrite Z.lxor_spec, !Z.land_spec, Z.lxor_spec.
  destruct (Z.testbit (Z.ones n) i); now rewrite ?andb_true_r, ?andb_false_r.
Qed.

Lemma ToInt32_mod (x : Z) : Results.ToInt32 x mod 2 ^ 32 = x mod 2 ^ 32.
Proof.
  unfold Results.ToInt32.
  destruct (x mod 2 ^ 32 <? 2 ^ 31).
  - apply Z.mod_mod. discriminate.
  - rewrite <- (Z.mod_mod x (2 ^ 32)) at 2 by discriminate.
    rewrite <- (Z_mod_plus_full (x mod 2 ^ 32 - 2 ^ 32) 1 (2 ^ 32)).
    f_equal. lia.
Qed.

Lemma ToUint32_range (x : Z) : 0 <= Results.ToUint32 x < 2 ^ 32.
Proof. unfold Results.ToUint32. apply Z.mod_pos_bound. reflexivity. Qed.

Lemma ToUint32_xor (h c : Z) :
  0 <= c < 2 ^ 32 ->
  Results.ToUint32 (Results.xor h c) = Z.lxor (Results.ToUint32 h) c.
Proof.
  intros Hc. unfold Results.xor, Results.ToUint32.
  rewrite ToInt32_mod, lxor_mod_pow2, !ToInt32_mod by discriminate.
  now rewrite (Z.mod_small c) by assumption.
Qed.

Lemma ToUint32_imul (a b : Z) :
  Results.ToUint32 (Results.imul a b)
  = (Results.ToUint32 a * (b mod 2 ^ 32)) mod 2 ^ 32.
Proof. unfold Results.imul, Results.ToUint32 at 1. now rewrite ToInt32_mod. Qed.

(** The signed loop of the script computes the unsigned FNV-1a hash. *)
Lemma hashLoop_fnv1a32 (units : list Z) (h : Z) :
  codeUnits units ->
  Results.ToUint32 (Results.hashLoop h units)
  = fnv1a32_from (Results.ToUint32 h) units.
Proof.
  intros Hu. revert h. induction Hu as [ | c rest Hc _ IH ]; intros h.
  - reflexivity.
  - cbn [Results.hashLoop fnv1a32_from]. rewrite IH. f_equal.
    rewrite ToUint32_imul, ToUint32_xor by lia. reflexivity.
Qed.

Lemma fnv1a32_from_range (units : list Z) (h : Z) :
  0 <= h < 2 ^ 32 -> 0 <= fnv1a32_from h units < 2 ^ 32.
Proof.
  revert h. induction units as [ | c rest IH ]; intros h Hh.
  - exact Hh.
  - cbn [fnv1a32_from]. apply IH. apply Z.mod_pos_bound. reflexivity.
Qed.

Lemma charCodes_units (s : string) : codeUnits (charCodes s).
Proof.
  induction s as [ | c s IH ]; constructor; [ | exact IH ].
  unfold charCode. pose proof (N_ascii_bounded c). lia.
Qed.

Lemma hashUnits_fnv1a32 (units : list Z) :
  codeUnits units -> Results.hashUnits units = fnv1a32 units # 4294967296.
Proof.
  intros Hu. unfold Results.hashUnits, fnv1a32.
  now rewrite (hashLoop_fnv1a32 units 2166136261 Hu).
Qed.

(** [Math.floor(u * 100)] for a hash [u = n / 2^32] lies in [0 .. 99]. *)
Lemma jitter_range (n : Z) :
  0 <= n < 2 ^ 32 -> 0 <= Math_floor ((n # 4294967296) * 100) <= 99.
Proof.
  intros Hn. unfold Math_floor, Qfloor, Qmult. cbn [Qnum Qden].
  change (Z.pos (4294967296 * 1)) with 4294967296.
  split.
  - apply Z.div_pos; lia.
  - apply Z.lt_succ_r. apply Z.div_lt_upper_bound; lia.
Qed.

Lemma yearApprox_fnv1a32 (c : Z) (s : string) :
  Results.yearApprox c s
  = (c - 1) * 100
    + Math_floor ((fnv1a32 (charCodes s) # 4294967296) * 100) + 1.
Proof.
  unfold Results.yearApprox, Results.hashToUnit.
  now rewrite hashUnits_fnv1a32 by apply charCodes_units.
Qed.

Lemma yearApprox_in_century (c : Z) (s : string) :
  (c - 1) * 100 < Results.yearApprox c s <= c * 100.
Proof.
  rewrite yearApprox_fnv1a32.
  assert (Hb : 0 <= 2166136261 < 2 ^ 32) by (split; [ discriminate | reflexivity ]).
  pose proof (jitter_range _ (fnv1a32_from_range (charCodes s) _ Hb)) as Hj.
  fold (fnv1a32 (charCodes s)) in Hj. lia.
Qed.
End Hash.

(** C2: for every century [c >= 1] and every seed string [s], the position
    synthesizer returns
    [(c-1)*100 + floor((fnv1a32(s) / 2^32) * 100) + 1], where [fnv1a32] is
    the 32-bit FNV-1a hash of the code units of [s], and this year lies
    inside the century: [(c-1)*100 < yearApprox <= c*100]. *)
Theorem synthesized_position (c : Z) (s : string) :
  (1 <= c)%Z ->
  Results.yearApprox c s
  = ((c - 1) * 100
     + Math_floor ((fnv1a32 (charCodes s) # 4294967296) * 100) + 1)%Z
  /\ ((c - 1) * 100 < Results.yearApprox c s <= c * 100)%Z
  /\ (forall units : list Z,
         codeUnits units ->
         Results.hashUnits units = fnv1a32 units # 4294967296
         /\ (0 <= Math_floor (Results.hashUnits units * 100) <= 99)%Z).
Proof.
  intros _. split; [ apply yearApprox_fnv1a32 | ].
  split; [ apply yearApprox_in_century | ].
  intros units Hu. split; [ now apply hashUnits_fnv1a32 | ].
  rewrite hashUnits_fnv1a32 by assumption.
  apply jitter_range, fnv1a32_from_range. split; [ discriminate | reflexivity ].
Qed.

(** The position of the seed "abc" in century 3 lies in 201 .. 300. *)
Lemma synthesized_position_witness :
  ((3 - 1) * 100 < Results.yearApprox 3 "abc" <= 3 * 100)%Z.
Proof. apply (synthesized_position 3 "abc"). lia. Defined.

Example yearApprox_abc :
  fnv1a32 (charCodes "abc") = 440920331%Z /\ Results.yearApprox 3 "abc" = 211%Z.
Proof. split; reflexivity. Qed.

(** ** The record builders *)

Section Builders.
Variables genreCol dateCol loveCol : string.
Variables titleCol authorCol uriCol : option string.

(** What a row of the continuous-scatter page is made of. *)
Lemma Results_buildRow_inv (r : RawRow) (rec : Results.row Q) :
  Results.buildRow genreCol dateCol loveCol titleCol authorCol uriCol r = Some rec ->
  exists l : Q,
    (Results.normalizeGenre (r !! genreCol) = Some (Results.genre rec)
     \/ Results.normalizeGenre (r !! genreCol) = None
        /\ Results.normalizeGenre (r !! "GenreLabel"%string)
           = Some (Results.genre rec))
    /\ Results.inferCenturyFromDate (r !! dateCol) = Some (Results.century rec)
    /\ Results.coerceNumber (r !! loveCol) = Some l
    /\ Results.love rec = Results.loveClamped l
    /\ Results.year rec
       = Results.yearApprox (Results.century rec)
           (orElse (Results.uri rec)
              (orElse (Results.title rec) (Results.author rec))).
Proof.
  unfold Results.buildRow. intros H.
  destruct (Results.normalizeGenre (r !! genreCol)) as [ g | ] eqn:Hg1.
  - destruct (Results.inferCenturyFromDate (r !! dateCol)) as [ c | ] eqn:Hc;
      [ | discriminate ].
    destruct (c =? 0)%Z; [ discriminate | ].
    destruct (Results.coerceNumber (r !! loveCol)) as [ l | ] eqn:Hl;
      [ | discriminate ].
    injection H as <-. exists l. cbn. auto 10.
  - destruct (Results.normalizeGenre (r !! "GenreLabel"%string)) as [ g | ] eqn:Hg2;
      [ | discriminate ].
    destruct (Results.inferCenturyFromDate (r !! dateCol)) as [ c | ] eqn:Hc;
      [ | discriminate ].
    destruct (c =? 0)%Z; [ discriminate | ].
    destruct (Results.coerceNumber (r !! loveCol)) as [ l | ] eqn:Hl;
      [ | discriminate ].
    injection H as <-. exists l. cbn. auto 10.
Qed.

(** What a row of the 1..15 page is made of. *)
Lemma Results2_buildRow_inv (r : RawRow) (rec : Results2.row) :
  Results2.buildRow genreCol dateCol loveCol titleCol authorCol uriCol r = Some rec ->
  exists l : Q,
    Results2.inferGenre r genreCol = Some (Results2.genre rec)
    /\ Results2.inferCenturyFromValue (Results2.coerceNumber (r !! dateCol))
       = Some (Results2.century rec)
    /\ (1 <= Results2.century rec <= 15)%Z
    /\ Results2.coerceNumber (r !! loveCol) = Some l
    /\ Results2.love rec = Results2.loveClamped l.
Proof.
  unfold Results2.buildRow. intros H.
  destruct (Results2.inferGenre r genreCol) as [ g | ]; [ | discriminate ].
  destruct (Results2.inferCenturyFromValue _) as [ c | ]; [ | discriminate ].
  destruct (c =? 0)%Z; [ discriminate | ].
  destruct ((c <? 1)%Z || (15 <? c)%Z) eqn:Hw; [ discriminate | ].
  destruct (Results2.coerceNumber (r !! loveCol)) as [ l | ]; [ | discriminate ].
  injection H as <-. exists l. cbn.
  apply orb_false_iff in Hw. destruct Hw as [H1 H2].
  apply Z.ltb_ge in H1, H2. auto 10.
Qed.
End Builders.

Lemma Data_buildRow_window (genreCol : string) (centuryCol yearCol : option string)
    (r : RawRow) (rec : Data.row) :
  Data.buildRow genreCol centuryCol yearCol r = Some rec ->
  (2 <= Data.century rec <= 15)%Z.
Proof.
  unfold Data.buildRow. intros H.
  destruct (Data.inferGenreValue r genreCol) as [ g | ]; [ | discriminate ].
  match type of H with
  | match ?x with _ => _ end = _ => destruct x as [ c | ]; [ | discriminate ]
  end.
  destruct ((c <? 2)%Z || (15 <? c)%Z) eqn:Hw; [ discriminate | ].
  injection H as <-. cbn.
  apply orb_false_iff in Hw. destruct Hw as [H1 H2].
  apply Z.ltb_ge in H1, H2. lia.
Qed.

(** Every row of the continuous-scatter page carries the synthesized
    position of its century and of its first non-empty identifying
    string. *)
Lemma rows_year_in_century (genreCol dateCol loveCol : string)
    (titleCol authorCol uriCol : option string)
    (raw : list RawRow) (rec : Results.row Q) :
  rec ∈ Results.rows genreCol dateCol loveCol titleCol authorCol uriCol raw ->
  Results.year rec
  = Results.yearApprox (Results.century rec)
      (orElse (Results.uri rec) (orElse (Results.title rec) (Results.author rec)))
  /\ ((Results.century rec - 1) * 100 < Results.year rec
      <= Results.century rec * 100)%Z.
Proof.
  intros Hin. apply list_elem_of_omap in Hin as (r & _ & Hr).
  apply Results_buildRow_inv in Hr as (l & _ & _ & _ & _ & Hy).
  split; [ exact Hy | ]. rewrite Hy. apply yearApprox_in_century.
Qed.

(** ** The century window *)

Lemma elem_of_d3_range (a b c : Z) : c ∈ d3_range a b <-> (a <= c < b)%Z.
Proof.
  unfold d3_range. rewrite list_elem_of_fmap. split.
  - intros (i & -> & Hi). apply elem_of_seq in Hi. lia.
  - intros Hc. exists (Z.to_nat (c - a)). split; [ lia | ].
    apply elem_of_seq. lia.
Qed.

Lemma Math_round_mono (u v : Q) : (u <= v)%Q -> (Math_round u <= Math_round v)%Z.
Proof. intros H. unfold Math_round. apply Qfloor_resp_le. lra. Qed.

(** Era resolution of the results pages yields a century of [1 .. 30]. *)
Lemma inferCenturyFromValue_range (v : option Q) (c : Z) :
  Results2.inferCenturyFromValue v = Some c -> (1 <= c <= 30)%Z.
Proof.
  destruct v as [ v | ]; [ | discriminate ].
  unfold Results2.inferCenturyFromValue.
  destruct (Qle_bool 1 v && Qle_bool v 30) eqn:Hd.
  - intros [= <-]. apply between_true in Hd. destruct Hd as [H1 H30].
    pose proof (Math_round_mono _ _ H1) as Hl.
    pose proof (Math_round_mono _ _ H30) as Hu.
    change (Math_round 1) with 1%Z in Hl.
    change (Math_round 30) with 30%Z in Hu. lia.
  - destruct (Qle_bool 50 v && Qle_bool v 2000); [ | discriminate ].
    destruct ((1 <=? Results2.toCenturyFromYear v)%Z
              && (Results2.toCenturyFromYear v <=? 30)%Z) eqn:Hc; [ | discriminate ].
    intros [= <-]. apply andb_true_iff in Hc. destruct Hc as [H1 H2].
    apply Z.leb_le in H1, H2. lia.
Qed.

Section AggregateWindow.
Context {R num : Type}.
Variable genre : R -> value.
Variable century : R -> Z.
Variable love : R -> num.
Variable d3_mean : list num -> option num.

(** A bucket of a series is the summary of one century of the list the
    series ranges over. *)
Lemma pooled_elem (centuries : list Z) (rows : list R) (b : bucket num) :
  b ∈ pooled century love d3_mean centuries rows <->
  exists c : Z,
    c ∈ centuries
    /\ b = summary d3_mean c (love <$> filter (fun r => century r = c) rows)
    /\ is_Some (b_mean b).
Proof.
  unfold pooled. rewrite list_elem_of_filter, list_elem_of_fmap. split.
  - intros (Hm & c & -> & Hc). eauto.
  - intros (c & Hc & -> & Hm). eauto.
Qed.

Lemma genreSeries_elem (centuries : list Z) (rows : list R) (g : string)
    (b : bucket num) :
  b ∈ genreSeries genre century love d3_mean centuries rows g <->
  exists c : Z,
    c ∈ centuries
    /\ b = summary d3_mean c
             (love <$> filter (fun r => genre r = Str g /\ century r = c) rows)
    /\ is_Some (b_mean b).
Proof.
  unfold genreSeries. rewrite list_elem_of_filter, list_elem_of_fmap. split.
  - intros (Hm & c & -> & Hc). eauto.
  - intros (c & Hc & -> & Hm). eauto.
Qed.
End AggregateWindow.

(** The years whose century lies in the window of the DATA page. *)
Lemma century_of_year_window (y : Q) :
  (2 <= Data.toCenturyFromYear y <= 15)%Z <-> (101 <= y < 1501)%Q.
Proof.
  unfold Data.toCenturyFromYear, Math_floor.
  set (x := ((y - 1) / 100)%Q).
  assert (Hx : (x * 100 == y - 1)%Q) by (unfold x; field).
  pose proof (Qfloor_le x) as Hlo. pose proof (Qlt_floor x) as Hhi.
  split.
  - intros [H2 H15].
    assert (H1 : (1 <= inject_Z (Qfloor x))%Q).
    { change 1%Q with (inject_Z 1). rewrite <- Zle_Qle. lia. }
    assert (H14 : (inject_Z (Qfloor x + 1) <= 15)%Q).
    { change 15%Q with (inject_Z 15). rewrite <- Zle_Qle. lia. }
    split; lra.
  - intros [H101 H1501].
    assert (H1 : (1 <= Qfloor x)%Z).
    { change 1%Z with (Qfloor 1). apply Qfloor_resp_le. lra. }
    assert (H14 : (Qfloor x < 15)%Z).
    { apply Z.lt_nge. intros H. rewrite Zle_Qle in H.
      change (inject_Z 15) with 15%Q in H. lra. }
    lia.
Qed.




(** ** The clamped score *)

Section Clamp.
Local Open Scope Q_scope.

Lemma clamp_cases (l : Q) :
  (l < 0 -> Math_max 0 (Math_min 2 l) = 0)
  /\ (2 < l -> Math_max 0 (Math_min 2 l) = 2)
  /\ (0 <= l <= 2 -> Math_max 0 (Math_min 2 l) == l)
  /\ 0 <= Math_max 0 (Math_min 2 l) <= 2.
Proof.
  unfold Math_max, Math_min.
  destruct (Qle_bool 2 l) eqn:H2.
  - apply Qle_bool_iff in H2. change (Qle_bool 0 2) with true. cbv iota.
    repeat split; intros; try lra.
  - assert (Hl : l < 2).
    { apply Qnot_le_lt. intros H. apply Qle_bool_iff in H. congruence. }
    destruct (Qle_bool 0 l) eqn:H0.
    + apply Qle_bool_iff in H0. repeat split; intros; lra.
    + assert (Hn : l < 0).
      { apply Qnot_le_lt. intros H. apply Qle_bool_iff in H. congruence. }
      repeat split; intros; lra.
Qed.
End Clamp.

(** C5: the love index of every emitted record is the coerced score of
    the row it was built from, clamped into [0, 2]: a score below 0 gives 0
    (-5 gives 0), a score above 2 gives 2 (3.7 gives 2), a score of the
    range is kept (1.2 gives 1.2); so the love index always lies in
    [0, 2]. *)
Theorem love_index_clamped :
  (forall l : Q,
      ((l < 0)%Q -> Results.loveClamped l = 0%Q)
      /\ ((2 < l)%Q -> Results.loveClamped l = 2%Q)
      /\ ((0 <= l <= 2)%Q -> (Results.loveClamped l == l)%Q)
      /\ (0 <= Results.loveClamped l <= 2)%Q)
  /\ (forall l : Q, Results2.loveClamped l = Results.loveClamped l)
  /\ (forall (genreCol dateCol loveCol : string)
             (titleCol authorCol uriCol : option string)
             (raw : list RawRow) (rec : Results.row Q),
         rec ∈ Results.rows genreCol dateCol loveCol titleCol authorCol uriCol raw ->
         exists (r : RawRow) (l : Q),
           r ∈ raw
           /\ Results.buildRow genreCol dateCol loveCol titleCol authorCol uriCol r
              = Some rec
           /\ Results.coerceNumber (r !! loveCol) = Some l
           /\ Results.love rec = Results.loveClamped l
           /\ (0 <= Results.love rec <= 2)%Q)
  /\ (forall (genreCol dateCol loveCol : string)
             (titleCol authorCol uriCol : option string)
             (raw : list RawRow) (rec : Results2.row),
         rec ∈ Results2.rows genreCol dateCol loveCol titleCol authorCol uriCol raw ->
         exists (r : RawRow) (l : Q),
           r ∈ raw
           /\ Results2.buildRow genreCol dateCol loveCol titleCol authorCol uriCol r
              = Some rec
           /\ Results2.coerceNumber (r !! loveCol) = Some l
           /\ Results2.love rec = Results2.loveClamped l
           /\ (0 <= Results2.love rec <= 2)%Q)
  /\ Results.loveClamped (-5) = 0%Q
  /\ Results.loveClamped 3.7 = 2%Q
  /\ Results.loveClamped 1.2 = 1.2%Q
  /\ (forall (genreCol dateCol loveCol : string)
             (titleCol authorCol uriCol : option string)
             (r : RawRow) (rec : Results.row Q),
         Results.buildRow genreCol dateCol loveCol titleCol authorCol uriCol r
         = Some rec ->
         exists l : Q,
           Results.coerceNumber (r !! loveCol) = Some l
           /\ Results.love rec = Results.loveClamped l)
  /\ (forall (genreCol dateCol loveCol : string)
             (titleCol authorCol uriCol : option string)
             (r : RawRow) (rec : Results2.row),
         Results2.buildRow genreCol dateCol loveCol titleCol authorCol uriCol r
         = Some rec ->
         exists l : Q,
           Results2.coerceNumber (r !! loveCol) = Some l
           /\ Results2.love rec = Results2.loveClamped l).
Proof.
  split; [ exact clamp_cases | ].
  split; [ reflexivity | ].
  split; [ | split; [ | split; [ | split; [ | split; [ | split ] ] ] ] ];
    try reflexivity.
  - intros genreCol dateCol loveCol titleCol authorCol uriCol raw rec Hin.
    apply list_elem_of_omap in Hin as (r & Hr & Hb). pose proof Hb as Hrow.
    apply Results_buildRow_inv in Hb as (l & _ & _ & Hl & Hlove & _).
    exists r, l. rewrite Hlove. repeat split; try assumption; apply clamp_cases.
  - intros genreCol dateCol loveCol titleCol authorCol uriCol raw rec Hin.
    apply list_elem_of_omap in Hin as (r & Hr & Hb). pose proof Hb as Hrow.
    apply Results2_buildRow_inv in Hb as (l & _ & _ & _ & Hl & Hlove).
    exists r, l. rewrite Hlove. repeat split; try assumption; apply clamp_cases.
  - intros genreCol dateCol loveCol titleCol authorCol uriCol r rec Hb.
    apply Results_buildRow_inv in Hb as (l & _ & _ & Hl & Hlove & _). eauto.
  - intros genreCol dateCol loveCol titleCol authorCol uriCol r rec Hb.
    apply Results2_buildRow_inv in Hb as (l & _ & _ & _ & Hl & Hlove). eauto.
Qed.

(** The score -5 is clamped to 0. *)
Lemma love_index_clamped_witness : Results.loveClamped (-5) = 0%Q.
Proof.
  apply (proj1 (proj1 love_index_clamped (-5)%Q)).
  unfold Qlt. simpl. lia.
Defined.

(** The three scores of the clamping law, read from cells. *)
Example loveClamped_cells :
  Results.loveClamped <$> Results.coerceNumber (Some "-5"%string) = Some 0%Q
  /\ Results.loveClamped <$> Results.coerceNumber (Some "3.7"%string) = Some 2%Q
  /\ Results.loveClamped <$> Results.coerceNumber (Some "1.2"%string)
     = Results.coerceNumber (Some "1.2"%string).
Proof. repeat split; reflexivity. Qed.

(** ** The minimum yield *)

(** C8: when the number of emitted records is below the minimum of the
    page, 10 on the DATA page and 20 on the results pages, the page shows
    the insufficient-data diagnostic and hands neither records nor
    aggregates to the charts; nine records against the minimum of 10 give
    the diagnostic. *)
Theorem insufficient_data :
  (forall (genreCol : string) (centuryCol yearCol : option string)
          (raw : list RawRow),
      (length (Data.rows genreCol centuryCol yearCol raw) < 10)%nat ->
      Data.page genreCol centuryCol yearCol raw = Data.NotEnoughPoints)
  /\ (forall (genreCol dateCol loveCol : string)
             (titleCol authorCol uriCol : option string)
             (d3_mean : list Q -> option Q) (raw : list RawRow),
         let rows := Results.rows genreCol dateCol loveCol titleCol authorCol uriCol raw in
         (length rows < 20)%nat ->
         Results.page genreCol dateCol loveCol titleCol authorCol uriCol d3_mean raw
         = Results.TooFewRows (length rows))
  /\ (forall (genreCol dateCol loveCol : string)
             (titleCol authorCol uriCol : option string)
             (d3_mean : list Q -> option Q) (raw : list RawRow),
         let rows := Results2.rows genreCol dateCol loveCol titleCol authorCol uriCol raw in
         (length rows < 20)%nat ->
         Results2.page genreCol dateCol loveCol titleCol authorCol uriCol d3_mean raw
         = Results2.TooFewRows (length rows))
  /\ length (Data.rows "genre" (Some "century"%string) None nineRows) = 9%nat.
Proof.
  repeat apply conj.
  - intros genreCol centuryCol yearCol raw H. unfold Data.page.
    apply Nat.ltb_lt in H. now rewrite H.
  - intros genreCol dateCol loveCol titleCol authorCol uriCol d3_mean raw rows H.
    unfold Results.page. fold rows. apply Nat.ltb_lt in H. now rewrite H.
  - intros genreCol dateCol loveCol titleCol authorCol uriCol d3_mean raw rows H.
    unfold Results2.page. fold rows. apply Nat.ltb_lt in H. now rewrite H.
  - reflexivity.
Qed.

(** Nine rows on the DATA page give the diagnostic. *)
Lemma insufficient_data_witness :
  Data.page "genre" (Some "century"%string) None nineRows = Data.NotEnoughPoints.
Proof.
  apply (proj1 insufficient_data). vm_compute. lia.
Defined.

(** With the minimum reached, the page goes on to the charts. *)
Lemma page_renders (genreCol : string) (centuryCol yearCol : option string)
    (raw : list RawRow) :
  (10 <= length (Data.rows genreCol centuryCol yearCol raw))%nat ->
  exists series counts,
    Data.page genreCol centuryCol yearCol raw = Data.Charts series counts.
Proof.
  intros H. unfold Data.page.
  destruct (length (Data.rows genreCol centuryCol yearCol raw) <? 10)%nat eqn:E.
  - apply Nat.ltb_lt in E. lia.
  - eauto.
Qed.

(** ** The aggregates *)

Section AggregateFacts.
Context {R num : Type}.
Variable genre : R -> value.
Variable century : R -> Z.
Variable love : R -> num.
Variable d3_mean : list num -> option num.

(** The centuries of a series follow the list the series ranges over. *)
Lemma summaries_sublist (P : bucket num -> Prop) `{!forall b, Decision (P b)}
    (f : Z -> bucket num) (centuries : list Z) :
  (forall c, b_century (f c) = c) ->
  sublist (b_century <$> filter P (f <$> centuries)) centuries.
Proof.
  intros Hf. induction centuries as [ | c cs IH ]; [ constructor | ].
  rewrite fmap_cons. destruct (decide (P (f c))) as [ Hp | Hp ].
  - rewrite filter_cons_True by assumption. rewrite fmap_cons, Hf.
    now apply sublist_skip.
  - rewrite filter_cons_False by assumption. now apply sublist_cons.
Qed.

Lemma pooled_NoDup (centuries : list Z) (rows : list R) :
  NoDup centuries ->
  NoDup (b_century <$> pooled century love d3_mean centuries rows).
Proof.
  intros Hn. eapply sublist_NoDup; [ exact Hn | ].
  unfold pooled. now apply summaries_sublist.
Qed.

Lemma genreSeries_NoDup (centuries : list Z) (rows : list R) (g : string) :
  NoDup centuries ->
  NoDup (b_century <$> genreSeries genre century love d3_mean centuries rows g).
Proof.
  intros Hn. eapply sublist_NoDup; [ exact Hn | ].
  unfold genreSeries. now apply summaries_sublist.
Qed.

Lemma summary_mean_defined (c : Z) (vals : list num) :
  (forall vs, vs <> [] -> is_Some (d3_mean vs)) ->
  is_Some (b_mean (summary d3_mean c vals)) <-> vals <> [].
Proof.
  intros Hd. destruct vals as [ | v vals ]; cbn.
  - split; [ intros [m Hm]; discriminate | congruence ].
  - split; [ discriminate | intros _; now apply Hd ].
Qed.

(** Permuting the rows permutes the values of every summary. *)
Lemma summary_permutation (c : Z) (vals vals' : list num) :
  (forall l l', l ≡ₚ l' -> d3_mean l = d3_mean l') ->
  vals ≡ₚ vals' ->
  summary d3_mean c vals = summary d3_mean c vals'.
Proof.
  intros Hp Hv. unfold summary. f_equal.
  - destruct vals as [ | v vals ].
    + apply Permutation_nil in Hv. now subst.
    + destruct vals' as [ | v' vals' ].
      * symmetry in Hv. apply Permutation_nil in Hv. discriminate.
      * now apply Hp.
  - now apply Permutation_length.
Qed.

Lemma pooled_permutation (centuries : list Z) (rows rows' : list R) :
  (forall l l', l ≡ₚ l' -> d3_mean l = d3_mean l') ->
  rows ≡ₚ rows' ->
  pooled century love d3_mean centuries rows
  = pooled century love d3_mean centuries rows'.
Proof.
  intros Hp Hr. unfold pooled. f_equal. apply list_fmap_ext.
  intros _ c _. apply summary_permutation; [ exact Hp | ]. now rewrite Hr.
Qed.

Lemma genreSeries_permutation (centuries : list Z) (rows rows' : list R)
    (g : string) :
  (forall l l', l ≡ₚ l' -> d3_mean l = d3_mean l') ->
  rows ≡ₚ rows' ->
  genreSeries genre century love d3_mean centuries rows g
  = genreSeries genre century love d3_mean centuries rows' g.
Proof.
  intros Hp Hr. unfold genreSeries. f_equal. apply list_fmap_ext.
  intros _ c _. apply summary_permutation; [ exact Hp | ]. now rewrite Hr.
Qed.

(** The centuries and the counts of a series only need the mean to be
    defined on the same lists. *)
Lemma counts_permutation (f f' : Z -> list num) (centuries : list Z) :
  (forall l l', l ≡ₚ l' -> is_Some (d3_mean l) <-> is_Some (d3_mean l')) ->
  (forall c, f c ≡ₚ f' c) ->
  (fun b => (b_century b, b_n b))
    <$> filter (fun d => is_Some (b_mean d))
          ((fun c => summary d3_mean c (f c)) <$> centuries)
  = (fun b => (b_century b, b_n b))
      <$> filter (fun d => is_Some (b_mean d))
            ((fun c => summary d3_mean c (f' c)) <$> centuries).
Proof.
  intros Hd Hf. induction centuries as [ | c cs IH ]; [ reflexivity | ].
  rewrite !fmap_cons.
  assert (Hs : is_Some (b_mean (summary d3_mean c (f c)))
               <-> is_Some (b_mean (summary d3_mean c (f' c)))).
  { specialize (Hf c). cbn. destruct (f c) as [ | v vs ], (f' c) as [ | v' vs' ].
    - reflexivity.
    - apply Permutation_nil in Hf. discriminate.
    - symmetry in Hf. apply Permutation_nil in Hf. discriminate.
    - now apply Hd. }
  destruct (decide (is_Some (b_mean (summary d3_mean c (f c))))) as [ Hm | Hm ].
  - rewrite !filter_cons_True by tauto. rewrite !fmap_cons, IH. f_equal.
    cbn. f_equal. apply Permutation_length, Hf.
  - rewrite !filter_cons_False by tauto. exact IH.
Qed.
End AggregateFacts.

(** *** The exact mean *)

Lemma sumQ_from (a : Q) (vals : list Q) : (foldl Qplus a vals == a + sumQ vals)%Q.
Proof.
  unfold sumQ. revert a. induction vals as [ | v vals IH ]; intros a; cbn.
  - lra.
  - rewrite IH, (IH (0 + v)%Q). lra.
Qed.

Lemma sumQ_cons (v : Q) (vals : list Q) : (sumQ (v :: vals) == v + sumQ vals)%Q.
Proof. unfold sumQ at 1. cbn. rewrite sumQ_from. lra. Qed.

Lemma sumQ_permutation (l l' : list Q) : l ≡ₚ l' -> (sumQ l == sumQ l')%Q.
Proof.
  induction 1 as [ | x l l' _ IH | x y l | l l' l'' _ IH1 _ IH2 ].
  - reflexivity.
  - rewrite !sumQ_cons, IH. reflexivity.
  - rewrite !sumQ_cons. lra.
  - now rewrite IH1.
Qed.

Lemma mean_exact_permutation (l l' : list Q) :
  l ≡ₚ l' -> mean_exact l = mean_exact l'.
Proof.
  intros Hp. unfold mean_exact.
  destruct l as [ | v l ].
  - apply Permutation_nil in Hp. now subst.
  - destruct l' as [ | v' l' ].
    + symmetry in Hp. apply Permutation_nil in Hp. discriminate.
    + f_equal. apply Qred_complete.
      rewrite (sumQ_permutation _ _ Hp), (Permutation_length Hp). reflexivity.
Qed.

Lemma mean_exact_defined (vals : list Q) : vals <> [] -> is_Some (mean_exact vals).
Proof. destruct vals; [ congruence | intros _; cbn; eauto ]. Qed.

Lemma mean_exact_value (vals : list Q) (m : Q) :
  mean_exact vals = Some m ->
  (m == sumQ vals / inject_Z (Z.of_nat (length vals)))%Q.
Proof.
  destruct vals as [ | v vals ]; [ discriminate | ].
  intros [= <-]. apply Qred_correct.
Qed.

Lemma d3_range_NoDup (a b : Z) : NoDup (d3_range a b).
Proof.
  unfold d3_range. apply NoDup_fmap_2; [ | apply NoDup_seq ].
  intros i j H. lia.
Qed.

(** A series over the centuries [lo .. hi], with the exact mean. *)
Lemma series_exact (lo hi : Z) (vals : Z -> list Q) :
  seriesOf lo hi vals
    (filter (fun d => is_Some (b_mean d))
       ((fun c => summary mean_exact c (vals c)) <$> d3_range lo (hi + 1))).
Proof.
  repeat apply conj.
  - eapply sublist_NoDup; [ apply (d3_range_NoDup lo (hi + 1)) | ].
    now apply summaries_sublist.
  - intros c. rewrite list_elem_of_fmap. split.
    + intros (b & -> & Hb).
      apply list_elem_of_filter in Hb as (Hm & Hb).
      apply list_elem_of_fmap in Hb as (c' & -> & Hc').
      apply elem_of_d3_range in Hc'. cbn. split; [ lia | ].
      apply (summary_mean_defined mean_exact c' (vals c') mean_exact_defined), Hm.
    + intros (Hc & Hv). exists (summary mean_exact c (vals c)).
      split; [ reflexivity | ]. apply list_elem_of_filter. split.
      * now apply summary_mean_defined; [ apply mean_exact_defined | ].
      * apply list_elem_of_fmap. exists c. split; [ reflexivity | ].
        apply elem_of_d3_range. lia.
  - intros b Hb.
    apply list_elem_of_filter in Hb as (Hm & Hb).
    apply list_elem_of_fmap in Hb as (c & -> & _). cbn in *.
    destruct (vals c) as [ | v vs ] eqn:Hv.
    + destruct Hm as [m Hm]. discriminate.
    + split; [ reflexivity | ]. split; [ cbn; lia | ].
      destruct Hm as [m Hm]. exists m. split; [ exact Hm | ].
      now apply mean_exact_value.
Qed.

(** A century has a value exactly when a record falls in it. *)
Lemma values_nonempty {R num : Type} (love : R -> num) (P : R -> Prop)
    `{!forall r, Decision (P r)} (rows : list R) :
  love <$> filter P rows <> [] <-> exists r, r ∈ rows /\ P r.
Proof.
  split.
  - destruct (filter P rows) as [ | r rs ] eqn:Hf; [ cbn; congruence | ].
    intros _. exists r.
    assert (Hr : r ∈ filter P rows) by (rewrite Hf; apply list_elem_of_here).
    apply list_elem_of_filter in Hr. tauto.
  - intros (r & Hr & Hp) Hnil. apply fmap_nil_inv in Hnil.
    assert (Hin : r ∈ filter P rows) by (apply list_elem_of_filter; tauto).
    rewrite Hnil in Hin. now apply elem_of_nil in Hin.
Qed.

(** C6 (as stated, refuted): twenty rows of the first century pass the
    minimum, every record has century 1, and the pooled series and the six
    genre series are empty: century 1 has records and no bucket. *)
Lemma first_century_has_no_bucket :
  let rows :=
    Results.rows "GenreCode" "date" "BoC_final_0_2" None None None
      firstCenturyRows in
  length rows = 20%nat
  /\ Results.century <$> rows = replicate 20 1%Z
  /\ Results.page "GenreCode" "date" "BoC_final_0_2" None None None mean_exact
       firstCenturyRows
     = Results.Rendered rows [] ((fun g => (g, [])) <$> Results.GENRES).
Proof. cbv zeta. repeat split; vm_compute; reflexivity. Qed.

(** C6 (amended): the pooled series holds exactly one bucket for every
    century of the window of the aggregates, 2..15 on the
    continuous-scatter page and 1..15 on the other results page, that has
    at least one record; its mean is the arithmetic mean of the love index
    over the records of the century and [n] is their count.  Likewise one
    bucket per genre and century of the window with at least one record, in
    six series in the order of the genres.  No bucket has [n = 0], and a
    record outside the window enters no bucket.  The records (BIO,3,1.0),
    (BIO,3,0.5), (DEV,3,2.0) give the pooled bucket of century 3 with mean
    7/6, which is 1.1667 to four places, and [n = 3], and the BIO bucket
    with mean 0.75 and [n = 2]. *)
Theorem aggregate_buckets :
  (forall rows : list (Results.row Q),
      seriesOf 2 15
        (fun c => Results.love <$> filter (fun r => Results.century r = c) rows)
        (pooled Results.century Results.love mean_exact Results.centuries rows))
  /\ (forall (rows : list (Results.row Q)) (g : string),
         seriesOf 2 15
           (fun c =>
              Results.love
                <$> filter (fun r => Results.genre r = Str g
                                     /\ Results.century r = c) rows)
           (genreSeries Results.genre Results.century Results.love mean_exact
              Results.centuries rows g))
  /\ (forall rows : list Results2.row,
         seriesOf 1 15
           (fun c => Results2.love <$> filter (fun r => Results2.century r = c) rows)
           (pooled Results2.century Results2.love mean_exact Results2.centuries rows))
  /\ (forall (rows : list Results2.row) (g : string),
         seriesOf 1 15
           (fun c =>
              Results2.love
                <$> filter (fun r => Results2.genre r = Str g
                                     /\ Results2.century r = c) rows)
           (genreSeries Results2.genre Results2.century Results2.love mean_exact
              Results2.centuries rows g))
  /\ (forall (rows : list (Results.row Q)) (g : string) (c : Z),
         (Results.love <$> filter (fun r => Results.century r = c) rows <> []
          <-> exists r, r ∈ rows /\ Results.century r = c)
         /\ (Results.love
               <$> filter (fun r => Results.genre r = Str g
                                    /\ Results.century r = c) rows <> []
             <-> exists r, r ∈ rows /\ Results.genre r = Str g
                           /\ Results.century r = c))
  /\ (forall rows : list (Results.row Q),
         byGenre Results.genre Results.century Results.love mean_exact
           Results.GENRES Results.centuries rows
         = (fun g =>
              (g, genreSeries Results.genre Results.century Results.love
                    mean_exact Results.centuries rows g))
             <$> ["BIO"; "DEV"; "PHI"; "POE"; "RHE"; "THE"]%string)
  /\ pooled Results.century Results.love mean_exact Results.centuries threeRecords
     = [ Bucket 3 (Some (7 # 6)) 3 ]
  /\ (1.16665 <= 7 # 6 < 1.16675)%Q
  /\ genreSeries Results.genre Results.century Results.love mean_exact
       Results.centuries threeRecords "BIO"
     = [ Bucket 3 (Some (3 # 4)) 2 ]
  /\ pooled Results.century Results.love mean_double Results.centuries
       threeRecordsDouble
     = [ Bucket 3 (Some 1.1666666666666667%float) 3 ]
  /\ genreSeries Results.genre Results.century Results.love mean_double
       Results.centuries threeRecordsDouble "BIO"
     = [ Bucket 3 (Some 0.75%float) 2 ].
Proof.
  split; [ intros rows; apply (series_exact 2 15) | ].
  split; [ intros rows g; apply (series_exact 2 15) | ].
  split; [ intros rows; apply (series_exact 1 15) | ].
  split; [ intros rows g; apply (series_exact 1 15) | ].
  split; [ intros rows g c; split; apply values_nonempty | ].
  split; [ reflexivity | ].
  split; [ vm_compute; reflexivity | ].
  split; [ split; [ unfold Qle | unfold Qlt ]; simpl; lia | ].
  repeat split; vm_compute; reflexivity.
Qed.

(** The series of the three records is such a series. *)
Lemma aggregate_buckets_witness :
  seriesOf 2 15
    (fun c => Results.love <$> filter (fun r => Results.century r = c) threeRecords)
    (pooled Results.century Results.love mean_exact Results.centuries threeRecords).
Proof. apply (proj1 aggregate_buckets threeRecords). Defined.

(** *** The order of the rows *)

Lemma foldl_permutation {A B : Type} (f : B -> A -> B) :
  (forall b x y, f (f b x) y = f (f b y) x) ->
  forall l l' : list A, l ≡ₚ l' -> forall b : B, foldl f b l = foldl f b l'.
Proof.
  intros Hf l l' Hp.
  induction Hp as [ | x l l' _ IH | x y l | l l' l'' _ IH1 _ IH2 ]; intros b; cbn.
  - reflexivity.
  - apply IH.
  - now rewrite Hf.
  - now rewrite IH1.
Qed.

Lemma bump_bump (g h : string) (m : gmap string nat) :
  Data.bump g (Data.bump h m) = Data.bump h (Data.bump g m).
Proof.
  unfold Data.bump. destruct (decide (g = h)) as [ -> | Hne ]; [ reflexivity | ].
  rewrite lookup_insert_ne by congruence.
  rewrite (lookup_insert_ne m g h) by congruence.
  now apply insert_insert_ne.
Qed.

Lemma addRow_addRow (data : list (Z * gmap string nat)) (r s : Data.row) :
  Data.addRow (Data.addRow data r) s = Data.addRow (Data.addRow data s) r.
Proof.
  unfold Data.addRow.
  destruct (Data.idx !! Data.century r) as [ i | ];
    destruct (Data.idx !! Data.century s) as [ j | ]; try reflexivity.
  destruct (decide (j = i)) as [ -> | Hne ].
  - rewrite !list_alter_alter_eq. apply list_alter_ext; [ | reflexivity ].
    intros [c obj] _. cbn. now rewrite bump_bump.
  - now apply list_alter_alter_ne.
Qed.

(** The binary64 mean is defined on the same lists whatever their order. *)
Lemma mean_double_defined (l l' : list float) :
  l ≡ₚ l' -> is_Some (mean_double l) <-> is_Some (mean_double l').
Proof.
  intros Hp. unfold mean_double.
  pose proof (filter_Permutation (fun v => PrimFloat.leb v v = true) _ _ Hp) as Hf.
  destruct (filter _ l) as [ | v vs ], (filter _ l') as [ | v' vs' ].
  - reflexivity.
  - apply Permutation_nil in Hf. discriminate.
  - symmetry in Hf. apply Permutation_nil in Hf. discriminate.
  - split; eauto.
Qed.

(** C7 (as stated, refuted): the mean of [d3.mean] is a binary64 running
    sum.  Three records of one century with the scores 0.1, 0.2 and 0.3
    have the pooled mean 0.20000000000000004 in this order and
    0.19999999999999998 in the reverse order. *)
Lemma binary64_mean_depends_on_order :
  tenths ≡ₚ reverse tenths
  /\ pooled Results.century Results.love mean_double Results.centuries tenths
     = [ Bucket 3 (Some 0.20000000000000004%float) 3 ]
  /\ pooled Results.century Results.love mean_double Results.centuries
       (reverse tenths)
     = [ Bucket 3 (Some 0.19999999999999998%float) 3 ]
  /\ pooled Results.century Results.love mean_double Results.centuries tenths
     <> pooled Results.century Results.love mean_double Results.centuries
          (reverse tenths).
Proof.
  split; [ symmetry; apply reverse_Permutation | ].
  split; [ vm_compute; reflexivity | ].
  split; [ vm_compute; reflexivity | ].
  vm_compute. intros H. discriminate H.
Qed.

(** C7 (amended): permuting the rows changes no bucket's century and
    no bucket's [n], in the pooled series and in every genre series, and
    it changes no count of the DATA page.  The mean of a bucket is taken
    over the same values in another order: it is unchanged for every mean
    that does not depend on the order of its arguments, which the exact
    arithmetic mean is; the binary64 sum of [d3.mean] can differ in its
    last bits. *)
Theorem aggregates_permutation :
  (forall (R num : Type) (genre : R -> value) (century : R -> Z) (love : R -> num)
          (d3_mean : list num -> option num) (GENRES : list string)
          (centuries : list Z) (rows rows' : list R),
      (forall l l', l ≡ₚ l' -> d3_mean l = d3_mean l') ->
      rows ≡ₚ rows' ->
      pooled century love d3_mean centuries rows
      = pooled century love d3_mean centuries rows'
      /\ byGenre genre century love d3_mean GENRES centuries rows
         = byGenre genre century love d3_mean GENRES centuries rows')
  /\ (forall l l' : list Q, l ≡ₚ l' -> mean_exact l = mean_exact l')
  /\ (forall (R : Type) (genre : R -> value) (century : R -> Z) (love : R -> float)
             (centuries : list Z) (rows rows' : list R) (g : string),
         rows ≡ₚ rows' ->
         (fun b => (b_century b, b_n b))
           <$> pooled century love mean_double centuries rows
         = (fun b => (b_century b, b_n b))
             <$> pooled century love mean_double centuries rows'
         /\ (fun b => (b_century b, b_n b))
              <$> genreSeries genre century love mean_double centuries rows g
            = (fun b => (b_century b, b_n b))
                <$> genreSeries genre century love mean_double centuries rows' g)
  /\ (forall rs rs' : list Data.row,
         rs ≡ₚ rs' ->
         Data.dataByCentury rs = Data.dataByCentury rs'
         /\ Data.countsByGenre rs = Data.countsByGenre rs').
Proof.
  repeat apply conj.
  - intros R num genre century love d3_mean GENRES centuries rows rows' Hm Hp.
    split; [ now apply pooled_permutation | ].
    unfold byGenre. apply list_fmap_ext. intros _ g _. f_equal.
    now apply genreSeries_permutation.
  - exact mean_exact_permutation.
  - intros R genre century love centuries rows rows' g Hp. split.
    + apply (counts_permutation mean_double); [ exact mean_double_defined | ].
      intros c. now rewrite Hp.
    + apply (counts_permutation mean_double); [ exact mean_double_defined | ].
      intros c. now rewrite Hp.
  - intros rs rs' Hp. split.
    + unfold Data.dataByCentury. now apply foldl_permutation; [ apply addRow_addRow | ].
    + unfold Data.countsByGenre. apply foldl_permutation; [ | exact Hp ].
      intros m r s. apply bump_bump.
Qed.

(** The three records and their reverse have the same pooled series. *)
Lemma aggregates_permutation_witness :
  pooled Results.century Results.love mean_exact Results.centuries threeRecords
  = pooled Results.century Results.love mean_exact Results.centuries
      (reverse threeRecords).
Proof.
  apply (proj1 aggregates_permutation (Results.row Q) Q Results.genre
           Results.century Results.love mean_exact Results.GENRES
           Results.centuries threeRecords (reverse threeRecords)).
  - exact (proj1 (proj2 aggregates_permutation)).
  - symmetry. apply reverse_Permutation.
Defined.

(** ** Numeric coercion *)

Lemma append_cons (c : ascii) (a b : string) :
  String c a +:+ b = String c (a +:+ b).
Proof. reflexivity. Qed.

Lemma append_nil_l (b : string) : EmptyString +:+ b = b.
Proof. reflexivity. Qed.

Lemma append_nil_r (s : string) : s +:+ EmptyString = s.
Proof.
  induction s as [ | c s IH ]; [ reflexivity | ].
  change (String c (s +:+ EmptyString) = String c s). now rewrite IH.
Qed.

Lemma append_assoc (a b c : string) : (a +:+ b) +:+ c = a +:+ b +:+ c.
Proof.
  induction a as [ | x a IH ]; [ reflexivity | ].
  change (String x ((a +:+ b) +:+ c) = String x (a +:+ b +:+ c)). now rewrite IH.
Qed.

Lemma replaceComma_commaFree (s : string) :
  commaFree s = true -> replaceComma s = s.
Proof.
  induction s as [ | c s IH ]; cbn; [ reflexivity | ].
  intros H. apply andb_true_iff in H as [Hc Hs].
  apply negb_true_iff in Hc. rewrite Hc. now rewrite IH.
Qed.



Lemma replaceComma_digitFree (s : string) :
  digitFree (replaceComma s) = digitFree s.
Proof.
  induction s as [ | c s IH ]; cbn; [ reflexivity | ].
  destruct (Ascii.eqb c ",") eqn:Hc.
  - apply Ascii.eqb_eq in Hc. subst c. reflexivity.
  - cbn. now rewrite IH.
Qed.

(** *** The leftmost match *)

Lemma spanDigits_digits (d post : string) :
  digits d = true -> startsWithDigit post = false ->
  spanDigits (d +:+ post) = (d, post).
Proof.
  intros Hd Hp. induction d as [ | c d IH ].
  - rewrite append_nil_l. destruct post as [ | c post ]; [ reflexivity | ].
    cbn in Hp. cbn. now rewrite Hp.
  - rewrite append_cons. cbn in Hd. apply andb_true_iff in Hd as [Hc Hd].
    cbn. rewrite Hc, IH by assumption. reflexivity.
Qed.

Lemma spanDigits_nondigit (s : string) :
  startsWithDigit s = false -> spanDigits s = (EmptyString, s).
Proof.
  destruct s as [ | c s ]; [ reflexivity | ]. cbn. now intros ->.
Qed.

Lemma matchUnsigned_nondigit (s : string) :
  startsWithDigit s = false -> matchUnsigned s = None.
Proof. intros H. unfold matchUnsigned. now rewrite spanDigits_nondigit. Qed.

Lemma matchUnsigned_integer (d post : string) :
  digits d = true -> d <> EmptyString ->
  startsWithDigit post = false -> startsWithFraction post = false ->
  matchUnsigned (d +:+ post) = Some d.
Proof.
  intros Hd Hne Hp Hf. unfold matchUnsigned.
  rewrite spanDigits_digits by assumption.
  destruct d as [ | c d ]; [ congruence | ].
  destruct post as [ | p post ]; [ reflexivity | ].
  destruct (Ascii.eqb p ".") eqn:E.
  - apply Ascii.eqb_eq in E. subst p. cbn in Hf.
    now rewrite (spanDigits_nondigit post Hf).
  - destruct p as [[] [] [] [] [] [] [] []]; try reflexivity. discriminate E.
Qed.

Lemma matchUnsigned_fraction (d f post : string) :
  digits d = true -> d <> EmptyString ->
  digits f = true -> f <> EmptyString ->
  startsWithDigit post = false ->
  matchUnsigned (d +:+ String "." f +:+ post) = Some (d +:+ String "." f).
Proof.
  intros Hd Hne Hf Hfne Hp. unfold matchUnsigned.
  rewrite (append_cons "." f post).
  rewrite spanDigits_digits by (assumption || reflexivity).
  destruct d as [ | c d ]; [ congruence | ].
  rewrite spanDigits_digits by assumption.
  destruct f as [ | c' f ]; [ congruence | reflexivity ].
Qed.

Lemma digits_head (d : string) :
  digits d = true -> d <> EmptyString -> startsWithDigit d = true.
Proof.
  destruct d as [ | c d ]; [ congruence | ]. cbn.
  intros H _. now apply andb_true_iff in H as [Hc _].
Qed.

Lemma matchHere_nonminus (s : string) :
  startsWithDigit s = true -> matchHere s = matchUnsigned s.
Proof.
  destruct s as [ | c s ]; [ reflexivity | ]. cbn [startsWithDigit]. intros Hc.
  destruct c as [[] [] [] [] [] [] [] []]; try reflexivity; discriminate Hc.
Qed.

Lemma matchHere_minus (r t : string) :
  matchUnsigned r = Some t -> matchHere (String "-" r) = Some (String "-" t).
Proof. intros H. cbn. now rewrite H. Qed.

Lemma append_head_digit (d rest : string) :
  startsWithDigit d = true -> startsWithDigit (d +:+ rest) = true.
Proof. destruct d; [ discriminate | now rewrite append_cons ]. Qed.

(** No match starts inside a prefix that has no digit, unless its last
    character is a minus that digits follow. *)
Lemma matchNumber_skip (pre s : string) :
  digitFree pre = true ->
  endsWithMinus pre = false \/ startsWithDigit s = false ->
  matchNumber (pre +:+ s) = matchNumber s.
Proof.
  intros Hpre Hend. induction pre as [ | c pre IH ]; [ reflexivity | ].
  rewrite append_cons. cbn in Hpre. apply andb_true_iff in Hpre as [Hc Hpre].
  apply negb_true_iff in Hc.
  assert (Hnext : Ascii.eqb c "-" = true -> startsWithDigit (pre +:+ s) = false).
  { intros Hm. destruct pre as [ | c' pre ].
    - rewrite append_nil_l. destruct Hend as [He | Hs]; [ | exact Hs ].
      cbn in He. congruence.
    - rewrite append_cons. cbn. cbn in Hpre. apply andb_true_iff in Hpre as [Hc' _].
      now apply negb_true_iff in Hc'. }
  assert (Hhere : matchHere (String c (pre +:+ s)) = None).
  { destruct (Ascii.eqb c "-") eqn:Hm.
    - apply Ascii.eqb_eq in Hm. subst c. cbn.
      now rewrite (matchUnsigned_nondigit _ (Hnext eq_refl)).
    - assert (Hu : matchUnsigned (String c (pre +:+ s)) = None)
        by (apply matchUnsigned_nondigit; exact Hc).
      destruct c as [[] [] [] [] [] [] [] []]; try exact Hu. discriminate Hm. }
  cbn [matchNumber]. rewrite Hhere. apply IH; [ exact Hpre | ].
  destruct Hend as [He | Hs]; [ left | now right ].
  destruct pre as [ | c' pre ]; [ reflexivity | exact He ].
Qed.

Lemma matchNumber_here (s t : string) :
  matchHere s = Some t -> matchNumber s = Some t.
Proof. intros H. destruct s; cbn [matchNumber]; now rewrite H. Qed.

(** The match is the first numeric token. *)
Lemma matchNumber_firstToken (s pre sign d frac post : string) :
  firstToken s pre sign d frac post ->
  matchNumber s = Some (sign +:+ d +:+ frac).
Proof.
  intros (-> & Hpre & Hsign & Hd & Hne & Hfrac & Hpost).
  assert (Hu : matchUnsigned (d +:+ frac +:+ post) = Some (d +:+ frac)).
  { destruct Hfrac as [ [-> Hf] | (f & -> & Hf & Hfne) ].
    - rewrite append_nil_r. now apply matchUnsigned_integer.
    - now apply matchUnsigned_fraction. }
  pose proof (digits_head d Hd Hne) as Hh.
  destruct Hsign as [ -> | [-> Hend] ].
  - rewrite matchNumber_skip; [ | exact Hpre | now right ].
    apply matchNumber_here. rewrite append_cons, append_nil_l.
    now apply matchHere_minus.
  - rewrite matchNumber_skip; [ | exact Hpre | now left ].
    apply matchNumber_here. rewrite !append_nil_l.
    rewrite matchHere_nonminus by now apply append_head_digit. exact Hu.
Qed.

(** There is no match exactly when there is no digit. *)
Lemma matchNumber_None (s : string) :
  matchNumber s = None <-> digitFree s = true.
Proof.
  split.
  - induction s as [ | c s IH ]; [ reflexivity | ].
    cbn [matchNumber]. destruct (matchHere (String c s)) eqn:Hh; [ discriminate | ].
    intros Hs. cbn. rewrite (IH Hs), andb_true_r.
    destruct (isDigit c) eqn:Hc; [ exfalso | reflexivity ].
    rewrite matchHere_nonminus in Hh by exact Hc.
    unfold matchUnsigned in Hh. cbn [spanDigits] in Hh. rewrite Hc in Hh.
    destruct (spanDigits s) as [d r].
    destruct r as [ | p r ]; [ discriminate | ].
    destruct (Ascii.eqb p ".") eqn:E.
    + apply Ascii.eqb_eq in E. subst p.
      destruct (spanDigits r) as [ [ | ] ? ]; discriminate.
    + destruct p as [[] [] [] [] [] [] [] []]; try discriminate Hh. discriminate E.
  - intros H.
    pose proof (matchNumber_skip s EmptyString H (or_intror eq_refl)) as E.
    now rewrite append_nil_r in E.
Qed.

(** *** The value of an integer token *)

Lemma digit_not_space (c : ascii) : isDigit c = true -> isWhiteSpace c = false.
Proof.
  unfold isDigit, isWhiteSpace. intros H.
  apply andb_true_iff in H as [H1 H2]. apply Z.leb_le in H1, H2.
  apply orb_false_iff. split; [ apply orb_false_iff; split | ].
  - apply andb_false_iff. right. apply Z.leb_gt. lia.
  - apply Z.eqb_neq. lia.
  - apply Z.eqb_neq. lia.
Qed.

Lemma trimEnd_digits (d : string) : digits d = true -> trimEnd d = d.
Proof.
  induction d as [ | c d IH ]; [ reflexivity | ].
  cbn. intros H. apply andb_true_iff in H as [Hc Hd].
  rewrite (IH Hd). destruct d; [ | reflexivity ].
  now rewrite (digit_not_space c Hc).
Qed.

Lemma trim_digits (d : string) : digits d = true -> trim d = d.
Proof.
  intros Hd. unfold trim. destruct d as [ | c d ]; [ reflexivity | ].
  pose proof Hd as Hd'. cbn in Hd'. apply andb_true_iff in Hd' as [Hc _].
  cbn [trimStart]. rewrite (digit_not_space c Hc). now apply trimEnd_digits.
Qed.

Lemma nonDecimal_digits (d : string) : digits d = true -> nonDecimal d = None.
Proof.
  destruct d as [ | c [ | p ds ] ]; try reflexivity.
  - now destruct c as [[] [] [] [] [] [] [] []].
  - cbn [digits allChars]. intros H.
    apply andb_true_iff in H as [_ H]. apply andb_true_iff in H as [Hp _].
    assert (Hx : Ascii.eqb p "x" || Ascii.eqb p "X" = false
                 /\ Ascii.eqb p "o" || Ascii.eqb p "O" = false
                 /\ Ascii.eqb p "b" || Ascii.eqb p "B" = false).
    { destruct p as [[] [] [] [] [] [] [] []]; try discriminate Hp; repeat split. }
    destruct Hx as (Hx & Ho & Hb). unfold nonDecimal.
    destruct c as [[] [] [] [] [] [] [] []]; try reflexivity.
    now rewrite Hx, Ho, Hb.
Qed.

Lemma unsignedDecimal_digits (d : string) :
  digits d = true -> d <> EmptyString ->
  unsignedDecimal d = Some (Some (scaled d EmptyString 0)).
Proof.
  intros Hd Hne. unfold unsignedDecimal.
  assert (Hinf : String.eqb d "Infinity" = false).
  { destruct d as [ | c d ]; [ reflexivity | ].
    cbn in Hd. apply andb_true_iff in Hd as [Hc _].
    destruct c as [[] [] [] [] [] [] [] []]; try discriminate Hc; reflexivity. }
  rewrite Hinf.
  pose proof (spanDigits_digits d EmptyString Hd eq_refl) as Hs.
  rewrite append_nil_r in Hs. rewrite Hs.
  destruct d; [ congruence | reflexivity ].
Qed.

(** A run of digits converts to the binary64 value nearest to the integer
    it denotes. *)
Lemma StringToNumber_digits (d : string) :
  digits d = true -> d <> EmptyString ->
  StringToNumber d
  = signed false (Some (Some (inject_Z (decimalValue d) * 1)%Q)).
Proof.
  intros Hd Hne. unfold StringToNumber. rewrite (trim_digits d Hd). cbv zeta.
  destruct d as [ | c d' ] eqn:E; [ congruence | ]. rewrite <- E in *.
  assert (Hc : isDigit c = true).
  { rewrite E in Hd. cbn in Hd. now apply andb_true_iff in Hd as [Hc _]. }
  assert (Hsign : Ascii.eqb c "+" = false /\ Ascii.eqb c "-" = false).
  { destruct c as [[] [] [] [] [] [] [] []]; try discriminate Hc; split; reflexivity. }
  destruct Hsign as [-> ->].
  rewrite nonDecimal_digits, unsignedDecimal_digits by assumption.
  unfold scaled. rewrite append_nil_r. reflexivity.
Qed.

Lemma String_Some (x : string) : String_ (Some x) = x.
Proof. reflexivity. Qed.

(** ** Genre resolution *)

(** The own properties of the letter map. *)
Lemma GENRE_MAP_lookup (k g : string) :
  Results.GENRE_MAP !! k = Some g <->
  (k, g) ∈ [ ("b", "BIO"); ("d", "DEV"); ("n", "PHI");
             ("p", "POE"); ("r", "RHE"); ("k", "THE") ]%string.
Proof.
  unfold Results.GENRE_MAP. rewrite !lookup_insert_Some, lookup_singleton_Some.
  rewrite !elem_of_cons, elem_of_nil.
  split.
  - intros H. repeat (destruct H as [ [<- <-] | [_ H] ]; [ tauto | ]).
    destruct H as [<- <-]. tauto.
  - intros H. repeat (destruct H as [ [= -> ->] | H ]; [ intuition congruence | ]).
    destruct H.
Qed.

Lemma find_firstWith {A : Type} (f : A -> bool) (l : list A) (x : A) :
  List.find f l = Some x <-> firstWith f l x.
Proof.
  unfold firstWith. induction l as [ | y l IH ]; cbn.
  - split; [ discriminate | ]. intros ([ | ? ?] & ? & ? & _); discriminate.
  - destruct (f y) eqn:Hy.
    + split.
      * intros [= <-]. exists [], l. auto.
      * intros (before & after & Hl & Hx & Hb).
        destruct before as [ | z before ]; [ now injection Hl as -> | ].
        injection Hl as <- _. apply Forall_cons in Hb as [Hz _]. congruence.
    + rewrite IH. split.
      * intros (before & after & -> & Hx & Hb).
        exists (y :: before), after. auto.
      * intros (before & after & Hl & Hx & Hb).
        destruct before as [ | z before ]; [ injection Hl as -> _; congruence | ].
        injection Hl as <- ->. apply Forall_cons in Hb as [_ Hb]. eauto.
Qed.

Lemma find_elem_of {A : Type} (f : A -> bool) (l : list A) (x : A) :
  List.find f l = Some x -> x ∈ l.
Proof. intros H. apply find_some in H as [H _]. now apply list_elem_of_In. Qed.

Lemma GENRES_nonempty (g : string) : g ∈ Results.GENRES -> g <> EmptyString.
Proof.
  unfold Results.GENRES. rewrite !elem_of_cons, elem_of_nil.
  intros H ->. intuition discriminate.
Qed.

Lemma GENRE_MAP_codes (k g : string) :
  Results.GENRE_MAP !! k = Some g -> g ∈ Results.GENRES.
Proof.
  rewrite GENRE_MAP_lookup. unfold Results.GENRES.
  rewrite !elem_of_cons, !elem_of_nil.
  intros H. repeat (destruct H as [ [= _ ->] | H ]; [ tauto | ]). destruct H.
Qed.



(** The DATA page resolves a genre with one scan of the six codes. *)
Lemma inferGenreValue_rule (row : RawRow) (genreCol : string) :
  let v := Data.norm (row !! genreCol) in
  Data.inferGenreValue row genreCol
  = if String.eqb v EmptyString then None
    else List.find (Data.matches (toUpperCase v)) Data.GENRES.
Proof.
  intros v. unfold Data.inferGenreValue. fold v.
  destruct (String.eqb v EmptyString); [ reflexivity | ].
  destruct (List.find _ _) as [ g | ] eqn:Hf; [ reflexivity | ].
  rewrite bool_decide_eq_false_2; [ reflexivity | ].
  intros Hin. apply list_elem_of_In in Hin.
  pose proof (find_none _ _ Hf _ Hin) as Hm.
  unfold Data.matches in Hm. now rewrite String.eqb_refl in Hm.
Qed.

Lemma inferGenreValue_closed (row : RawRow) (genreCol g : string) :
  Data.inferGenreValue row genreCol = Some g -> g ∈ Data.GENRES.
Proof.
  rewrite inferGenreValue_rule. cbv zeta.
  destruct (String.eqb _ _); [ discriminate | ]. apply find_elem_of.
Qed.

(** * Further properties of the scripts *)

(** ** The column resolver *)

Lemma firstWith_cons {A : Type} (f : A -> bool) (y : A) (l : list A) (x : A) :
  firstWith f (y :: l) x <->
  f y = true /\ x = y \/ f y = false /\ firstWith f l x.
Proof.
  unfold firstWith. split.
  - intros (before & after & E & Hx & Hb). destruct before as [ | z before ].
    + injection E as -> ->. now left.
    + injection E as -> ->. apply Forall_cons in Hb as [Hz Hb]. right.
      split; [ exact Hz | ]. now exists before, after.
  - intros [ [Hy ->] | (Hy & before & after & -> & Hx & Hb) ].
    + now exists [], l.
    + exists (y :: before), after. repeat split; [ exact Hx | ].
      now apply Forall_cons.
Qed.

Lemma find_None_existsb {A : Type} (f : A -> bool) (l : list A) :
  List.find f l = None <-> existsb f l = false.
Proof.
  induction l as [ | y l IH ]; cbn; [ tauto | ].
  destruct (f y); cbn; [ split; discriminate | exact IH ].
Qed.

Lemma existsb_false_elem_of {A : Type} (f : A -> bool) (l : list A) :
  existsb f l = false <-> forall x, x ∈ l -> f x = false.
Proof.
  induction l as [ | y l IH ]; cbn.
  - split; [ intros _ x Hx; now apply elem_of_nil in Hx | reflexivity ].
  - rewrite orb_false_iff, IH. split.
    + intros [Hy Hl] x Hx. apply elem_of_cons in Hx as [ -> | Hx ]; auto.
    + intros H. split; [ apply H; left | intros x Hx; apply H; now right ].
Qed.

(** Searching the normalised headers is searching the headers. *)
Lemma find_cols (f : string -> bool) (columns : list string) :
  List.find (fun c => f (snd c)) (Columns.cols columns)
  = (fun h => (h, Columns.lower h)) <$> List.find (fun h => f (Columns.lower h)) columns.
Proof.
  unfold Columns.cols. induction columns as [ | h columns IH ]; cbn; [ reflexivity | ].
  destruct (f (Columns.lower h)); [ reflexivity | exact IH ].
Qed.

Section Resolver.
Variable test : string -> string -> bool.
Variable columns : list string.

(** One turn of the loop over the candidates. *)
Let turn (cand : string) : option string :=
  List.find (fun h => test (Columns.lower h) cand) columns.

Lemma resolved_cons_hit (cand : string) (rest : list string) (h0 h : string) :
  turn cand = Some h0 ->
  resolved test columns (cand :: rest) h <-> h = h0.
Proof.
  intros Hhit. unfold resolved.
  assert (He : existsb (fun h => test (Columns.lower h) cand) columns = true).
  { destruct (existsb _ columns) eqn:E; [ reflexivity | ].
    apply find_None_existsb in E. unfold turn in Hhit. congruence. }
  split.
  - intros (cand' & Hc & Hh). apply firstWith_cons in Hc as [ [_ ->] | [Hf _] ].
    + apply find_firstWith in Hh. unfold turn in Hhit. congruence.
    + congruence.
  - intros ->. exists cand. split.
    + apply firstWith_cons. now left.
    + now apply find_firstWith.
Qed.

Lemma resolved_cons_miss (cand : string) (rest : list string) (h : string) :
  turn cand = None ->
  resolved test columns (cand :: rest) h <-> resolved test columns rest h.
Proof.
  intros Hmiss. apply find_None_existsb in Hmiss. unfold resolved.
  split; intros (cand' & Hc & Hh); exists cand'; (split; [ | exact Hh ]).
  - apply firstWith_cons in Hc as [ [Ht _] | [_ Hc] ]; [ congruence | exact Hc ].
  - apply firstWith_cons. right. now split.
Qed.

Lemma unresolved_cons (cand : string) (rest : list string) :
  (forall c h, c ∈ cand :: rest -> h ∈ columns -> test (Columns.lower h) c = false)
  <-> turn cand = None
      /\ (forall c h, c ∈ rest -> h ∈ columns -> test (Columns.lower h) c = false).
Proof.
  unfold turn. rewrite find_None_existsb, existsb_false_elem_of. split.
  - intros H. split; [ intros h Hh; apply H; [ left | exact Hh ] | ].
    intros c h Hc Hh. apply H; [ now right | exact Hh ].
  - intros [H1 H2] c h Hc Hh. apply elem_of_cons in Hc as [ -> | Hc ]; auto.
Qed.
End Resolver.

Lemma findColumn_resolved (columns candidates : list string) :
  (forall h, Columns.findColumn columns candidates = Some h <->
             resolved (fun low cand => String.eqb low (toLowerCase cand))
                      columns candidates h)
  /\ (Columns.findColumn columns candidates = None <->
      forall cand h, cand ∈ candidates -> h ∈ columns ->
                     String.eqb (Columns.lower h) (toLowerCase cand) = false).
Proof.
  induction candidates as [ | cand rest [IH1 IH2] ].
  - split.
    + intros h. split; [ discriminate | ].
      intros (c & ([ | ? ?] & ? & ? & _) & _); discriminate.
    + split; [ | reflexivity ]. intros _ c h Hc. now apply elem_of_nil in Hc.
  - cbn [Columns.findColumn].
    rewrite (find_cols (fun low => String.eqb low (toLowerCase cand))).
    pose proof (unresolved_cons
                  (fun low cand => String.eqb low (toLowerCase cand))
                  columns cand rest) as U.
    cbv beta in U. rewrite U. clear U.
    destruct (List.find _ columns) as [ h0 | ] eqn:E; cbn.
    + split.
      * intros h. rewrite resolved_cons_hit by exact E.
        split; [ now intros [= ->] | now intros -> ].
      * split; [ discriminate | ]. intros [H _]. discriminate.
    + split.
      * intros h. rewrite resolved_cons_miss by exact E. apply IH1.
      * rewrite IH2. tauto.
Qed.

Lemma findColumnFuzzy_resolved (columns includesAny : list string) :
  (forall h, Columns.findColumnFuzzy columns includesAny = Some h <->
             resolved (fun low inc => includes low (toLowerCase inc))
                      columns includesAny h)
  /\ (Columns.findColumnFuzzy columns includesAny = None <->
      forall inc h, inc ∈ includesAny -> h ∈ columns ->
                    includes (Columns.lower h) (toLowerCase inc) = false).
Proof.
  induction includesAny as [ | inc rest [IH1 IH2] ].
  - split.
    + intros h. split; [ discriminate | ].
      intros (c & ([ | ? ?] & ? & ? & _) & _); discriminate.
    + split; [ | reflexivity ]. intros _ c h Hc. now apply elem_of_nil in Hc.
  - cbn [Columns.findColumnFuzzy].
    rewrite (find_cols (fun low => includes low (toLowerCase inc))).
    pose proof (unresolved_cons
                  (fun low inc => includes low (toLowerCase inc))
                  columns inc rest) as U.
    cbv beta in U. rewrite U. clear U.
    destruct (List.find _ columns) as [ h0 | ] eqn:E; cbn.
    + split.
      * intros h. rewrite resolved_cons_hit by exact E.
        split; [ now intros [= ->] | now intros -> ].
      * split; [ discriminate | ]. intros [H _]. discriminate.
    + split.
      * intros h. rewrite resolved_cons_miss by exact E. apply IH1.
      * rewrite IH2. tauto.
Qed.

(** X1: both resolvers try their candidates in order and return the first
    header that passes the test of the first candidate some header passes
    (equality of the normalised header with the lower-cased candidate for
    [findColumn], containment for [findColumnFuzzy]); they return [null]
    exactly when no header passes the test of any candidate. *)
Theorem resolver_first_match (columns candidates : list string) :
  (forall h, Columns.findColumn columns candidates = Some h <->
             resolved (fun low cand => String.eqb low (toLowerCase cand))
                      columns candidates h)
  /\ (Columns.findColumn columns candidates = None <->
      forall cand h, cand ∈ candidates -> h ∈ columns ->
                     Columns.lower h <> toLowerCase cand)
  /\ (forall h, Columns.findColumnFuzzy columns candidates = Some h <->
                resolved (fun low inc => includes low (toLowerCase inc))
                         columns candidates h)
  /\ (Columns.findColumnFuzzy columns candidates = None <->
      forall inc h, inc ∈ candidates -> h ∈ columns ->
                    includes (Columns.lower h) (toLowerCase inc) = false).
Proof.
  destruct (findColumn_resolved columns candidates) as [E1 E2].
  destruct (findColumnFuzzy_resolved columns candidates) as [F1 F2].
  repeat split; try apply E1; try apply F1; try apply F2.
  - intros HN cand h Hc Hh. apply String.eqb_neq. now apply E2.
  - intros H. apply E2. intros cand h Hc Hh. apply String.eqb_neq. now apply H.
Qed.

(** ** Detection of the columns *)

Lemma prefix_refl (s : string) : String.prefix s s = true.
Proof.
  induction s as [ | c s IH ]; cbn; [ reflexivity | ].
  destruct (ascii_dec c c); [ exact IH | congruence ].
Qed.

Lemma includes_refl (s : string) : includes s s = true.
Proof. destruct s; [ reflexivity | ]. cbn [includes]. now rewrite prefix_refl. Qed.

Lemma includes_nonempty (s t : string) :
  includes s t = true -> t <> EmptyString -> s <> EmptyString.
Proof. intros H Ht ->. destruct t; [ congruence | discriminate ]. Qed.

Lemma toLowerCase_nonempty (s : string) :
  s <> EmptyString -> toLowerCase s <> EmptyString.
Proof. destruct s; [ congruence | discriminate ]. Qed.

Lemma lower_nonempty (h : string) : Columns.lower h <> EmptyString -> h <> EmptyString.
Proof. intros H ->. now apply H. Qed.

Lemma detected_Some (h : string) : h <> EmptyString -> detected (Some h) = Some h.
Proof. destruct h; [ congruence | reflexivity ]. Qed.

Lemma detected_nonempty (col : option string) (h : string) :
  detected col = Some h -> col = Some h /\ h <> EmptyString.
Proof. destruct col as [ [ | c s ] | ]; cbn; intros [= <-]; now split. Qed.

Lemma mentions_false (columns incs : list string) :
  mentions columns incs = false <->
  forall inc h, inc ∈ incs -> h ∈ columns ->
                includes (Columns.lower h) (toLowerCase inc) = false.
Proof.
  unfold mentions. rewrite existsb_false_elem_of. split.
  - intros H inc h Hi Hh. specialize (H h Hh).
    rewrite existsb_false_elem_of in H. now apply H.
  - intros H h Hh. apply existsb_false_elem_of. intros inc Hi. now apply H.
Qed.

(** [a || b] is falsy exactly when both are. *)
Lemma detected_orColumn (a b : option string) :
  detected (Columns.orColumn a b) = None <-> detected a = None /\ detected b = None.
Proof.
  unfold Columns.orColumn. destruct (detected a) as [ x | ] eqn:Ea.
  - apply detected_nonempty in Ea as [_ Hx]. rewrite detected_Some by exact Hx.
    split; [ discriminate | intros [? _]; discriminate ].
  - tauto.
Qed.

Lemma fuzzy_detected (columns fuzzy : list string) :
  Forall (fun inc => inc <> EmptyString) fuzzy ->
  detected (Columns.findColumnFuzzy columns fuzzy) = None <->
  mentions columns fuzzy = false.
Proof.
  intros Hne. rewrite mentions_false.
  destruct (findColumnFuzzy_resolved columns fuzzy) as [F1 F2]. rewrite <- F2.
  split; [ | now intros -> ].
  destruct (Columns.findColumnFuzzy columns fuzzy) as [ h | ]; [ | reflexivity ].
  destruct (proj1 (F1 h) eq_refl) as (inc & Hinc & Hh).
  destruct Hinc as (b1 & a1 & -> & _ & _). destruct Hh as (b2 & a2 & _ & Hh & _).
  assert (Hi : inc <> EmptyString).
  { rewrite Forall_forall in Hne. apply Hne.
    rewrite elem_of_app, elem_of_cons. auto. }
  pose proof (lower_nonempty _ (includes_nonempty _ _ Hh (toLowerCase_nonempty _ Hi)))
    as Hhne.
  rewrite detected_Some by exact Hhne. discriminate.
Qed.

(** No exact candidate is met when every one of them contains a string
    that no header contains. *)
Lemma exact_undetected (columns exact fuzzy : list string) :
  Forall (fun cand =>
            existsb (fun inc => includes (toLowerCase cand) (toLowerCase inc)) fuzzy
            = true) exact ->
  mentions columns fuzzy = false ->
  Columns.findColumn columns exact = None.
Proof.
  intros Hcover HF. rewrite mentions_false in HF.
  apply (findColumn_resolved columns exact).
  intros cand h Hc Hh. apply String.eqb_neq. intros Heq.
  rewrite Forall_forall in Hcover. specialize (Hcover cand Hc).
  apply existsb_exists in Hcover as (inc & Hi & Hinc).
  apply list_elem_of_In in Hi. rewrite <- Heq in Hinc.
  specialize (HF inc h Hi Hh). congruence.
Qed.

(** When every exact candidate contains one of the strings of the fuzzy
    search, a column is detected exactly when some header contains one of
    those strings. *)
Lemma resolve_detected (columns exact fuzzy : list string) :
  Forall (fun inc => inc <> EmptyString) fuzzy ->
  Forall (fun cand =>
            existsb (fun inc => includes (toLowerCase cand) (toLowerCase inc)) fuzzy
            = true) exact ->
  detected (Columns.resolve columns exact fuzzy) = None <->
  mentions columns fuzzy = false.
Proof.
  intros Hne Hcover. unfold Columns.resolve.
  rewrite detected_orColumn, (fuzzy_detected _ _ Hne). split; [ tauto | ].
  intros HF. split; [ | exact HF ].
  now rewrite (exact_undetected _ _ _ Hcover HF).
Qed.

Ltac detect :=
  apply resolve_detected;
  [ repeat constructor; discriminate | repeat constructor ].

Lemma results_genreCol (columns : list string) :
  detected (ResultsScript.genreCol columns) = None <->
  mentions columns [ "genre" ]%string = false.
Proof. detect. Qed.

Lemma results_loveCol (columns : list string) :
  detected (ResultsScript.loveCol columns) = None <->
  mentions columns [ "boc_final_0_2"; "boc_final" ]%string = false.
Proof. detect. Qed.

Lemma results_dateCol (columns : list string) :
  detected (ResultsScript.dateCol columns) = None <->
  mentions columns [ "date"; "century" ]%string = false.
Proof. detect. Qed.

(** X2: the results page stops with the missing-columns error exactly when
    no header contains [genre], or none contains [boc_final_0_2] or
    [boc_final], or none contains [date] or [century], whatever the case
    of the headers and the white space around them; otherwise it goes on
    to build the rows from the detected columns. *)
Theorem results_missing_columns (d3_mean : list Q -> option Q)
    (columns : list string) (raw : list RawRow) :
  (exists g l d,
      ResultsScript.script d3_mean columns raw = ResultsScript.MissingColumns g l d)
  <-> mentions columns [ "genre" ]%string = false
      \/ mentions columns [ "boc_final_0_2"; "boc_final" ]%string = false
      \/ mentions columns [ "date"; "century" ]%string = false.
Proof.
  rewrite <- results_genreCol, <- results_loveCol, <- results_dateCol.
  unfold ResultsScript.script.
  destruct (detected (ResultsScript.genreCol columns)) as [ g | ];
    destruct (detected (ResultsScript.loveCol columns)) as [ l | ];
    destruct (detected (ResultsScript.dateCol columns)) as [ d | ];
    (split; [ intros (g' & l' & d' & H); try discriminate; tauto | ]);
    intros H; try (do 3 eexists; reflexivity).
  destruct H as [ H | [ H | H ] ]; discriminate.
Qed.

(** X3: the DATA page stops with the no-genre-column message exactly when
    no header contains [genre]; the century and year columns are
    optional. *)
Theorem data_missing_genre_column (columns : list string) (raw : list RawRow) :
  DataScript.script columns raw = DataScript.NoGenreColumn
  <-> mentions columns [ "genre" ]%string = false.
Proof.
  assert (H : detected (DataScript.genreCol columns) = None <->
              mentions columns [ "genre" ]%string = false) by detect.
  rewrite <- H. unfold DataScript.script.
  destruct (detected (DataScript.genreCol columns)); split; congruence.
Qed.

Lemma results2_loveCol (columns : list string) :
  detected (Results2Script.loveCol columns) = None <->
  mentions columns [ "boc_final"; "love"; "index" ]%string = false.
Proof.
  unfold Results2Script.loveCol. rewrite !detected_orColumn.
  rewrite fuzzy_detected by (repeat constructor; discriminate).
  split; [ tauto | ]. intros HF.
  assert (E : forall exact,
             Forall (fun cand =>
                       existsb (fun inc => includes (toLowerCase cand) (toLowerCase inc))
                         [ "boc_final"; "love"; "index" ]%string = true) exact ->
             detected (Columns.findColumn columns exact) = None).
  { intros exact Hc. now rewrite (exact_undetected _ _ _ Hc HF). }
  repeat split; [ apply E | apply E | exact HF ]; repeat constructor.
Qed.

(** X12: the page with the window 1..15 is stricter about the genre
    column: it stops with the missing-columns error exactly when no header
    contains [genrecode] and none contains [genrelabel], or none contains
    [boc_final], [love] or [index], or none contains [date]. *)
Theorem results2_missing_columns (d3_mean : list Q -> option Q)
    (columns : list string) (raw : list RawRow) :
  (exists g d l,
      Results2Script.script d3_mean columns raw
      = Results2Script.MissingColumns g d l)
  <-> mentions columns [ "genrecode" ]%string = false
      /\ mentions columns [ "genrelabel" ]%string = false
      \/ mentions columns [ "boc_final"; "love"; "index" ]%string = false
      \/ mentions columns [ "date" ]%string = false.
Proof.
  assert (Hg : detected (Results2Script.genreCol columns) = None <->
               mentions columns [ "genrecode" ]%string = false
               /\ mentions columns [ "genrelabel" ]%string = false).
  { unfold Results2Script.genreCol. rewrite detected_orColumn.
    assert (H1 : detected (Results2Script.genreCodeCol columns) = None <->
                 mentions columns [ "genrecode" ]%string = false) by detect.
    assert (H2 : detected (Results2Script.genreLabelCol columns) = None <->
                 mentions columns [ "genrelabel" ]%string = false) by detect.
    now rewrite H1, H2. }
  assert (Hd : detected (Results2Script.dateCol columns) = None <->
               mentions columns [ "date" ]%string = false) by detect.
  rewrite <- Hg, <- results2_loveCol, <- Hd.
  unfold Results2Script.script.
  destruct (detected (Results2Script.genreCol columns)) as [ g | ];
    destruct (detected (Results2Script.loveCol columns)) as [ l | ];
    destruct (detected (Results2Script.dateCol columns)) as [ d | ];
    (split; [ intros (g' & d' & l' & H); try discriminate; tauto | ]);
    intros H; try (do 3 eexists; reflexivity).
  destruct H as [ H | [ H | H ] ]; discriminate.
Qed.

(** ** The hash and the scatter *)

(** X4: the hash of any string is a number of [0, 1), as the comment of
    [hashToUnit] says. *)
Theorem hashToUnit_unit_interval (str : string) :
  (0 <= Results.hashToUnit str < 1)%Q.
Proof.
  unfold Results.hashToUnit, Results.hashUnits.
  pose proof (ToUint32_range (Results.hashLoop 2166136261 (charCodes str))) as H.
  change (2 ^ 32)%Z with 4294967296%Z in H.
  unfold Qle, Qlt. cbn [Qnum Qden]. lia.
Qed.

Lemma filter_iff_elem_of {A : Type} (P1 P2 : A -> Prop)
    `{forall x, Decision (P1 x)} `{forall x, Decision (P2 x)} (l : list A) :
  (forall x, x ∈ l -> P1 x <-> P2 x) -> filter P1 l = filter P2 l.
Proof.
  induction l as [ | y l IH ]; intros Hl; [ reflexivity | ].
  rewrite !filter_cons.
  rewrite IH by (intros x Hx; apply Hl; now right).
  pose proof (Hl y ltac:(left)) as Hy.
  destruct (decide (P1 y)), (decide (P2 y)); tauto.
Qed.

Lemma rows_century_range (genreCol dateCol loveCol : string)
    (titleCol authorCol uriCol : option string)
    (raw : list RawRow) (rec : Results.row Q) :
  rec ∈ Results.rows genreCol dateCol loveCol titleCol authorCol uriCol raw ->
  (1 <= Results.century rec <= 30)%Z.
Proof.
  intros Hin. apply list_elem_of_omap in Hin as (r & _ & Hr).
  apply Results_buildRow_inv in Hr as (l & _ & Hc & _).
  rewrite inferCenturyFromDate_unfold in Hc.
  now apply inferCenturyFromValue_range in Hc.
Qed.

(** X5: on the page with the fixed scatter, the year filter of the
    scatter and of the spotlights keeps exactly the rows of the centuries
    up to 15: the rows of the centuries 16 to 30, which the builder lets
    through, are the ones that are not drawn. *)
Theorem scatter_keeps_centuries_to_15 (genreCol dateCol loveCol : string)
    (titleCol authorCol uriCol : option string) (raw : list RawRow) :
  let rows := Results.rows genreCol dateCol loveCol titleCol authorCol uriCol raw in
  ResultsScript.scatterRows rows
  = filter (fun d => (Results.century d <= 15)%Z) rows
  /\ ResultsScript.spotlightRows ResultsScript.SCATTER_X_MAX rows
     = filter (fun d => (Results.century d <= 15)%Z) rows.
Proof.
  intros rows.
  assert (H : forall d, d ∈ rows ->
                (1 <= Results.year d)%Z /\ (Results.year d <= 1500)%Z
                <-> (Results.century d <= 15)%Z).
  { intros d Hd. pose proof (rows_century_range _ _ _ _ _ _ _ _ Hd) as Hc.
    apply rows_year_in_century in Hd as [_ Hy]. lia. }
  split; apply filter_iff_elem_of; exact H.
Qed.

(** ** The spotlights *)

Section SpotlightLists.
Context {A : Type}.
Variable love : A -> Q.

(** The order of the sorted rows: a row comes before the rows of a lower
    or equal index. *)
Let descending (a b : A) : Prop := (love b <= love a)%Q.
Let ascending (a b : A) : Prop := (love a <= love b)%Q.

Lemma insert_permutation (before : A -> A -> bool) (x : A) (l : list A) :
  Spotlights.insert before x l ≡ₚ x :: l.
Proof.
  induction l as [ | y l IH ]; cbn; [ reflexivity | ].
  destruct (before x y); [ reflexivity | ].
  rewrite IH. apply Permutation_swap.
Qed.

Lemma sort_permutation (before : A -> A -> bool) (l : list A) :
  Spotlights.sort before l ≡ₚ l.
Proof.
  induction l as [ | x l IH ]; cbn; [ reflexivity | ].
  rewrite insert_permutation. now rewrite IH.
Qed.

Lemma insert_descending (x : A) (l : list A) :
  StronglySorted descending l ->
  StronglySorted descending
    (Spotlights.insert (Spotlights.byLoveDescending love) x l).
Proof.
  induction l as [ | y l IH ]; intros Hs; cbn.
  - repeat constructor.
  - apply StronglySorted_inv in Hs as [Hl Hy].
    unfold Spotlights.byLoveDescending at 1.
    destruct (Qle_bool (love y) (love x)) eqn:Hxy.
    + apply Qle_bool_iff in Hxy. constructor.
      * now constructor.
      * constructor; [ exact Hxy | ].
        eapply Forall_impl; [ exact Hy | ].
        intros z Hz. unfold descending in *. lra.
    + assert (Hlt : (love x < love y)%Q).
      { apply Qnot_le_lt. intros H. apply Qle_bool_iff in H. congruence. }
      constructor; [ now apply IH | ].
      rewrite insert_permutation. constructor; [ | exact Hy ].
      unfold descending. lra.
Qed.

Lemma sorted_descending (rows : list A) :
  StronglySorted descending (Spotlights.sorted love rows).
Proof.
  unfold Spotlights.sorted. induction rows as [ | x l IH ]; cbn.
  - constructor.
  - now apply insert_descending.
Qed.

Lemma insert_stable (v : Q) (x : A) (l : list A) :
  filter (fun r => Qeq_bool (love r) v = true)
    (Spotlights.insert (Spotlights.byLoveDescending love) x l)
  = filter (fun r => Qeq_bool (love r) v = true) (x :: l).
Proof.
  induction l as [ | y l IH ]; cbn [Spotlights.insert]; [ reflexivity | ].
  unfold Spotlights.byLoveDescending at 1.
  destruct (Qle_bool (love y) (love x)) eqn:Hxy; [ reflexivity | ].
  assert (Hlt : (love x < love y)%Q).
  { apply Qnot_le_lt. intros H. apply Qle_bool_iff in H. congruence. }
  rewrite (filter_cons _ y), IH, !filter_cons.
  destruct (decide (Qeq_bool (love y) v = true)) as [ Hy | Hy ];
    destruct (decide (Qeq_bool (love x) v = true)) as [ Hx | Hx ];
    try reflexivity.
  apply Qeq_bool_iff in Hx, Hy. lra.
Qed.

(** X6: the sort of the spotlights rearranges the rows, puts them in
    descending order of the love index, and is stable: the rows of one
    love index stay in the order they had. *)
Theorem spotlights_sorted (rows : list A) :
  Spotlights.sorted love rows ≡ₚ rows
  /\ StronglySorted (fun a b => (love b <= love a)%Q) (Spotlights.sorted love rows)
  /\ forall v : Q,
       filter (fun r => Qeq_bool (love r) v = true) (Spotlights.sorted love rows)
       = filter (fun r => Qeq_bool (love r) v = true) rows.
Proof.
  split; [ apply sort_permutation | ]. split; [ apply sorted_descending | ].
  intros v. unfold Spotlights.sorted. induction rows as [ | x l IH ]; cbn [Spotlights.sort].
  - reflexivity.
  - rewrite insert_stable, !filter_cons, IH. reflexivity.
Qed.

(** X7: the top list is the first five sorted rows and the bottom list the
    last five, lowest first; both hold five rows, or all of them when
    there are fewer.  No row outside the top list has a higher love index
    than a row in it, and no row outside the bottom list a lower one than
    a row in it.  With five rows or fewer the bottom list is the top list
    reversed. *)
Theorem spotlights_extremes (rows : list A) :
  let s := Spotlights.sorted love rows in
  let n := length rows in
  length (Spotlights.top love rows) = (5 `min` n)%nat
  /\ length (Spotlights.bottom love rows) = (5 `min` n)%nat
  /\ Spotlights.top love rows ++ drop 5 s = s
  /\ take (n - 5) s ++ reverse (Spotlights.bottom love rows) = s
  /\ (forall a b, a ∈ Spotlights.top love rows -> b ∈ drop 5 s ->
                  (love b <= love a)%Q)
  /\ (forall a b, a ∈ take (n - 5) s -> b ∈ Spotlights.bottom love rows ->
                  (love b <= love a)%Q)
  /\ StronglySorted (fun a b => (love b <= love a)%Q) (Spotlights.top love rows)
  /\ StronglySorted (fun a b => (love a <= love b)%Q) (Spotlights.bottom love rows)
  /\ ((n <= 5)%nat ->
      Spotlights.top love rows = s
      /\ Spotlights.bottom love rows = reverse (Spotlights.top love rows)).
Proof.
  intros s n. unfold Spotlights.top, Spotlights.bottom. fold s.
  assert (Hn : length s = n).
  { unfold s, Spotlights.sorted. now rewrite sort_permutation. }
  pose proof (sorted_descending rows) as Hs. fold s in Hs.
  rewrite Hn.
  assert (Hrev : forall l : list A,
             StronglySorted descending l -> StronglySorted ascending (reverse l)).
  { induction l as [ | x l IH ]; intros Hl; [ constructor | ].
    apply StronglySorted_inv in Hl as [Hl Hx]. rewrite reverse_cons.
    apply sorting.StronglySorted_app_2; [ | now apply IH | repeat constructor ].
    intros a b Ha Hb. rewrite elem_of_reverse in Ha.
    apply list_elem_of_singleton in Hb as ->.
    rewrite Forall_forall in Hx. exact (Hx a Ha). }
  repeat split.
  - rewrite length_take. lia.
  - rewrite length_reverse, length_drop. lia.
  - apply take_drop.
  - rewrite reverse_involutive. apply take_drop.
  - intros a b Ha Hb. rewrite <- (take_drop 5 s) in Hs.
    exact (sorting.StronglySorted_app_1_elem_of _ _ _ _ _ Hs Ha Hb).
  - intros a b Ha Hb. rewrite elem_of_reverse in Hb.
    rewrite <- (take_drop (n - 5) s) in Hs.
    exact (sorting.StronglySorted_app_1_elem_of _ _ _ _ _ Hs Ha Hb).
  - rewrite <- (take_drop 5 s) in Hs. now apply sorting.StronglySorted_app_1_l in Hs.
  - apply Hrev. rewrite <- (take_drop (n - 5) s) in Hs.
    now apply sorting.StronglySorted_app_1_r in Hs.
  - apply take_ge. lia.
  - replace (n - 5)%nat with 0%nat by lia. rewrite take_ge by lia. reflexivity.
Qed.
(** X24: when no two rows have the same love index, the spotlights do not
    depend on the order of the rows: any rearrangement of the rows gives
    the same sorted list, the same top list and the same bottom list. *)
Theorem spotlights_without_ties (rows rows' : list A) :
  rows ≡ₚ rows' ->
  (forall a b, a ∈ rows -> b ∈ rows -> (love a == love b)%Q -> a = b) ->
  Spotlights.sorted love rows = Spotlights.sorted love rows'
  /\ Spotlights.top love rows = Spotlights.top love rows'
  /\ Spotlights.bottom love rows = Spotlights.bottom love rows'.
Proof.
  intros Hp Hties.
  assert (E : Spotlights.sorted love rows = Spotlights.sorted love rows').
  { apply (sorting.StronglySorted_unique_strong descending).
    - intros a b Ha Hb Hab Hba. apply Hties.
      + unfold Spotlights.sorted in Ha. now rewrite sort_permutation in Ha.
      + unfold Spotlights.sorted in Hb. rewrite sort_permutation in Hb.
        now rewrite Hp.
      + unfold descending in *. lra.
    - apply sorted_descending.
    - apply sorted_descending.
    - unfold Spotlights.sorted. now rewrite !sort_permutation. }
  unfold Spotlights.top, Spotlights.bottom. now rewrite E.
Qed.
End SpotlightLists.

(** Three records of distinct love indices, in either order. *)
Lemma spotlights_without_ties_witness :
  Spotlights.top Results.love threeRecords
  = Spotlights.top Results.love (reverse threeRecords).
Proof.
  refine (proj1 (proj2 (spotlights_without_ties Results.love threeRecords
                          (reverse threeRecords) _ _))).
  - symmetry. apply reverse_Permutation.
  - intros a b Ha Hb Heq. unfold threeRecords in Ha, Hb.
    repeat (apply elem_of_cons in Ha as [ -> | Ha ]);
      try (now apply elem_of_nil in Ha);
      repeat (apply elem_of_cons in Hb as [ -> | Hb ]);
      try (now apply elem_of_nil in Hb);
      try reflexivity; exfalso; revert Heq; unfold Qeq; cbn; discriminate.
Defined.

(** ** The counts of the DATA page *)

Lemma countOf_cons {A K : Type} `{EqDecision K} (key : A -> K) (k : K)
    (r : A) (rows : list A) :
  countOf key k (r :: rows)
  = ((if decide (key r = k) then 1 else 0) + countOf key k rows)%nat.
Proof.
  unfold countOf. rewrite filter_cons. now destruct (decide (key r = k)).
Qed.

(** The counts of the keys of a list without repetition add up to the
    number of rows whose key is in the list. *)
Lemma countOf_partition {A K : Type} `{EqDecision K} (key : A -> K)
    (keys : list K) (rows : list A) :
  NoDup keys ->
  (forall r, r ∈ rows -> key r ∈ keys) ->
  sum_list ((fun k => countOf key k rows) <$> keys) = length rows.
Proof.
  intros Hnd. induction rows as [ | r rows IH ]; intros Hk.
  - clear Hnd Hk. induction keys as [ | k keys IHk ]; [ reflexivity | exact IHk ].
  - cbn [length]. rewrite <- IH by (intros x Hx; apply Hk; now right).
    specialize (Hk r ltac:(left)). clear IH.
    induction Hnd as [ | k keys Hnot Hnd IHk ]; [ now apply elem_of_nil in Hk | ].
    cbn [fmap list_fmap sum_list sum_list_with]. rewrite countOf_cons.
    change (list_fmap K nat ?f keys) with (f <$> keys).
    apply elem_of_cons in Hk as [ Hk | Hk ].
    + destruct (decide (key r = k)) as [ _ | ]; [ | congruence ].
      assert (E : (fun k0 => countOf key k0 (r :: rows)) <$> keys
                  = (fun k0 => countOf key k0 rows) <$> keys).
      { apply list_fmap_ext. intros _ k0 Hk0%list_elem_of_lookup_2.
        rewrite countOf_cons. destruct (decide (key r = k0)); [ | reflexivity ].
        congruence. }
      rewrite E. unfold id. lia.
    + destruct (decide (key r = k)) as [ E | _ ]; [ congruence | ].
      rewrite (IHk Hk). unfold id. lia.
Qed.

Lemma lookup_bump (g h : string) (m : gmap string nat) (n : nat) :
  m !! h = Some n ->
  Data.bump g m !! h = Some ((if decide (g = h) then 1 else 0) + n)%nat.
Proof.
  intros Hm. unfold Data.bump. destruct (decide (g = h)) as [ -> | Hne ].
  - now rewrite lookup_insert_eq, Hm.
  - now rewrite lookup_insert_ne.
Qed.

Lemma counts_from (m : gmap string nat) (rs : list Data.row) (g : string) (n : nat) :
  m !! g = Some n ->
  foldl (fun m r => Data.bump (Data.genre r) m) m rs !! g
  = Some (n + countOf Data.genre g rs)%nat.
Proof.
  revert m n. induction rs as [ | r rs IH ]; intros m n Hm; cbn [foldl].
  - unfold countOf. cbn. now rewrite Nat.add_0_r.
  - rewrite (IH _ _ (lookup_bump (Data.genre r) g m n Hm)), countOf_cons.
    f_equal. lia.
Qed.

Lemma Data_GENRES_NoDup : NoDup Data.GENRES.
Proof. apply (bool_decide_unpack _). vm_compute. reflexivity. Qed.

Lemma zeroCounts_lookup (g : string) :
  g ∈ Data.GENRES -> Data.zeroCounts !! g = Some 0%nat.
Proof.
  intros Hg. unfold Data.zeroCounts. apply elem_of_list_to_map_1.
  - apply (bool_decide_unpack _). vm_compute. reflexivity.
  - apply list_elem_of_fmap. now exists g.
Qed.

Lemma countsByGenre_lookup (rs : list Data.row) (g : string) :
  g ∈ Data.GENRES ->
  Data.countsByGenre rs !! g = Some (countOf Data.genre g rs).
Proof.
  intros Hg. unfold Data.countsByGenre.
  now rewrite (counts_from _ rs g 0 (zeroCounts_lookup g Hg)).
Qed.

Lemma Data_rows_inv (genreCol : string) (centuryCol yearCol : option string)
    (raw : list RawRow) (rec : Data.row) :
  rec ∈ Data.rows genreCol centuryCol yearCol raw ->
  Data.genre rec ∈ Data.GENRES /\ (2 <= Data.century rec <= 15)%Z.
Proof.
  intros Hin. apply list_elem_of_omap in Hin as (r & _ & Hr).
  split; [ | now apply Data_buildRow_window in Hr ].
  unfold Data.buildRow in Hr.
  destruct (Data.inferGenreValue r genreCol) as [ g | ] eqn:Hg; [ | discriminate ].
  apply inferGenreValue_closed in Hg.
  match type of Hr with
  | match ?x with _ => _ end = _ => destruct x as [ c | ]; [ | discriminate ]
  end.
  destruct ((c <? 2)%Z || (15 <? c)%Z); [ discriminate | ].
  injection Hr as <-. exact Hg.
Qed.

Lemma sum_list_positive (l : list (string * nat)) :
  sum_list (snd <$> filter (fun d => (0 < snd d)%nat) l) = sum_list (snd <$> l).
Proof.
  induction l as [ | [k n] l IH ]; [ reflexivity | ].
  rewrite filter_cons. cbn [snd]. destruct (decide (0 < n)%nat) as [ Hn | Hn ].
  - cbn. cbn in IH. now rewrite IH.
  - cbn. cbn in IH. rewrite IH. lia.
Qed.

(** X8: the table of counts holds, for each of the six genres, the number
    of rows of that genre; the pie shows the genres that have a row, in
    the order of the genre list, and its total is the number of rows of
    the page. *)
Theorem pie_counts_every_row (genreCol : string) (centuryCol yearCol : option string)
    (raw : list RawRow) :
  let rs := Data.rows genreCol centuryCol yearCol raw in
  let es := DataScript.entries (Data.countsByGenre rs) in
  (forall g, g ∈ Data.GENRES ->
             Data.countsByGenre rs !! g = Some (countOf Data.genre g rs))
  /\ es = filter (fun d => (0 < snd d)%nat)
            ((fun k => (k, countOf Data.genre k rs)) <$> Data.GENRES)
  /\ DataScript.total es = (1 `max` length rs)%nat.
Proof.
  intros rs es.
  assert (Hes : es = filter (fun d => (0 < snd d)%nat)
                       ((fun k => (k, countOf Data.genre k rs)) <$> Data.GENRES)).
  { unfold es, DataScript.entries. f_equal. apply list_fmap_ext.
    intros _ k Hk%list_elem_of_lookup_2. now rewrite countsByGenre_lookup. }
  split; [ intros g Hg; now apply countsByGenre_lookup | ].
  split; [ exact Hes | ].
  unfold DataScript.total. rewrite Hes, sum_list_positive, <- list_fmap_compose.
  change (snd ∘ (fun k => (k, countOf Data.genre k rs)))
    with (fun k => countOf Data.genre k rs).
  rewrite countOf_partition.
  - destruct (length rs); reflexivity.
  - exact Data_GENRES_NoDup.
  - intros r Hr. now apply Data_rows_inv in Hr as [Hg _].
Qed.

(** The position of a century in a list without repetition. *)
Lemma zip_seq_lookup (cs : list Z) (k : nat) (c : Z) (i : nat) :
  NoDup cs ->
  (list_to_map (zip cs (seq k (length cs))) : gmap Z nat) !! c = Some i
  <-> exists j, i = (k + j)%nat /\ cs !! j = Some c.
Proof.
  intros Hnd. revert k. induction Hnd as [ | c0 cs Hnot Hnd IH ]; intros k.
  - cbn. rewrite lookup_empty. split; [ discriminate | ]. now intros (j & _ & ?).
  - cbn [length seq zip zip_with list_to_map foldr uncurry].
    change (foldr _ ∅ ?l) with (list_to_map (M := gmap Z nat) l).
    cbn [fst snd].
    destruct (decide (c = c0)) as [ -> | Hne ].
    + rewrite lookup_insert_eq. split.
      * intros [= <-]. exists 0%nat. split; [ lia | reflexivity ].
      * intros ([ | j ] & -> & Hj); [ f_equal; lia | ].
        cbn in Hj. apply list_elem_of_lookup_2 in Hj. contradiction.
    + rewrite lookup_insert_ne by congruence. rewrite IH. split.
      * intros (j & -> & Hj). exists (S j). split; [ lia | exact Hj ].
      * intros ([ | j ] & -> & Hj); [ cbn in Hj; congruence | ].
        exists j. split; [ lia | exact Hj ].
Qed.

Lemma idx_lookup (c : Z) (i : nat) :
  Data.idx !! c = Some i <-> Data.centuries !! i = Some c.
Proof.
  unfold Data.idx. rewrite zip_seq_lookup by apply d3_range_NoDup. split.
  - now intros (j & -> & Hj).
  - intros Hi. now exists i.
Qed.

(** Adding a row adds one to its genre in the object of its century, and
    nowhere else. *)
Lemma addRow_fmap (data : list (Z * gmap string nat)) (r : Data.row) :
  fst <$> data = Data.centuries ->
  Data.addRow data r
  = (fun d => (fst d,
               if decide (Data.century r = fst d)
               then Data.bump (Data.genre r) (snd d) else snd d)) <$> data.
Proof.
  intros Hd. unfold Data.addRow.
  destruct (Data.idx !! Data.century r) as [ i | ] eqn:Hi.
  - apply idx_lookup in Hi. rewrite <- Hd in Hi.
    apply list_eq. intros j. rewrite list_lookup_alter, list_lookup_fmap.
    destruct (decide (i = j)) as [ <- | Hne ].
    + rewrite list_lookup_fmap in Hi.
      destruct (data !! i) as [ [c obj] | ]; [ | discriminate ].
      cbn in Hi. injection Hi as ->. cbn.
      destruct (decide (Data.century r = Data.century r)); [ reflexivity | congruence ].
    + destruct (data !! j) as [ [c obj] | ] eqn:Hj; [ | reflexivity ]. cbn.
      destruct (decide (Data.century r = c)) as [ <- | ]; [ | reflexivity ].
      exfalso. apply Hne.
      assert (Hnd : NoDup (fst <$> data)) by (rewrite Hd; apply d3_range_NoDup).
      eapply NoDup_lookup; [ exact Hnd | exact Hi | ].
      rewrite list_lookup_fmap, Hj. reflexivity.
  - symmetry. rewrite <- (list_fmap_id data) at 2. apply list_fmap_ext.
    intros j [c obj] Hj. cbn.
    destruct (decide (Data.century r = c)) as [ <- | ]; [ | reflexivity ].
    exfalso. assert (Hc : Data.century r ∈ Data.centuries).
    { rewrite <- Hd. apply list_elem_of_fmap. exists (Data.century r, obj).
      split; [ reflexivity | ]. now apply list_elem_of_lookup_2 in Hj. }
    apply list_elem_of_lookup_1 in Hc as (i & Hc). apply idx_lookup in Hc.
    congruence.
Qed.

Lemma foldl_addRow (rs : list Data.row) (data : list (Z * gmap string nat)) :
  fst <$> data = Data.centuries ->
  foldl Data.addRow data rs
  = (fun d => (fst d,
               foldl (fun m r => Data.bump (Data.genre r) m) (snd d)
                 (filter (fun r => Data.century r = fst d) rs))) <$> data.
Proof.
  revert data. induction rs as [ | r rs IH ]; intros data Hd; cbn [foldl].
  - rewrite <- (list_fmap_id data) at 1. apply list_fmap_ext. now intros j [c obj] _.
  - rewrite addRow_fmap by exact Hd. rewrite IH.
    + rewrite <- list_fmap_compose. apply list_fmap_ext. intros j [c obj] _.
      unfold compose. cbn [fst snd]. rewrite filter_cons.
      destruct (decide (Data.century r = c)); reflexivity.
    + rewrite <- list_fmap_compose, <- Hd. apply list_fmap_ext. now intros j [c obj] _.
Qed.

Lemma dataByCentury_fmap (rs : list Data.row) :
  Data.dataByCentury rs
  = (fun c => (c, Data.countsByGenre (filter (fun r => Data.century r = c) rs)))
      <$> Data.centuries.
Proof.
  unfold Data.dataByCentury. rewrite foldl_addRow.
  - rewrite <- list_fmap_compose. reflexivity.
  - rewrite <- list_fmap_compose. apply list_fmap_id.
Qed.

(** X9: the series of the line chart holds one object for each century
    from 2 to 15, in that order; its count for a genre is the number of
    rows of that century and genre; and every row of the page is counted
    in exactly one cell, so the counts of all cells add up to the number
    of rows. *)
Theorem series_counts_every_row (genreCol : string)
    (centuryCol yearCol : option string) (raw : list RawRow) :
  let rs := Data.rows genreCol centuryCol yearCol raw in
  let cell (c : Z) (g : string) :=
    length (filter (fun r => Data.genre r = g)
              (filter (fun r => Data.century r = c) rs)) in
  fst <$> Data.dataByCentury rs = Data.centuries
  /\ (forall c obj g,
        (c, obj) ∈ Data.dataByCentury rs -> g ∈ Data.GENRES ->
        obj !! g = Some (cell c g))
  /\ sum_list
       ((fun d => sum_list ((fun g => default 0%nat (snd d !! g)) <$> Data.GENRES))
          <$> Data.dataByCentury rs)
     = length rs.
Proof.
  intros rs cell. rewrite dataByCentury_fmap.
  assert (Hrows : forall r, r ∈ rs ->
                    Data.genre r ∈ Data.GENRES /\ Data.century r ∈ Data.centuries).
  { intros r Hr. apply Data_rows_inv in Hr as [Hg Hc]. split; [ exact Hg | ].
    apply elem_of_d3_range. lia. }
  split; [ | split ].
  - rewrite <- list_fmap_compose. apply list_fmap_id.
  - intros c obj g Hin Hg. apply list_elem_of_fmap in Hin as (c' & [= -> ->] & _).
    now rewrite countsByGenre_lookup.
  - rewrite <- list_fmap_compose.
    rewrite <- (countOf_partition Data.century Data.centuries rs).
    + apply (f_equal sum_list). apply list_fmap_ext.
      intros _ c _. unfold compose. cbn [snd]. unfold countOf.
      rewrite <- (countOf_partition Data.genre Data.GENRES
                    (filter (fun r => Data.century r = c) rs)).
      * apply (f_equal sum_list). apply list_fmap_ext.
        intros _ g Hg%list_elem_of_lookup_2. now rewrite countsByGenre_lookup.
      * exact Data_GENRES_NoDup.
      * intros r Hr. apply list_elem_of_filter in Hr as [_ Hr].
        now apply Hrows.
    + apply d3_range_NoDup.
    + intros r Hr. now apply Hrows.
Qed.

(** X23: the line chart and the table of counts agree: for each of the six
    genres, the counts of the series over the centuries add up to the count
    of the table. *)
Theorem series_margins_are_counts (genreCol : string)
    (centuryCol yearCol : option string) (raw : list RawRow) :
  let rs := Data.rows genreCol centuryCol yearCol raw in
  Forall
    (fun g =>
       Some (sum_list ((fun d => default 0%nat (snd d !! g)) <$> Data.dataByCentury rs))
       = Data.countsByGenre rs !! g)
    Data.GENRES.
Proof.
  intros rs. apply Forall_forall. intros g Hg.
  rewrite (countsByGenre_lookup rs g Hg). f_equal.
  rewrite dataByCentury_fmap, <- list_fmap_compose.
  unfold countOf at 1.
  rewrite <- (countOf_partition Data.century Data.centuries
                (filter (fun r => Data.genre r = g) rs)).
  - apply (f_equal sum_list). apply list_fmap_ext. intros _ c _.
    unfold compose. cbn [snd]. rewrite (countsByGenre_lookup _ g Hg).
    unfold countOf. cbn [default from_option id]. rewrite !list_filter_filter.
    f_equal. apply list_filter_iff. intros r. tauto.
  - apply d3_range_NoDup.
  - intros r Hr. apply list_elem_of_filter in Hr as [_ Hr].
    apply Data_rows_inv in Hr as [_ Hc]. apply elem_of_d3_range. lia.
Qed.

(** ** The legend of the line chart *)

Lemma foldl_insert_lookup (f : string -> bool) (genres : list string)
    (m : gmap string bool) (x : string) :
  foldl (fun m gg => <[gg := f gg]> m) m genres !! x
  = if decide (x ∈ genres) then Some (f x) else m !! x.
Proof.
  revert m. induction genres as [ | g genres IH ]; intros m; cbn [foldl].
  - destruct (decide (x ∈ [])) as [ H | ]; [ now apply elem_of_nil in H | reflexivity ].
  - rewrite IH. destruct (decide (x ∈ genres)) as [ Hx | Hx ].
    + destruct (decide (x ∈ g :: genres)) as [ | Hn ]; [ reflexivity | ].
      exfalso. apply Hn. now right.
    + destruct (decide (x = g)) as [ -> | Hne ].
      * rewrite lookup_insert_eq.
        destruct (decide (g ∈ g :: genres)) as [ | Hn ]; [ reflexivity | ].
        exfalso. apply Hn. left.
      * rewrite lookup_insert_ne by congruence.
        destruct (decide (x ∈ g :: genres)) as [ H | ]; [ | reflexivity ].
        apply elem_of_cons in H as [ | ]; contradiction.
Qed.

Lemma allVisible_foldl (genres : list string) (m : gmap string bool) :
  (forall gg, gg ∉ genres -> m !! gg = None) ->
  foldl (fun m gg => <[gg := true]> m) m genres = DataScript.allVisible genres.
Proof.
  intros Hm. apply map_eq. intros x.
  rewrite (foldl_insert_lookup (fun _ => true)).
  unfold DataScript.allVisible.
  destruct (decide (x ∈ genres)) as [ Hx | Hx ].
  - symmetry. apply elem_of_list_to_map_1'.
    + intros y Hy. apply list_elem_of_fmap in Hy as (? & [= _ ->] & _). reflexivity.
    + apply list_elem_of_fmap. now exists x.
  - rewrite (Hm x Hx). symmetry. apply not_elem_of_list_to_map_1.
    rewrite <- list_fmap_compose. intros H.
    apply list_elem_of_fmap in H as (y & -> & Hy). contradiction.
Qed.

Lemma eqb_bool_decide (a b : string) : String.eqb a b = bool_decide (a = b).
Proof.
  destruct (decide (a = b)) as [ E | Hne ].
  - rewrite bool_decide_true by exact E. now apply String.eqb_eq.
  - rewrite bool_decide_false by exact Hne. now apply String.eqb_neq.
Qed.

Lemma currentlySolo_spec (genres : list string) (k : string)
    (visible : gmap string bool) :
  DataScript.currentlySolo genres k visible = true <->
  forall gg, gg ∈ genres ->
             DataScript.isVisible visible gg = bool_decide (gg = k).
Proof.
  unfold DataScript.currentlySolo. rewrite forallb_forall. split.
  - intros H gg Hg. apply list_elem_of_In in Hg. specialize (H gg Hg).
    cbv beta in H. rewrite eqb_bool_decide in H.
    destruct (bool_decide (gg = k)); [ exact H | now apply negb_true_iff ].
  - intros H gg Hg. apply list_elem_of_In in Hg. rewrite (H gg Hg).
    rewrite eqb_bool_decide. now destruct (bool_decide (gg = k)).
Qed.

(** X10: a double click on the legend row of [k] leaves the genre alone
    visible, unless it already is the only visible one, and then it shows
    every genre again.  So two double clicks on the same row end with
    every genre visible when [k] was not alone visible at first, and with
    [k] alone visible when it was; two double clicks from the initial
    state restore it.  Nothing but the entries of the genres is
    written. *)
Theorem legend_double_click (genres : list string) (k : string)
    (visible : gmap string bool) :
  let once := DataScript.dblclick genres k visible in
  let twice := DataScript.dblclick genres k once in
  (forall gg, gg ∉ genres -> once !! gg = visible !! gg)
  /\ (DataScript.currentlySolo genres k visible = true ->
      forall gg, gg ∈ genres -> once !! gg = Some true)
  /\ (DataScript.currentlySolo genres k visible = false ->
      (forall gg, gg ∈ genres -> once !! gg = Some (bool_decide (gg = k)))
      /\ DataScript.currentlySolo genres k once = true
      /\ forall gg, gg ∈ genres -> twice !! gg = Some true)
  /\ DataScript.dblclick genres k
       (DataScript.dblclick genres k (DataScript.allVisible genres))
     = DataScript.allVisible genres
  /\ (DataScript.currentlySolo genres k visible = true ->
      forall gg, gg ∈ genres -> twice !! gg = Some (bool_decide (gg = k))).
Proof.
  intros once twice.
  assert (Hsolo : forall v,
             DataScript.currentlySolo genres k v = false ->
             (forall gg, gg ∈ genres ->
                         DataScript.dblclick genres k v !! gg
                         = Some (bool_decide (gg = k)))
             /\ DataScript.currentlySolo genres k (DataScript.dblclick genres k v)
                = true).
  { intros v Hv.
    assert (H : forall gg, gg ∈ genres ->
                  DataScript.dblclick genres k v !! gg = Some (bool_decide (gg = k))).
    { intros gg Hg. unfold DataScript.dblclick. rewrite Hv.
      rewrite (foldl_insert_lookup (fun gg => String.eqb gg k)).
      rewrite decide_True by exact Hg. now rewrite eqb_bool_decide. }
    split; [ exact H | ]. apply currentlySolo_spec. intros gg Hg.
    unfold DataScript.isVisible. now rewrite (H gg Hg). }
  assert (Hall : forall v,
             DataScript.currentlySolo genres k v = true ->
             forall gg, gg ∈ genres ->
                        DataScript.dblclick genres k v !! gg = Some true).
  { intros v Hv gg Hg. unfold DataScript.dblclick. rewrite Hv.
    rewrite (foldl_insert_lookup (fun _ => true)). now rewrite decide_True. }
  split; [ | split; [ | split; [ | split ] ] ].
  - intros gg Hg. unfold once, DataScript.dblclick.
    destruct (DataScript.currentlySolo genres k visible).
    + rewrite (foldl_insert_lookup (fun _ => true)). now rewrite decide_False.
    + rewrite (foldl_insert_lookup (fun gg => String.eqb gg k)).
      now rewrite decide_False.
  - apply Hall.
  - intros Hv. destruct (Hsolo visible Hv) as [H1 H2].
    split; [ exact H1 | ]. split; [ exact H2 | ]. now apply Hall.
  - assert (Hkeys : forall gg, gg ∉ genres -> DataScript.allVisible genres !! gg = None).
    { intros gg Hg. unfold DataScript.allVisible. apply not_elem_of_list_to_map_1.
      rewrite <- list_fmap_compose. intros H.
      apply list_elem_of_fmap in H as (y & -> & Hy). contradiction. }
    assert (Hreset : forall v,
               (forall gg, gg ∉ genres -> v !! gg = None) ->
               DataScript.currentlySolo genres k v = true ->
               DataScript.dblclick genres k v = DataScript.allVisible genres).
    { intros v Hk Hv. unfold DataScript.dblclick. rewrite Hv.
      now apply allVisible_foldl. }
    destruct (DataScript.currentlySolo genres k (DataScript.allVisible genres)) eqn:E.
    + rewrite (Hreset _ Hkeys E). now apply Hreset.
    + apply Hreset; [ | now apply Hsolo ].
      intros gg Hg. unfold DataScript.dblclick. rewrite E.
      rewrite (foldl_insert_lookup (fun gg => String.eqb gg k)).
      rewrite decide_False by exact Hg. now apply Hkeys.
  - intros Hv gg Hg. pose proof (Hall visible Hv) as Hshown. fold once in Hshown.
    unfold twice.
    destruct (DataScript.currentlySolo genres k once) eqn:E.
    + rewrite (Hall once E gg Hg). f_equal.
      apply currentlySolo_spec with (gg := gg) in E; [ | exact Hg ].
      unfold DataScript.isVisible in E. rewrite (Hshown gg Hg) in E.
      exact E.
    + now apply (Hsolo once E).
Qed.

(** X11: a click on a legend row flips the visibility of its genre and of
    no other; two clicks on one row give back the visibility of every
    genre, and clicks on two rows have the same effect in either
    order. *)
Theorem legend_click (k h : string) (visible : gmap string bool) :
  DataScript.isVisible (DataScript.click k visible) k
  = negb (DataScript.isVisible visible k)
  /\ (forall gg, gg <> k ->
                 DataScript.click k visible !! gg = visible !! gg)
  /\ (forall gg,
        DataScript.isVisible (DataScript.click k (DataScript.click k visible)) gg
        = DataScript.isVisible visible gg)
  /\ DataScript.click k (DataScript.click h visible)
     = DataScript.click h (DataScript.click k visible).
Proof.
  assert (H1 : forall k v, DataScript.isVisible (DataScript.click k v) k
                           = negb (DataScript.isVisible v k)).
  { intros k' v. unfold DataScript.click, DataScript.isVisible at 1.
    now rewrite lookup_insert_eq. }
  assert (H2 : forall k v gg, gg <> k ->
                 DataScript.isVisible (DataScript.click k v) gg
                 = DataScript.isVisible v gg).
  { intros k' v gg Hne. unfold DataScript.click, DataScript.isVisible at 1 3.
    now rewrite lookup_insert_ne by congruence. }
  split; [ apply H1 | ]. split; [ | split ].
  - intros gg Hne. unfold DataScript.click. now rewrite lookup_insert_ne by congruence.
  - intros gg. destruct (decide (gg = k)) as [ -> | Hne ].
    + rewrite !H1. apply negb_involutive.
    + now rewrite !H2 by exact Hne.
  - destruct (decide (k = h)) as [ -> | Hne ]; [ reflexivity | ].
    unfold DataScript.click at 1 3.
    rewrite (H2 h visible k) by exact Hne.
    rewrite (H2 k visible h) by congruence.
    unfold DataScript.click. now apply insert_insert_ne.
Qed.

(** ** Trimming *)

Lemma trimEnd_idempotent (s : string) : trimEnd (trimEnd s) = trimEnd s.
Proof.
  induction s as [ | c s IH ]; [ reflexivity | ].
  cbn [trimEnd]. destruct (trimEnd s) as [ | d t ] eqn:E.
  - destruct (isWhiteSpace c) eqn:Hc; [ reflexivity | ].
    cbn [trimEnd]. now rewrite Hc.
  - cbn [trimEnd] in IH |- *. cbn [trimEnd]. rewrite IH. 
    destruct (trimEnd t); reflexivity.
Qed.

Lemma trimEnd_head (c : ascii) (s : string) :
  isWhiteSpace c = false -> exists t, trimEnd (String c s) = String c t.
Proof.
  intros Hc. cbn [trimEnd]. destruct (trimEnd s) as [ | d t ].
  - rewrite Hc. now exists EmptyString.
  - now exists (String d t).
Qed.

Lemma trimStart_head (s : string) :
  trimStart s = EmptyString
  \/ exists c t, trimStart s = String c t /\ isWhiteSpace c = false.
Proof.
  induction s as [ | c s IH ]; [ now left | ].
  cbn [trimStart]. destruct (isWhiteSpace c) eqn:Hc; [ exact IH | ].
  right. now exists c, s.
Qed.

Lemma trim_idempotent (s : string) : trim (trim s) = trim s.
Proof.
  unfold trim. destruct (trimStart_head s) as [ -> | (c & t & -> & Hc) ].
  - reflexivity.
  - destruct (trimEnd_head c t Hc) as (t' & E). rewrite E.
    cbn [trimStart]. rewrite Hc, <- E. apply trimEnd_idempotent.
Qed.

Lemma trimStart_blank (s : string) : blank s = true <-> trimStart s = EmptyString.
Proof.
  unfold blank. induction s as [ | c s IH ]; [ tauto | ].
  cbn [allChars trimStart]. destruct (isWhiteSpace c); cbn [andb]; [ exact IH | ].
  split; discriminate.
Qed.

Lemma trimEnd_nonempty (c : ascii) (s : string) :
  isWhiteSpace c = false -> trimEnd (String c s) <> EmptyString.
Proof. intros Hc. destruct (trimEnd_head c s Hc) as (t & ->). discriminate. Qed.

Lemma trim_blank (s : string) : blank s = true <-> trim s = EmptyString.
Proof.
  rewrite trimStart_blank. unfold trim.
  destruct (trimStart_head s) as [ -> | (c & t & -> & Hc) ]; [ tauto | ].
  split; [ discriminate | ]. intros H. now apply trimEnd_nonempty in H.
Qed.

Section Fields.
Variables genreCol dateCol loveCol : string.
Variables titleCol authorCol uriCol : option string.

Lemma field_trimmed (col : option string) (r : RawRow) :
  trimmed (Results.field col r).
Proof.
  unfold trimmed, Results.field, Results.norm.
  destruct (detected col); [ apply trim_idempotent | reflexivity ].
Qed.

(** X13: trimming is idempotent and leaves the empty string exactly for a
    cell of white space; so the title, the author and the identifier of
    every record of the results pages carry no white space at either
    end. *)
Theorem record_fields_trimmed (raw : list RawRow) :
  (forall s, trim (trim s) = trim s)
  /\ (forall s, trim s = EmptyString <-> blank s = true)
  /\ Forall (fun rec => trimmed (Results.title rec)
                        /\ trimmed (Results.author rec)
                        /\ trimmed (Results.uri rec))
       (Results.rows genreCol dateCol loveCol titleCol authorCol uriCol raw)
  /\ Forall (fun rec => trimmed (Results2.title rec)
                        /\ trimmed (Results2.author rec)
                        /\ trimmed (Results2.uri rec))
       (Results2.rows genreCol dateCol loveCol titleCol authorCol uriCol raw).
Proof.
  split; [ exact trim_idempotent | ].
  split; [ intros s; symmetry; apply trim_blank | ].
  split; apply Forall_forall; intros rec Hin;
    apply list_elem_of_omap in Hin as (r & _ & Hr).
  - unfold Results.buildRow in Hr.
    destruct (match Results.normalizeGenre (r !! genreCol) with
              | Some g => Some g
              | None => Results.normalizeGenre (r !! "GenreLabel"%string)
              end); [ | discriminate ].
    destruct (Results.inferCenturyFromDate _); [ | discriminate ].
    destruct (_ =? 0)%Z; [ discriminate | ].
    destruct (Results.coerceNumber _); [ | discriminate ].
    injection Hr as <-. cbn. repeat split; apply field_trimmed.
  - unfold Results2.buildRow in Hr.
    destruct (Results2.inferGenre r genreCol); [ | discriminate ].
    destruct (Results2.inferCenturyFromValue _); [ | discriminate ].
    destruct (_ =? 0)%Z; [ discriminate | ].
    destruct (_ || _); [ discriminate | ].
    destruct (Results2.coerceNumber (r !! loveCol)); [ | discriminate ].
    injection Hr as <-. cbn. repeat split; apply (field_trimmed _ r).
Qed.
End Fields.

(** ** Blank cells and clean integers *)

Lemma allChars_impl (p q : ascii -> bool) (s : string) :
  (forall c, p c = true -> q c = true) -> allChars p s = true -> allChars q s = true.
Proof.
  intros Hpq. induction s as [ | c s IH ]; [ reflexivity | ].
  cbn. intros H. apply andb_true_iff in H as [Hc Hs].
  now rewrite (Hpq c Hc), (IH Hs).
Qed.

Lemma allChars_app (p : ascii -> bool) (a b : string) :
  allChars p (a +:+ b) = allChars p a && allChars p b.
Proof.
  induction a as [ | c a IH ]; [ reflexivity | ].
  rewrite append_cons. cbn. now rewrite IH, andb_assoc.
Qed.

Lemma space_not_digit (c : ascii) : isWhiteSpace c = true -> isDigit c = false.
Proof.
  intros H. destruct (isDigit c) eqn:E; [ | reflexivity ].
  apply digit_not_space in E. congruence.
Qed.

Lemma space_not_punctuation (c : ascii) :
  isWhiteSpace c = true ->
  Ascii.eqb c "," = false /\ Ascii.eqb c "-" = false /\ Ascii.eqb c "." = false.
Proof.
  intros H. repeat split.
  all: destruct (Ascii.eqb_spec c ","), (Ascii.eqb_spec c "-"), (Ascii.eqb_spec c ".");
    subst; try reflexivity; discriminate H.
Qed.

Lemma digit_not_comma (c : ascii) : isDigit c = true -> Ascii.eqb c "," = false.
Proof.
  intros H. destruct (Ascii.eqb_spec c ","); [ subst; discriminate H | reflexivity ].
Qed.

Lemma blank_digitFree (s : string) : blank s = true -> digitFree s = true.
Proof.
  apply allChars_impl. intros c Hc. now rewrite (space_not_digit c Hc).
Qed.

Lemma blank_commaFree (s : string) : blank s = true -> commaFree s = true.
Proof.
  apply allChars_impl. intros c Hc.
  now rewrite (proj1 (space_not_punctuation c Hc)).
Qed.

Lemma digits_commaFree (s : string) : digits s = true -> commaFree s = true.
Proof.
  apply allChars_impl. intros c Hc. now rewrite (digit_not_comma c Hc).
Qed.

Section BlankCells.
Variables genreCol dateCol loveCol : string.
Variables titleCol authorCol uriCol : option string.

Lemma strict_blank (x : option string) :
  blank (String_ x) = true -> Results.coerceNumber x = Some 0%Q.
Proof.
  intros Hb. unfold Results.coerceNumber.
  rewrite (replaceComma_commaFree _ (blank_commaFree _ Hb)).
  apply trim_blank in Hb. unfold StringToNumber. rewrite trim_idempotent, Hb.
  reflexivity.
Qed.

Lemma token_blank (x : option string) :
  blank (String_ x) = true -> Results2.coerceNumber x = None.
Proof.
  intros Hb. unfold Results2.coerceNumber.
  assert (H : matchNumber (replaceComma (String_ x)) = None).
  { apply matchNumber_None. rewrite replaceComma_digitFree.
    now apply blank_digitFree. }
  now rewrite H.
Qed.

(** X14: a cell that is missing, empty or white space is the number 0
    for the strict coercion and absent for the token-extracting one.  On
    the strict results pages such a date resolves to no century, but such
    a love index does not drop the row: the record is built with the love
    index 0.  The page with the window 1..15 drops the row. *)
Theorem blank_cell_is_zero (r : RawRow) (col : string) :
  blank (String_ (r !! col)) = true ->
  Results.coerceNumber (r !! col) = Some 0%Q
  /\ Data.coerceNumber (r !! col) = Some 0%Q
  /\ Results2.coerceNumber (r !! col) = None
  /\ Results.inferCenturyFromDate (r !! col) = None
  /\ Data.inferCenturyValue r (Some col) = None
  /\ (forall rec,
        Results.buildRow genreCol dateCol col titleCol authorCol uriCol r = Some rec ->
        Results.love rec = 0%Q)
  /\ Results2.buildRow genreCol dateCol col titleCol authorCol uriCol r = None.
Proof.
  intros Hb. pose proof (strict_blank _ Hb) as Hs. pose proof (token_blank _ Hb) as Ht.
  split; [ exact Hs | ]. split; [ exact Hs | ]. split; [ exact Ht | ].
  split; [ unfold Results.inferCenturyFromDate; now rewrite Hs | ].
  split.
  { unfold Data.inferCenturyValue.
    destruct col as [ | c col' ]; [ reflexivity | ]. cbn [detected].
    change (Data.coerceNumber ?x) with (Results.coerceNumber x).
    now rewrite Hs. }
  split.
  - intros rec Hr. apply Results_buildRow_inv in Hr as (l & _ & _ & Hl & Hlove & _).
    rewrite Hs in Hl. injection Hl as <-. rewrite Hlove. reflexivity.
  - unfold Results2.buildRow. rewrite Ht.
    destruct (Results2.inferGenre r genreCol); [ | reflexivity ].
    destruct (Results2.inferCenturyFromValue _); [ | reflexivity ].
    destruct (_ =? 0)%Z; [ reflexivity | ]. now destruct (_ || _).
Qed.
End BlankCells.

(** The row with a blank love index is dropped by the page with the
    window 1..15. *)
Lemma blank_cell_is_zero_witness :
  blank (String_ (blankLoveRow !! "BoC_final_0_2"%string)) = true
  /\ Results.coerceNumber (blankLoveRow !! "BoC_final_0_2"%string) = Some 0%Q
  /\ Results2.buildRow "GenreCode" "date" "BoC_final_0_2" None None None blankLoveRow
     = None.
Proof.
  pose proof (blank_cell_is_zero "GenreCode" "date" None None None blankLoveRow
                "BoC_final_0_2" eq_refl) as H.
  split; [ reflexivity | ]. split; [ exact (proj1 H) | ].
  exact (proj2 (proj2 (proj2 (proj2 (proj2 (proj2 H)))))).
Defined.

Lemma trimStart_blank_app (a x : string) :
  blank a = true -> trimStart (a +:+ x) = trimStart x.
Proof.
  induction a as [ | c a IH ]; [ reflexivity | ].
  cbn [blank allChars]. intros H. apply andb_true_iff in H as [Hc Ha].
  rewrite append_cons. cbn [trimStart]. rewrite Hc. now apply IH.
Qed.

Lemma trimEnd_blank (b : string) : blank b = true -> trimEnd b = EmptyString.
Proof.
  induction b as [ | c b IH ]; [ reflexivity | ].
  cbn [blank allChars]. intros H. apply andb_true_iff in H as [Hc Hb].
  cbn [trimEnd]. rewrite (IH Hb). now rewrite Hc.
Qed.

Lemma trimEnd_digits_blank (d b : string) :
  digits d = true -> d <> EmptyString -> blank b = true -> trimEnd (d +:+ b) = d.
Proof.
  intros Hd Hne Hb. induction d as [ | c d IH ]; [ congruence | ].
  cbn [digits allChars] in Hd. apply andb_true_iff in Hd as [Hc Hd].
  rewrite append_cons. cbn [trimEnd]. destruct d as [ | c' d' ].
  - rewrite append_nil_l, (trimEnd_blank b Hb). now rewrite (digit_not_space c Hc).
  - now rewrite (IH Hd ltac:(discriminate)).
Qed.

Lemma trim_padded (a d b : string) :
  blank a = true -> digits d = true -> d <> EmptyString -> blank b = true ->
  trim (a +:+ d +:+ b) = d.
Proof.
  intros Ha Hd Hne Hb. unfold trim. rewrite (trimStart_blank_app a _ Ha).
  destruct d as [ | c d' ] eqn:E; [ congruence | ]. rewrite <- E in *.
  assert (Hc : isWhiteSpace c = false).
  { rewrite E in Hd. cbn in Hd. apply andb_true_iff in Hd as [Hc _].
    now apply digit_not_space. }
  assert (Hs : trimStart (d +:+ b) = d +:+ b).
  { rewrite E, append_cons. cbn [trimStart]. now rewrite Hc. }
  rewrite Hs. now apply trimEnd_digits_blank.
Qed.

Lemma blank_no_minus (a : string) : blank a = true -> endsWithMinus a = false.
Proof.
  induction a as [ | c a IH ]; [ reflexivity | ].
  cbn [blank allChars]. intros H. apply andb_true_iff in H as [Hc Ha].
  cbn [endsWithMinus]. destruct a as [ | c' a' ].
  - apply (space_not_punctuation c Hc).
  - now apply IH.
Qed.

Lemma blank_not_number (b : string) :
  blank b = true -> startsWithFraction b = false /\ startsWithDigit b = false.
Proof.
  destruct b as [ | c b ]; [ now split | ].
  cbn [blank allChars]. intros H. apply andb_true_iff in H as [Hc _].
  split; [ | now apply space_not_digit ].
  destruct c as [[] [] [] [] [] [] [] []]; try reflexivity; discriminate Hc.
Qed.

(** X15: on a cell that holds a run of digits with white space around it
    and nothing else, the three coercions agree: each returns the binary64
    value of the integer the digits denote. *)
Theorem clean_integer_cells (a d b : string) :
  blank a = true -> digits d = true -> d <> EmptyString -> blank b = true ->
  let cell := Some (a +:+ d +:+ b) in
  Results.coerceNumber cell
  = finiteOrNull (signed false (Some (Some (inject_Z (decimalValue d) * 1)%Q)))
  /\ Data.coerceNumber cell = Results.coerceNumber cell
  /\ Results2.coerceNumber cell = Results.coerceNumber cell.
Proof.
  intros Ha Hd Hne Hb cell.
  assert (Hcomma : replaceComma (a +:+ d +:+ b) = a +:+ d +:+ b).
  { apply replaceComma_commaFree. unfold commaFree. rewrite !allChars_app.
    fold commaFree. rewrite (blank_commaFree a Ha), (digits_commaFree d Hd).
    now rewrite (blank_commaFree b Hb). }
  assert (Hstrict : Results.coerceNumber cell
                    = finiteOrNull (StringToNumber d)).
  { unfold Results.coerceNumber, cell. rewrite String_Some, Hcomma.
    now rewrite (trim_padded a d b Ha Hd Hne Hb). }
  split; [ | split ].
  - rewrite Hstrict. now rewrite StringToNumber_digits.
  - reflexivity.
  - rewrite Hstrict. unfold Results2.coerceNumber, cell. rewrite String_Some, Hcomma.
    assert (Ht : firstToken (a +:+ d +:+ b) a EmptyString d EmptyString b).
    { unfold firstToken. rewrite !append_nil_l.
      destruct (blank_not_number b Hb) as [Hf Hdg].
      split; [ reflexivity | ]. split; [ now apply blank_digitFree | ].
      split; [ right; split; [ reflexivity | now apply blank_no_minus ] | ].
      split; [ exact Hd | ]. split; [ exact Hne | ].
      split; [ left; now split | exact Hdg ]. }
    rewrite (matchNumber_firstToken _ _ _ _ _ _ Ht).
    now rewrite append_nil_l, append_nil_r.
Qed.

(** The cell " 12 " is 12 for the three coercions. *)
Lemma clean_integer_cells_witness :
  Results.coerceNumber (Some " 12 "%string) = Some 12%Q
  /\ Data.coerceNumber (Some " 12 "%string) = Results.coerceNumber (Some " 12 "%string)
  /\ Results2.coerceNumber (Some " 12 "%string)
     = Results.coerceNumber (Some " 12 "%string).
Proof.
  exact (clean_integer_cells " " "12" " " eq_refl eq_refl ltac:(discriminate) eq_refl).
Defined.

(** ** Genre resolution on the page with the window 1..15 *)

Lemma startsWith_includes (s p : string) :
  startsWith s p = true -> includes s p = true.
Proof.
  unfold startsWith. intros H. destruct s; cbn [includes]; now rewrite H.
Qed.

(** [inferGenre] with the file-level [normalizeGenre] unfolded. *)
Lemma inferGenre_unfold (row : RawRow) (genreCol : string) :
  let v := Results2.norm (row !! genreCol) in
  let u := toUpperCase v in
  Results2.inferGenre row genreCol
  = if String.eqb v EmptyString then None
    else if bool_decide (u ∈ Results2.GENRES) then Some (Str u)
    else match truthy (getProperty Results.GENRE_MAP (toLowerCase v)) with
         | Some mapped => Some mapped
         | None => Str <$> List.find (fun g => includes u g) Results2.GENRES
         end.
Proof.
  intros v u. unfold Results2.inferGenre. fold v u.
  destruct (String.eqb v EmptyString) eqn:Hv; [ reflexivity | ].
  destruct (bool_decide (u ∈ Results2.GENRES)) eqn:Hu; [ reflexivity | ].
  apply String.eqb_neq in Hv.
  assert (Ht : trim v = v) by apply trim_idempotent.
  unfold Results2.normalizeGenre. destruct v as [ | c v' ] eqn:E; [ congruence | ].
  rewrite Ht. fold u. now rewrite Hu.
Qed.

Lemma find_is_Some {A : Type} (f : A -> bool) (l : list A) (x : A) :
  x ∈ l -> f x = true -> is_Some (List.find f l).
Proof.
  intros Hx Hf. destruct (List.find f l) eqn:E; [ now eexists | ].
  apply list_elem_of_In in Hx. pose proof (find_none _ _ E x Hx). congruence.
Qed.

(** What the other results pages resolve, the rules of this page resolve
    too. *)
Lemma normalizeGenre_covered (cell : option string) :
  is_Some (Results.normalizeGenre cell) ->
  is_Some
    (let v := Results2.norm cell in
     let u := toUpperCase v in
     if String.eqb v EmptyString then None
     else if bool_decide (u ∈ Results.GENRES) then Some (Str u)
     else match truthy (getProperty Results.GENRE_MAP (toLowerCase v)) with
          | Some mapped => Some mapped
          | None => Str <$> List.find (fun g => includes u g) Results.GENRES
          end).
Proof.
  intros [w Hw]. destruct cell as [ raw | ]; [ | discriminate ].
  destruct raw as [ | c raw' ] eqn:Eraw; [ discriminate | ]. rewrite <- Eraw in *.
  unfold Results.normalizeGenre in Hw. rewrite Eraw in Hw. rewrite <- Eraw in Hw.
  change (Results.norm (Some raw)) with (Results2.norm (Some raw)) in Hw.
  cbv zeta in *.
  set (v := Results2.norm (Some raw)) in *. set (u := toUpperCase v) in *.
  destruct (bool_decide (u ∈ Results.GENRES)) eqn:Hu.
  - apply bool_decide_eq_true_1 in Hu.
    assert (Hv : String.eqb v EmptyString = false).
    { apply String.eqb_neq. intros Hv. apply GENRES_nonempty in Hu.
      unfold u in Hu. rewrite Hv in Hu. now apply Hu. }
    rewrite Hv. now eexists.
  - destruct (truthy (getProperty Results.GENRE_MAP (toLowerCase v))) as [ m | ] eqn:Hm.
    + destruct (String.eqb v EmptyString) eqn:Hv; [ | now eexists ].
      apply String.eqb_eq in Hv. rewrite Hv in Hm. discriminate Hm.
    + destruct (List.find (fun g => startsWith u g) Results.GENRES) as [ g | ] eqn:Hf;
        [ | discriminate ].
      apply find_some in Hf as [Hin Hg]. apply list_elem_of_In in Hin.
      assert (Hv : String.eqb v EmptyString = false).
      { apply String.eqb_neq. intros Hv. unfold u in Hg. rewrite Hv in Hg.
        apply GENRES_nonempty in Hin. destruct g; [ congruence | discriminate ]. }
      rewrite Hv.
      destruct (find_is_Some (fun g => includes u g) Results.GENRES g Hin
                  (startsWith_includes _ _ Hg)) as [g' ->].
      now eexists.
Qed.

(** The rules of [inferGenre], in their order. *)
Lemma inferGenre_cases (row : RawRow) (genreCol : string) :
  let v := Results2.norm (row !! genreCol) in
  let u := toUpperCase v in
  let k := toLowerCase v in
  (v = EmptyString -> Results2.inferGenre row genreCol = None)
  /\ (u ∈ Results2.GENRES -> Results2.inferGenre row genreCol = Some (Str u))
  /\ (u ∉ Results2.GENRES ->
      forall g, Results2.GENRE_MAP !! k = Some g ->
                Results2.inferGenre row genreCol = Some (Str g))
  /\ (u ∉ Results2.GENRES ->
      Results2.GENRE_MAP !! k = None ->
      k ∉ objectPrototypeKeys ->
      (forall g, Results2.inferGenre row genreCol = Some (Str g) <->
                 firstWith (fun g => includes u g) Results2.GENRES g)
      /\ (Results2.inferGenre row genreCol = None <->
          Forall (fun g => includes u g = false) Results2.GENRES))
  /\ (forall w, Results2.inferGenre row genreCol = Some w ->
                k ∉ objectPrototypeKeys ->
                exists g, g ∈ Results2.GENRES /\ w = Str g).
Proof.
  intros v u k. rewrite inferGenre_unfold. fold v u k.
  change Results2.GENRE_MAP with Results.GENRE_MAP.
  change Results2.GENRES with Results.GENRES.
  assert (Hcode : u ∈ Results.GENRES -> String.eqb v EmptyString = false).
  { intros Hu. apply String.eqb_neq. intros Hv. apply GENRES_nonempty in Hu.
    unfold u in Hu. rewrite Hv in Hu. now apply Hu. }
  assert (Hletter : forall g, Results.GENRE_MAP !! k = Some g ->
                              String.eqb v EmptyString = false
                              /\ truthy (getProperty Results.GENRE_MAP k)
                                 = Some (Str g)).
  { intros g Hg. split.
    - apply String.eqb_neq. intros Hv. unfold k in Hg. rewrite Hv in Hg.
      discriminate Hg.
    - unfold getProperty. rewrite Hg.
      pose proof (GENRES_nonempty g (GENRE_MAP_codes k g Hg)) as Hne.
      destruct g; [ congruence | reflexivity ]. }
  split; [ now intros -> | ].
  split; [ intros Hu; rewrite (Hcode Hu); now rewrite bool_decide_eq_true_2 | ].
  split.
  { intros Hu g Hg. destruct (Hletter g Hg) as [-> ->].
    now rewrite bool_decide_eq_false_2. }
  split.
  { intros Hu Hk Hproto.
    rewrite bool_decide_eq_false_2 by exact Hu.
    unfold getProperty. rewrite Hk, bool_decide_eq_false_2 by exact Hproto.
    cbn [truthy]. destruct (String.eqb v EmptyString) eqn:Hv.
    - apply String.eqb_eq in Hv. split.
      + intros g. rewrite <- find_firstWith. unfold u. rewrite Hv.
        split; discriminate.
      + split; [ | reflexivity ]. intros _. unfold u. rewrite Hv.
        apply Forall_forall. intros g Hg. apply GENRES_nonempty in Hg.
        destruct g; [ congruence | reflexivity ].
    - split.
      + intros g. rewrite <- find_firstWith.
        destruct (List.find _ _); cbn; split; congruence.
      + destruct (List.find _ _) as [ g | ] eqn:Hf; cbn.
        * split; [ discriminate | ]. intros Hall.
          apply find_some in Hf as [Hin Hg]. apply list_elem_of_In in Hin.
          rewrite Forall_forall in Hall. specialize (Hall g Hin). congruence.
        * split; [ | reflexivity ]. intros _. apply Forall_forall.
          intros g Hin. apply list_elem_of_In in Hin.
          exact (find_none _ _ Hf g Hin). }
  intros w Hw Hproto. destruct (String.eqb v EmptyString); [ discriminate | ].
  destruct (bool_decide (u ∈ Results.GENRES)) eqn:Hu.
  - apply bool_decide_eq_true_1 in Hu. injection Hw as <-. now exists u.
  - unfold getProperty in Hw.
    destruct (Results.GENRE_MAP !! k) as [ g | ] eqn:Hk.
    + pose proof (GENRE_MAP_codes k g Hk) as Hg.
      pose proof (GENRES_nonempty g Hg) as Hne.
      exists g. split; [ exact Hg | ].
      destruct g; [ congruence | ]. cbn in Hw. congruence.
    + rewrite bool_decide_eq_false_2 in Hw by exact Hproto. cbn [truthy] in Hw.
      destruct (List.find _ _) as [ g | ] eqn:Hf; [ | discriminate ].
      injection Hw as <-. exists g. split; [ | reflexivity ].
      now apply find_elem_of in Hf.
Qed.

(** X16: the rules of [inferGenre], in their order: no genre for a blank
    cell; else the upper-cased value when it is one of the six codes; else
    the code of the letter map; else the first of the six codes that the
    upper-cased value contains; else none.  Apart from the names every
    object inherits, the result is one of the six codes.  Whenever the
    other results pages resolve a cell, this page resolves it too, but by
    the last rule not always to the same code: "POEBIO" starts with POE and
    contains BIO, which comes first in the list. *)
Theorem inferGenre_rules (row : RawRow) (genreCol : string) :
  let v := Results2.norm (row !! genreCol) in
  let u := toUpperCase v in
  let k := toLowerCase v in
  (v = EmptyString -> Results2.inferGenre row genreCol = None)
  /\ (u ∈ Results2.GENRES -> Results2.inferGenre row genreCol = Some (Str u))
  /\ (u ∉ Results2.GENRES ->
      forall g, Results2.GENRE_MAP !! k = Some g ->
                Results2.inferGenre row genreCol = Some (Str g))
  /\ (u ∉ Results2.GENRES ->
      Results2.GENRE_MAP !! k = None ->
      k ∉ objectPrototypeKeys ->
      forall g, Results2.inferGenre row genreCol = Some (Str g) <->
                firstWith (fun g => includes u g) Results2.GENRES g)
  /\ (forall w, Results2.inferGenre row genreCol = Some w ->
                k ∉ objectPrototypeKeys ->
                exists g, g ∈ Results2.GENRES /\ w = Str g)
  /\ (is_Some (Results.normalizeGenre (row !! genreCol)) ->
      is_Some (Results2.inferGenre row genreCol))
  /\ Results.normalizeGenre (Some "POEBIO"%string) = Some (Str "POE")
  /\ Results2.inferGenre {[ "GenreCode" := "POEBIO" ]}%string "GenreCode"
     = Some (Str "BIO").
Proof.
  intros v u k.
  destruct (inferGenre_cases row genreCol) as (H1 & H2 & H3 & H4 & H5).
  split; [ exact H1 | ]. split; [ exact H2 | ]. split; [ exact H3 | ].
  split; [ intros Hu Hk Hproto; exact (proj1 (H4 Hu Hk Hproto)) | ].
  split; [ exact H5 | ].
  split; [ | split; reflexivity ].
  intros H. rewrite inferGenre_unfold. exact (normalizeGenre_covered _ H).
Qed.

(** ** The aggregates, once more *)

Lemma inject_Z_S (n : nat) :
  (inject_Z (Z.of_nat (S n)) == inject_Z (Z.of_nat n) + 1)%Q.
Proof. rewrite Nat2Z.inj_succ. unfold Z.succ. now rewrite inject_Z_plus. Qed.

Lemma sumQ_bounds (lo hi : Q) (vals : list Q) :
  Forall (fun v => (lo <= v <= hi)%Q) vals ->
  (lo * inject_Z (Z.of_nat (length vals)) <= sumQ vals
   <= hi * inject_Z (Z.of_nat (length vals)))%Q.
Proof.
  induction 1 as [ | v vals [Hl Hh] _ [IHl IHh] ].
  - change (inject_Z (Z.of_nat (length []))) with 0%Q.
    change (sumQ []) with 0%Q. lra.
  - cbn [length]. rewrite sumQ_cons, inject_Z_S. lra.
Qed.

Lemma mean_exact_bounds (lo hi : Q) (vals : list Q) (m : Q) :
  Forall (fun v => (lo <= v <= hi)%Q) vals ->
  mean_exact vals = Some m -> (lo <= m <= hi)%Q.
Proof.
  intros Hv Hm.
  assert (Hn : (0 < inject_Z (Z.of_nat (length vals)))%Q).
  { destruct vals as [ | v vs ]; [ discriminate | ].
    cbn [length]. rewrite inject_Z_S.
    assert (0 <= inject_Z (Z.of_nat (length vs)))%Q; [ | lra ].
    change 0%Q with (inject_Z 0). rewrite <- Zle_Qle. lia. }
  apply mean_exact_value in Hm. rewrite Hm.
  destruct (sumQ_bounds lo hi vals Hv) as [Hl Hh]. split.
  - apply Qle_shift_div_l; [ exact Hn | exact Hl ].
  - apply Qle_shift_div_r; [ exact Hn | exact Hh ].
Qed.

Section Series.
Context {R : Type}.
Variable genre : R -> value.
Variable century : R -> Z.
Variable love : R -> Q.

Lemma summary_within (lo hi : Q) (c : Z) (rows : list R) (P : R -> Prop)
    `{!forall r, Decision (P r)} :
  Forall (fun r => (lo <= love r <= hi)%Q) rows ->
  forall m, b_mean (summary mean_exact c (love <$> filter P rows)) = Some m ->
            (lo <= m <= hi)%Q.
Proof.
  intros Hrows m Hm. unfold summary in Hm. cbn in Hm.
  assert (Hv : Forall (fun v => (lo <= v <= hi)%Q) (love <$> filter P rows)).
  { apply Forall_fmap. apply Forall_forall. intros r Hr.
    apply list_elem_of_filter in Hr as [_ Hr].
    rewrite Forall_forall in Hrows. now apply Hrows. }
  destruct (love <$> filter P rows) as [ | v vs ] eqn:E; [ discriminate | ].
  now apply (mean_exact_bounds lo hi _ m Hv).
Qed.

Lemma series_within (lo hi : Q) (centuries : list Z) (rows : list R) :
  Forall (fun r => (lo <= love r <= hi)%Q) rows ->
  meansWithin lo hi (pooled century love mean_exact centuries rows)
  /\ forall g, meansWithin lo hi
                 (genreSeries genre century love mean_exact centuries rows g).
Proof.
  intros Hrows. split; [ | intros g ]; apply Forall_forall; intros b Hb.
  - apply pooled_elem in Hb as (c & _ & -> & _). now apply summary_within.
  - apply genreSeries_elem in Hb as (c & _ & -> & _). now apply summary_within.
Qed.

(** The count of a series at a century. *)
Lemma nAt_summaries (centuries : list Z) (vals : Z -> list Q) (c : Z) :
  NoDup centuries ->
  nAt (filter (fun d => is_Some (b_mean d))
         ((fun c => summary mean_exact c (vals c)) <$> centuries)) c
  = if decide (c ∈ centuries) then length (vals c) else 0%nat.
Proof.
  unfold nAt. induction 1 as [ | c0 cs Hnot Hnd IH ].
  - cbn. destruct (decide (c ∈ [])) as [ H | ]; [ now apply elem_of_nil in H | reflexivity ].
  - rewrite fmap_cons, filter_cons.
    assert (Hrest : sum_list
                      (b_n <$> filter (fun d => b_century d = c)
                         (filter (fun d => is_Some (b_mean d))
                            ((fun c => summary mean_exact c (vals c)) <$> cs)))
                    = if decide (c = c0) then 0%nat
                      else if decide (c ∈ c0 :: cs) then length (vals c) else 0%nat).
    { rewrite IH. destruct (decide (c = c0)) as [ -> | Hne ].
      - now rewrite decide_False.
      - destruct (decide (c ∈ cs)) as [ Hc | Hc ].
        + rewrite decide_True; [ reflexivity | now right ].
        + rewrite decide_False; [ reflexivity | ].
          intros [ | ]%elem_of_cons; contradiction. }
    destruct (decide (is_Some (b_mean (summary mean_exact c0 (vals c0)))))
      as [ Hm | Hm ].
    + rewrite filter_cons. cbn [b_century summary].
      destruct (decide (c0 = c)) as [ <- | Hne ].
      * rewrite fmap_cons. cbn [sum_list sum_list_with b_n summary].
        change (list_fmap _ _ b_n ?l) with (b_n <$> l).
        rewrite Hrest, decide_True by reflexivity.
        rewrite decide_True by left. unfold id. lia.
      * rewrite Hrest, decide_False by congruence. reflexivity.
    + rewrite Hrest. destruct (decide (c = c0)) as [ -> | Hne ]; [ | reflexivity ].
      rewrite decide_True by left.
      destruct (vals c0) as [ | v vs ] eqn:E; [ reflexivity | ].
      exfalso. apply Hm. apply (summary_mean_defined mean_exact c0 _ mean_exact_defined).
      discriminate.
Qed.

Lemma length_filter_split (P : R -> Prop) `{!forall r, Decision (P r)} (rows : list R) :
  length rows = (length (filter P rows) + length (filter (fun r => ~ P r) rows))%nat.
Proof.
  induction rows as [ | r rows IH ]; [ reflexivity | ].
  rewrite !filter_cons. destruct (decide (P r)) as [ Hp | Hp ].
  - rewrite decide_False by tauto. cbn [length]. lia.
  - rewrite decide_True by exact Hp. cbn [length]. lia.
Qed.

(** The counts of the genre series and of the rows of no genre of the list
    add up to the pooled count. *)
Lemma nAt_split (GENRES : list string) (centuries : list Z) (rows : list R) (c : Z) :
  NoDup GENRES -> NoDup centuries ->
  let others := filter (fun r => genre r ∉ Str <$> GENRES) rows in
  nAt (pooled century love mean_exact centuries rows) c
  = (sum_list
       ((fun g => nAt (genreSeries genre century love mean_exact centuries rows g) c)
          <$> GENRES)
     + nAt (pooled century love mean_exact centuries others) c)%nat.
Proof.
  intros Hg Hc others. unfold pooled, genreSeries.
  rewrite !(nAt_summaries centuries
              (fun c => love <$> filter (fun r => century r = c) _) c Hc).
  assert (E : (fun g =>
                 nAt (filter (fun d => is_Some (b_mean d))
                        ((fun c0 =>
                            summary mean_exact c0
                              (love <$> filter (fun r => genre r = Str g /\ century r = c0)
                                          rows)) <$> centuries)) c) <$> GENRES
              = (fun g =>
                   if decide (c ∈ centuries)
                   then countOf genre (Str g) (filter (fun r => century r = c) rows)
                   else 0%nat) <$> GENRES).
  { apply list_fmap_ext. intros _ g _.
    rewrite (nAt_summaries centuries
               (fun c => love <$> filter (fun r => genre r = Str g /\ century r = c) rows)
               c Hc).
    destruct (decide (c ∈ centuries)); [ | reflexivity ].
    unfold countOf. rewrite length_fmap, list_filter_filter. reflexivity. }
  rewrite E. clear E.
  destruct (decide (c ∈ centuries)) as [ Hin | Hout ].
  - rewrite !length_fmap.
    set (rc := filter (fun r => century r = c) rows).
    rewrite (length_filter_split (fun r => genre r ∈ Str <$> GENRES) rc).
    f_equal.
    + rewrite <- (countOf_partition genre (Str <$> GENRES)
                    (filter (fun r => genre r ∈ Str <$> GENRES) rc)).
      * rewrite <- list_fmap_compose. apply (f_equal sum_list).
        apply list_fmap_ext. intros _ g Hgin%list_elem_of_lookup_2.
        unfold compose, countOf. rewrite list_filter_filter. f_equal.
        apply filter_iff_elem_of. intros r _.
        assert (Hmem : genre r = Str g -> genre r ∈ Str <$> GENRES).
        { intros ->. now apply list_elem_of_fmap_2. }
        tauto.
      * apply NoDup_fmap_2; [ | exact Hg ]. now intros a b [= ->].
      * intros r Hr. now apply list_elem_of_filter in Hr as [Hr _].
    + unfold rc, others. rewrite !list_filter_filter. f_equal.
      apply list_filter_iff. intros r. tauto.
  - clear. induction GENRES as [ | g gs IH ]; [ reflexivity | exact IH ].
Qed.
End Series.

Lemma Results_GENRES_NoDup : NoDup Results.GENRES.
Proof. apply (bool_decide_unpack _). vm_compute. reflexivity. Qed.

Section Pages.
Variables genreCol dateCol loveCol : string.
Variables titleCol authorCol uriCol : option string.

Lemma Results_rows_love (raw : list RawRow) :
  Forall (fun r => (0 <= Results.love r <= 2)%Q)
    (Results.rows genreCol dateCol loveCol titleCol authorCol uriCol raw).
Proof.
  apply Forall_forall. intros rec Hin.
  apply list_elem_of_omap in Hin as (r & _ & Hr).
  apply Results_buildRow_inv in Hr as (l & _ & _ & _ & -> & _).
  apply (clamp_cases l).
Qed.

Lemma Results2_rows_love (raw : list RawRow) :
  Forall (fun r => (0 <= Results2.love r <= 2)%Q)
    (Results2.rows genreCol dateCol loveCol titleCol authorCol uriCol raw).
Proof.
  apply Forall_forall. intros rec Hin.
  apply list_elem_of_omap in Hin as (r & _ & Hr).
  apply Results2_buildRow_inv in Hr as (l & _ & _ & _ & _ & ->).
  apply (clamp_cases l).
Qed.

(** X17: with the arithmetic mean, every mean that the results pages plot,
    pooled or of a genre, lies in [0, 2], the fixed domain of the vertical
    scale: a mean of clamped love indices cannot leave it. *)
Theorem means_within_scale (raw : list RawRow) :
  let rows := Results.rows genreCol dateCol loveCol titleCol authorCol uriCol raw in
  let rows2 := Results2.rows genreCol dateCol loveCol titleCol authorCol uriCol raw in
  meansWithin 0 2
    (pooled Results.century Results.love mean_exact Results.centuries rows)
  /\ (forall g,
        meansWithin 0 2
          (genreSeries Results.genre Results.century Results.love mean_exact
             Results.centuries rows g))
  /\ meansWithin 0 2
       (pooled Results2.century Results2.love mean_exact Results2.centuries rows2)
  /\ (forall g,
        meansWithin 0 2
          (genreSeries Results2.genre Results2.century Results2.love mean_exact
             Results2.centuries rows2 g)).
Proof.
  intros rows rows2.
  destruct (series_within Results.genre Results.century Results.love 0 2
              Results.centuries rows (Results_rows_love raw)) as [H1 H2].
  destruct (series_within Results2.genre Results2.century Results2.love 0 2
              Results2.centuries rows2 (Results2_rows_love raw)) as [H3 H4].
  auto.
Qed.
End Pages.

(** X18: at every century the counts of the six genre series and the
    count of the rows whose genre is none of the six codes add up to the
    pooled count; so the counts of the genre lines add up to the count of
    the pooled line whenever every genre is one of the six codes. *)
Theorem pooled_count_splits (rows : list (Results.row Q)) (c : Z) :
  let series (g : string) :=
    genreSeries Results.genre Results.century Results.love mean_exact
      Results.centuries rows g in
  let others := filter (fun r => Results.genre r ∉ Str <$> Results.GENRES) rows in
  nAt (pooled Results.century Results.love mean_exact Results.centuries rows) c
  = (sum_list ((fun g => nAt (series g) c) <$> Results.GENRES)
     + nAt (pooled Results.century Results.love mean_exact Results.centuries others) c)%nat
  /\ (others = [] ->
      nAt (pooled Results.century Results.love mean_exact Results.centuries rows) c
      = sum_list ((fun g => nAt (series g) c) <$> Results.GENRES)).
Proof.
  intros series others.
  pose proof (nAt_split Results.genre Results.century Results.love Results.GENRES
                Results.centuries rows c Results_GENRES_NoDup (d3_range_NoDup _ _))
    as H.
  cbv zeta in H. fold others in H. split; [ exact H | ].
  intros E. rewrite H, E. unfold series, pooled.
  rewrite (nAt_summaries Results.centuries
             (fun c0 => Results.love <$> filter (fun r => Results.century r = c0) [])
             c (d3_range_NoDup _ _)).
  destruct (decide (c ∈ Results.centuries)); cbn; lia.
Qed.

(** ** The accordion of the methods page *)

(** X19: when a panel of the accordion is opened, its listener closes every
    other panel, so that it is the only open one; the listeners of the
    panels it closed then find them closed and change nothing, as does the
    listener of a panel that was closed by the user.  The number of panels
    never changes. *)
Theorem accordion_one_open (i : nat) (details : list bool) :
  length (Methods.onToggle i details) = length details
  /\ (details !! i = Some true ->
      forall j, Methods.onToggle i details !! j = Some true <-> j = i)
  /\ (details !! i = Some true ->
      forall j, j <> i ->
                Methods.onToggle j (Methods.onToggle i details)
                = Methods.onToggle i details)
  /\ (details !! i <> Some true -> Methods.onToggle i details = details).
Proof.
  assert (Hopen : details !! i = Some true ->
                  forall j, Methods.onToggle i details !! j = Some true <-> j = i).
  { intros Hi j. unfold Methods.onToggle. rewrite Hi, list_lookup_imap.
    destruct (decide (j = i)) as [ -> | Hne ].
    - rewrite Hi. cbn. now split.
    - destruct (details !! j); cbn; split; congruence. }
  split; [ | split; [ exact Hopen | split ] ].
  - unfold Methods.onToggle.
    destruct (details !! i) as [ [ | ] | ]; [ apply length_imap | | ]; reflexivity.
  - intros Hi j Hne. unfold Methods.onToggle at 1.
    destruct (Methods.onToggle i details !! j) as [ [ | ] | ] eqn:Hj; try reflexivity.
    apply (Hopen Hi) in Hj. contradiction.
  - intros Hi. unfold Methods.onToggle.
    destruct (details !! i) as [ [ | ] | ]; [ congruence | | ]; reflexivity.
Qed.

(** ** The ticks of the DATA page *)

Lemma filter_le_prefix (m : Z) (l : list Z) :
  StronglySorted Z.le l ->
  exists k, filter (fun t => (t <= m)%Z) l = take k l.
Proof.
  induction 1 as [ | t l Hs [k IH] Ht ].
  - now exists 0%nat.
  - rewrite filter_cons. destruct (decide (t <= m)%Z) as [ Hle | Hgt ].
    + exists (S k). cbn [take]. now rewrite IH.
    + exists 0%nat. cbn [take]. clear IH.
      induction l as [ | u l IHl ]; [ reflexivity | ].
      apply Forall_cons in Ht as [Hu Ht]. apply StronglySorted_inv in Hs as [Hs _].
      rewrite filter_cons, decide_False by lia. now apply IHl.
Qed.

Lemma tickBase_sorted : StronglySorted Z.le DataScript.tickBase.
Proof.
  unfold DataScript.tickBase.
  repeat (apply SSorted_cons; [ | repeat (apply Forall_cons; split; [ lia | ]);
                                  apply Forall_nil_2 ]).
  apply SSorted_nil.
Qed.

(** X20: the ticks are a beginning of the list 1, 2, 5, ..., 5000, and
    all lie between 1 and the greatest count; the greatest count is at
    least 1 and bounds every count of the series, so the first tick is
    always 1. *)
Theorem log_ticks (series : list (Z * gmap string nat)) (genres : list string) :
  let m := Z.of_nat (DataScript.maxVal series genres) in
  (forall M, exists k,
       DataScript.niceLogTicks M = take k DataScript.tickBase)
  /\ Forall (fun t => (1 <= t <= m)%Z) (DataScript.niceLogTicks m)
  /\ head (DataScript.niceLogTicks m) = Some 1%Z
  /\ (forall d k, d ∈ series -> k ∈ genres ->
                  (default O (snd d !! k) <= DataScript.maxVal series genres)%nat).
Proof.
  intros m.
  assert (Hm : (1 <= m)%Z).
  { unfold m, DataScript.maxVal. destruct (max_list _); lia. }
  split; [ intros M; apply filter_le_prefix, tickBase_sorted | ].
  split; [ | split ].
  - apply Forall_forall. intros t Ht. unfold DataScript.niceLogTicks in Ht.
    apply list_elem_of_filter in Ht as [Hle Ht]. split; [ | exact Hle ].
    unfold DataScript.tickBase in Ht.
    repeat (apply elem_of_cons in Ht as [ -> | Ht ]; [ lia | ]).
    now apply elem_of_nil in Ht.
  - unfold DataScript.niceLogTicks, DataScript.tickBase.
    rewrite filter_cons, decide_True by exact Hm. reflexivity.
  - intros d k Hd Hk. unfold DataScript.maxVal.
    set (cells := (fun d => max_list ((fun k => default O (snd d !! k)) <$> genres))
                    <$> series).
    assert (H1 : (default O (snd d !! k)
                  <= max_list ((fun k => default O (snd d !! k)) <$> genres))%nat).
    { apply max_list_elem_of_le. apply list_elem_of_fmap. now exists k. }
    assert (H2 : (max_list ((fun k => default O (snd d !! k)) <$> genres)
                  <= max_list cells)%nat).
    { apply max_list_elem_of_le. unfold cells. apply list_elem_of_fmap. now exists d. }
    destruct (max_list cells); lia.
Qed.

(** ** The legend of the scatter *)

Lemma elem_of_toggle (x g : string) (hidden : gset string) :
  x ∈ ResultsScript.toggle g hidden <-> (x = g /\ g ∉ hidden) \/ (x <> g /\ x ∈ hidden).
Proof.
  unfold ResultsScript.toggle. destruct (decide (g ∈ hidden)) as [ Hg | Hg ].
  - rewrite elem_of_difference, elem_of_singleton. tauto.
  - rewrite elem_of_union, elem_of_singleton.
    destruct (decide (x = g)) as [ -> | Hne ]; tauto.
Qed.

(** X21: a click on a legend row of the scatter hides the dots of its
    genre, or shows them again if they were hidden, and touches the dots
    of no other genre; two clicks on one row cancel, and clicks on two
    rows have the same effect in either order.  A record whose genre is
    not a string is never hidden, and at first every dot is displayed. *)
Theorem scatter_legend_toggle (g k : string) (hidden : gset string)
    (rows : list (Results.row Q)) :
  ResultsScript.toggle g (ResultsScript.toggle g hidden) = hidden
  /\ ResultsScript.toggle g (ResultsScript.toggle k hidden)
     = ResultsScript.toggle k (ResultsScript.toggle g hidden)
  /\ (forall d, Results.genre d = Str g ->
        (d ∈ ResultsScript.displayed (ResultsScript.toggle g hidden) rows
         <-> d ∈ rows /\ g ∈ hidden))
  /\ (forall d, Results.genre d <> Str g ->
        (d ∈ ResultsScript.displayed (ResultsScript.toggle g hidden) rows
         <-> d ∈ ResultsScript.displayed hidden rows))
  /\ (forall d name, d ∈ rows -> Results.genre d = Inherited name ->
                     d ∈ ResultsScript.displayed hidden rows)
  /\ ResultsScript.displayed ∅ rows = rows.
Proof.
  unfold ResultsScript.displayed.
  split; [ | split; [ | split; [ | split; [ | split ] ] ] ].
  - apply set_eq. intros x. rewrite !elem_of_toggle.
    destruct (decide (x = g)), (decide (g ∈ hidden)), (decide (x ∈ hidden));
      subst; tauto.
  - apply set_eq. intros x. rewrite !elem_of_toggle.
    destruct (decide (x = g)), (decide (x = k)), (decide (g = k)),
      (decide (g ∈ hidden)), (decide (k ∈ hidden)), (decide (x ∈ hidden));
      subst; tauto.
  - intros d Hd. rewrite list_elem_of_filter, Hd. cbn. rewrite elem_of_toggle.
    destruct (decide (g ∈ hidden)); tauto.
  - intros d Hd. rewrite !list_elem_of_filter.
    destruct (Results.genre d) as [ g' | name ]; cbn; [ | tauto ].
    assert (g' <> g) by congruence. rewrite elem_of_toggle. tauto.
  - intros d name Hin Hd. rewrite list_elem_of_filter, Hd. cbn. tauto.
  - induction rows as [ | d rows IH ]; [ reflexivity | ].
    rewrite filter_cons, IH. rewrite decide_True; [ reflexivity | ].
    destruct (Results.genre d); cbn; [ apply not_elem_of_empty | tauto ].
Qed.

(** ** The year fallback of the DATA page *)

(** X22: when a row has a genre and no century of its own, the DATA page
    takes the century from the year column with no check of the year
    range: the row is kept exactly when the year lies in [101, 1501), with
    the century that holds the year, and dropped otherwise. *)
Theorem data_year_fallback (genreCol ycol : string) (centuryCol : option string)
    (r : RawRow) (g : string) (y : Q) :
  ycol <> EmptyString ->
  Data.inferGenreValue r genreCol = Some g ->
  Data.inferCenturyValue r centuryCol = None ->
  Data.coerceNumber (r !! ycol) = Some y ->
  ((101 <= y < 1501)%Q ->
   Data.buildRow genreCol centuryCol (Some ycol) r
   = Some {| Data.genre := g; Data.century := Data.toCenturyFromYear y |})
  /\ (~ (101 <= y < 1501)%Q ->
      Data.buildRow genreCol centuryCol (Some ycol) r = None).
Proof.
  intros Hcol Hg Hc Hy. unfold Data.buildRow.
  rewrite Hg, Hc, (detected_Some ycol Hcol), Hy.
  pose proof (century_of_year_window y) as Hw.
  destruct (Qeq_bool y 0) eqn:H0.
  - apply Qeq_bool_iff in H0. split; [ intros [H _]; lra | reflexivity ].
  - destruct (Data.toCenturyFromYear y =? 0)%Z eqn:Hz.
    + apply Z.eqb_eq in Hz. split; [ | reflexivity ].
      intros H. apply Hw in H. lia.
    + destruct ((Data.toCenturyFromYear y <? 2)%Z
                || (15 <? Data.toCenturyFromYear y)%Z) eqn:Hout.
      * split; [ | reflexivity ]. intros H. apply Hw in H.
        apply orb_true_iff in Hout as [ Hlt | Hgt ];
          [ apply Z.ltb_lt in Hlt | apply Z.ltb_lt in Hgt ]; lia.
      * apply orb_false_iff in Hout as [H2 H15].
        apply Z.ltb_ge in H2, H15.
        split; [ reflexivity | ]. intros H. exfalso. apply H, Hw. lia.
Qed.

(** The year 150 falls in the second century. *)
Lemma data_year_fallback_witness :
  Data.buildRow "genre" None (Some "year"%string) yearOnlyRow
  = Some {| Data.genre := "POE"; Data.century := 2 |}.
Proof.
  apply (proj1 (data_year_fallback "genre" "year" None yearOnlyRow "POE" 150
                  ltac:(discriminate) eq_refl eq_refl eq_refl)).
  split; [ discriminate | reflexivity ].
Defined.

(** ** Genre resolution on the three pages *)




(** What the amended claim leaves out: the letter map is an object
    literal, and a lookup in it also finds what every object inherits.  The
    value "constructor" resolves to the inherited function, which is truthy
    and none of the six codes; the record is built with it. *)
Lemma normalizeGenre_inherited :
  Results.normalizeGenre (Some "Constructor"%string)
  = Some (Inherited "constructor")
  /\ Results.genre
       <$> Results.rows "GenreCode" "date" "BoC_final_0_2" None None None
             [ {[ "GenreCode" := "constructor"; "date" := "3";
                  "BoC_final_0_2" := "1" ]} ]
     = [ Inherited "constructor" ].
Proof. split; reflexivity. Qed.

(** ** The strict coercion, in general *)



(** *** The three literals, with their tests on characters written out *)




(** *** A cell without a digit *)











(** *** The characters of a numeric literal *)
















(** ** Numeric coercion on the three pages *)



